(** * DecisionTree: branch-aware persistence and tree mutation

    A shallow embedding of the TypeScript sources of the DecisionTree
    application, and the properties of its persistence layer and tree
    helpers.

    - [LifeTree], [LifeTreeHeap]: [findNodeById] and [replaceSubtreeAtNode]
      of [src/components/LifeTree.tsx], on tree values and on an explicit
      heap of objects and arrays.
    - [JS], [World]: JSON values, truthiness, and the world a route handler
      runs in: the primary store, the branch stores, the control plane, the
      calls that may throw, and the trace of calls made.
    - [TidbCloud]: [tidbCloudFetch], the HTTP Digest handshake.
    - [Timelines], [TimelineById]: the [POST], [GET] and [PUT] handlers of
      the timelines routes.
    - [RateLimit], [Generate]: [rateLimit], [getClientIP] and the [POST]
      handler of the generate route.
    - [Branches], [Trees]: the handlers of the branches route and of the
      shared-trees routes; [Binary64]: the products and [Math.floor] of
      [generateId], on binary64 numbers.
    - [Flow]: [treeToFlow], [treeToFlowWithBranchInfo], [treeToGraph] and
      [countPaths], the conversions of a tree for display.
    - [Contract], [Behaviour]: the vocabulary of the statements;
      [Examples], [Scenarios]: concrete inputs.

    The handlers are functions [World -> result A * World]: a handler
    either returns or throws, and the effects made before a throw stay.

    A JavaScript string is held as the bytes of its UTF-8 encoding: a
    character below U+0080 is one byte, every other one is two to four
    bytes of 128 and above.  The string functions the sources call are
    embedded on these bytes; they cut next to ASCII characters only, and
    [trim] removes the encodings of the white space of ECMAScript. *)

From Stdlib Require Import ZArith QArith.
From stdpp Require Import gmap strings list fin_maps option pretty.

Local Open Scope string_scope.
Local Open Scope Z_scope.

Set Warnings "-register-all".

(* ===================================================================== *)
(** * The tree of life paths ([src/components/LifeTree.tsx]) *)
(* ===================================================================== *)

Module LifeTree.

(** [type TimeFrame = "Now" | "1yr" | "3yr" | "5yr" | "10yr" | "20yr" | "30yr"] *)
Inductive TimeFrame := Now | Yr1 | Yr3 | Yr5 | Yr10 | Yr20 | Yr30.

(** [type Sentiment = "positive" | "neutral" | "negative"] *)
Inductive Sentiment := positive | neutral | negative.

(** [interface LifeNodeData]; the two optional fields are options. *)
Inductive LifeNodeData := Node {
  id : string;
  title : string;
  description : string;
  timeframe : TimeFrame;
  sentiment : Sentiment;
  probability : option Z;
  children : option (list LifeNodeData)
}.

(** The object spread [{ ...tree, children: c }]. *)
Definition with_children (tree : LifeNodeData) (c : list LifeNodeData) : LifeNodeData :=
  {| id := id tree; title := title tree; description := description tree;
     timeframe := timeframe tree; sentiment := sentiment tree;
     probability := probability tree; children := Some c |}.

(** [findNodeById]: the [for ... of] loop over the children is the inner
    fixpoint; an object is always truthy, so [if (found) return found]
    returns on the first child that yields a node. *)
Fixpoint findNodeById (tree : LifeNodeData) (i : string) : option LifeNodeData :=
  if String.eqb (id tree) i then Some tree
  else match children tree with
       | Some cs =>
           (fix loop (cs : list LifeNodeData) : option LifeNodeData :=
              match cs with
              | [] => None
              | child :: rest =>
                  match findNodeById child i with
                  | Some found => Some found
                  | None => loop rest
                  end
              end) cs
       | None => None
       end.

(** [replaceSubtreeAtNode]: an array, even an empty one, is truthy, so the
    second branch is taken exactly when the [children] field is there. *)
Fixpoint replaceSubtreeAtNode (tree : LifeNodeData) (nodeId : string)
    (newChildren : list LifeNodeData) : LifeNodeData :=
  if String.eqb (id tree) nodeId then with_children tree newChildren
  else match children tree with
       | Some cs =>
           with_children tree
             (List.map (fun child => replaceSubtreeAtNode child nodeId newChildren) cs)
       | None => tree
       end.

(** ** Vocabulary for the statements *)

(** The nodes of a tree in depth-first document order. *)
Fixpoint preorder (tree : LifeNodeData) : list LifeNodeData :=
  tree :: match children tree with
          | Some cs => List.flat_map preorder cs
          | None => []
          end.

Definition ids (tree : LifeNodeData) : list string := List.map id (preorder tree).

(** [occurs i tree]: some node of [tree] carries the identifier [i]. *)
Definition occurs (i : string) (tree : LifeNodeData) : Prop := In i (ids tree).

(** The subtree reached by following child indices from the root. *)
Fixpoint subtree_at (tree : LifeNodeData) (path : list nat) : option LifeNodeData :=
  match path with
  | [] => Some tree
  | k :: path' =>
      match children tree with
      | Some cs =>
          match nth_error cs k with
          | Some child => subtree_at child path'
          | None => None
          end
      | None => None
      end
  end.

(** [clear_above i tree path]: no node strictly above the end of [path]
    carries the identifier [i]. *)
Fixpoint clear_above (i : string) (tree : LifeNodeData) (path : list nat) : Prop :=
  match path with
  | [] => True
  | k :: path' =>
      id tree <> i /\
      match children tree with
      | Some cs =>
          match nth_error cs k with
          | Some child => clear_above i child path'
          | None => True
          end
      | None => True
      end
  end.

(** The longest chain of [children] arrays below a node, counting the node. *)
Fixpoint height (tree : LifeNodeData) : nat :=
  S (match children tree with
     | Some cs => list_max (List.map height cs)
     | None => 0%nat
     end).

End LifeTree.

(* ===================================================================== *)
(** * The same helper on an object heap

    JavaScript objects and arrays are cells of a heap and a tree is a
    reference to its root object.  [replaceSubtreeAtNode] is embedded a
    second time, with every object literal and every [map] an allocation,
    so that "the input is not mutated" is a statement about the cells the
    heap held before the call. *)
(* ===================================================================== *)

Module LifeTreeHeap.

Abbreviation loc := positive (only parsing).

(** A [LifeNodeData] object: its scalar properties and, when the property
    is there, the reference to its [children] array. *)
Record LifeNodeObj := Obj {
  o_id : string;
  o_title : string;
  o_description : string;
  o_timeframe : LifeTree.TimeFrame;
  o_sentiment : LifeTree.Sentiment;
  o_probability : option Z;
  o_children : option loc
}.

Inductive cell :=
| CNode (o : LifeNodeObj)
| CArray (items : list loc).

Abbreviation heap := (gmap positive cell) (only parsing).

(** A new object or array gets a reference no live cell has. *)
Definition alloc (h : heap) (c : cell) : loc * heap :=
  let l := fresh (dom h) in (l, <[l := c]> h).

(** [{ ...o, children: a }] *)
Definition obj_with_children (o : LifeNodeObj) (a : loc) : LifeNodeObj :=
  {| o_id := o_id o; o_title := o_title o; o_description := o_description o;
     o_timeframe := o_timeframe o; o_sentiment := o_sentiment o;
     o_probability := o_probability o; o_children := Some a |}.

(** [items.map(f)], the callback running left to right on the growing heap;
    the caller allocates the result array. *)
Fixpoint map_items (f : heap -> loc -> option (loc * heap)) (h : heap)
    (items : list loc) : option (list loc * heap) :=
  match items with
  | [] => Some ([], h)
  | child :: rest =>
      match f h child with
      | Some (child', h1) =>
          match map_items f h1 rest with
          | Some (rest', h2) => Some (child' :: rest', h2)
          | None => None
          end
      | None => None
      end
  end.

(** [replaceSubtreeAtNode] on references.  [None] stands for a run that
    does not return a tree: a dangling or ill-typed reference (a
    [TypeError]) or recursion deeper than [fuel] frames. *)
Fixpoint replaceSubtreeAtNode (fuel : nat) (h : heap) (tree : loc) (nodeId : string)
    (newChildren : loc) : option (loc * heap) :=
  match fuel with
  | O => None
  | S fuel' =>
      match h !! tree with
      | Some (CNode o) =>
          if String.eqb (o_id o) nodeId
          then Some (alloc h (CNode (obj_with_children o newChildren)))
          else match o_children o with
               | Some a =>
                   match h !! a with
                   | Some (CArray items) =>
                       match map_items
                               (fun h' child =>
                                  replaceSubtreeAtNode fuel' h' child nodeId newChildren)
                               h items with
                       | Some (items', h1) =>
                           let (a', h2) := alloc h1 (CArray items') in
                           Some (alloc h2 (CNode (obj_with_children o a')))
                       | None => None
                       end
                   | _ => None
                   end
               | None => Some (tree, h)
               end
      | _ => None
      end
  end.

(** The tree value an object stands for, given the values of its children. *)
Definition tree_of (o : LifeNodeObj) (cs : option (list LifeTree.LifeNodeData))
  : LifeTree.LifeNodeData :=
  {| LifeTree.id := o_id o; LifeTree.title := o_title o;
     LifeTree.description := o_description o; LifeTree.timeframe := o_timeframe o;
     LifeTree.sentiment := o_sentiment o; LifeTree.probability := o_probability o;
     LifeTree.children := cs |}.

(** [repr h l t]: in heap [h] the reference [l] is the root of an object
    graph that reads as the tree value [t] (what [JSON.stringify] prints).
    Subtrees may be shared between parents. *)
Inductive repr (h : heap) : loc -> LifeTree.LifeNodeData -> Prop :=
| repr_leaf l o :
    h !! l = Some (CNode o) -> o_children o = None ->
    repr h l (tree_of o None)
| repr_node l o a items cs :
    h !! l = Some (CNode o) -> o_children o = Some a ->
    h !! a = Some (CArray items) ->
    Forall2 (repr h) items cs ->
    repr h l (tree_of o (Some cs)).

(** The [newChildren] array of a call. *)
Definition repr_array (h : heap) (a : loc) (cs : list LifeTree.LifeNodeData) : Prop :=
  exists items, h !! a = Some (CArray items) /\ Forall2 (repr h) items cs.

End LifeTreeHeap.

(* ===================================================================== *)
(** * JavaScript values and the library functions the routes call *)
(* ===================================================================== *)

Module JS.

(** A JSON value; a number stands for itself only (no arithmetic is done on
    payload numbers), objects keep their properties in insertion order. *)
Inductive json :=
| JNull
| JBool (b : bool)
| JNum (n : Z)
| JStr (s : string)
| JArr (items : list json)
| JObj (fields : list (string * json)).

(** Truthiness of a value, [if (v)] and [!v]. *)
Definition truthy (v : json) : bool :=
  match v with
  | JNull => false
  | JBool b => b
  | JNum n => negb (n =? 0)
  | JStr s => negb (String.eqb s "")
  | JArr _ | JObj _ => true
  end.

(** A possibly [undefined] value. *)
Definition truthy_opt (v : option json) : bool :=
  match v with Some v => truthy v | None => false end.

(** A string that may be [null] or [undefined]; [""] is falsy. *)
Definition truthy_str (s : option string) : bool :=
  match s with Some s => negb (String.eqb s "") | None => false end.

(** A nullable string as a JSON property. *)
Definition jopt (s : option string) : json :=
  match s with Some s => JStr s | None => JNull end.

(** A string-valued property read off a parsed body, or a variable that
    holds what was read: [undefined] when the property is not there,
    [null], or the string. *)
Inductive field := Undefined | Null | Str (s : string).

Definition truthy_field (f : field) : bool :=
  match f with Str s => negb (String.eqb s "") | _ => false end.

(** [a || b] on such values. *)
Definition or_field (a b : field) : field :=
  if truthy_field a then a else b.

Definition defined (f : field) : bool :=
  match f with Undefined => false | _ => true end.

(** The value inside a template literal. *)
Definition interpolate (f : field) : string :=
  match f with Undefined => "undefined" | Null => "null" | Str s => s end.

(** The property [key: f] of an object literal once serialised:
    [JSON.stringify] leaves out a property whose value is [undefined]. *)
Definition property (key : string) (f : field) : list (string * json) :=
  match f with
  | Undefined => []
  | Null => [(key, JNull)]
  | Str s => [(key, JStr s)]
  end.

(** A nullable string as such a value, and the SQL value the driver binds
    for one: [NULL] for [null]; [undefined] is never bound, see
    [World.execute]. *)
Definition of_nullable (s : option string) : field :=
  match s with Some s => Str s | None => Null end.

Definition bound (f : field) : option string :=
  match f with Str s => Some s | _ => None end.

(** Functions of the platform, not of this repository: Node's [crypto] MD5
    in hex, [JSON.stringify], [JSON.parse] ([None] for a [SyntaxError]), and
    the JavaScript value the database driver hands back for a JSON column
    holding a given text (the text itself as a string, or the parsed
    value). *)
Class Builtins := {
  md5_hex : string -> string;
  JSON_stringify : json -> string;
  JSON_parse : string -> option json;
  column_value : string -> json
}.

End JS.

(* ===================================================================== *)
(** * The world the route handlers run in *)
(* ===================================================================== *)

Module World.
Import JS.

(** The primary cluster behind [pool], or the branch reached at a host. *)
Inductive Store := Main | Branch (host : string).

(** A row of the [timelines] table (schema of the init route). *)
Record Row := {
  id : string;
  session_id : string;
  name : string;
  parent_timeline_id : option string;
  branch_id : option string;
  branch_host : option string;
  tree_data : string;
  branched_from_node : option string;
  created_at : string
}.

Definition set_tree_data (text : string) (r : Row) : Row :=
  {| id := id r; session_id := session_id r; name := name r;
     parent_timeline_id := parent_timeline_id r; branch_id := branch_id r;
     branch_host := branch_host r; tree_data := text;
     branched_from_node := branched_from_node r; created_at := created_at r |}.

(** The eight parameters of the [INSERT] statements; [created_at] is the
    column default.  [branchId] and [branchHost] are handed to the driver
    as the handler holds them, [undefined] included. *)
Record InsertValues := {
  v_id : string;
  v_session_id : string;
  v_name : string;
  v_parent_timeline_id : option string;
  v_branch_id : field;
  v_branch_host : field;
  v_tree_data : string;
  v_branched_from_node : option string
}.

Definition row_of (now : string) (v : InsertValues) : Row :=
  {| id := v_id v; session_id := v_session_id v; name := v_name v;
     parent_timeline_id := v_parent_timeline_id v; branch_id := bound (v_branch_id v);
     branch_host := bound (v_branch_host v); tree_data := v_tree_data v;
     branched_from_node := v_branched_from_node v; created_at := now |}.

(** What a handler asks of a store. *)
Inductive DbOp :=
| Connect
| Select (key : string)
| Update (key : string) (text : string)
| Insert (v : InsertValues)
| InsertOnDuplicateKeyUpdate (v : InsertValues)
| End_
| Release.

Record FetchRequest := {
  url : string;
  method : string;
  authorization : option string;
  body : option string
}.

(** The body of a control-plane answer as the routes read it:
    [data.branchId], [data.name] and [data.endpoints?.[0]?.host], each a
    string, [null], or [undefined] when the body does not hold it. *)
Record ControlBody := {
  cb_branchId : field;
  cb_name : field;
  cb_host : field
}.

Record FetchResponse := {
  status : Z;
  www_authenticate : option string;
  text : string;
  json_body : option ControlBody
}.

(** [response.ok] *)
Definition ok (r : FetchResponse) : bool := (200 <=? status r) && (status r <=? 299).

Inductive FetchReply := NetworkError | Reply (r : FetchResponse).

Inductive Event :=
| EvFetch (r : FetchRequest)
| EvDb (s : Store) (op : DbOp) (succeeded : bool).

(** The state of everything outside the handler: configuration, the two
    kinds of store, and what the environment will do during the request:
    which database calls throw ([fails]), what the control plane answers
    to the successive [fetch] calls, what [crypto.randomBytes] yields, the
    database clock.  [trace] records the calls made so far, oldest first. *)
Record World := {
  TIDB_CLOUD_PUBLIC_KEY : option string;
  TIDB_CLOUD_PRIVATE_KEY : option string;
  TIDB_CLOUD_CLUSTER_ID : option string;
  main : gmap string Row;
  branches : gmap string (gmap string Row);
  fails : Store -> DbOp -> bool;
  replies : list FetchReply;
  entropy : list string;
  now : string;
  trace : list Event
}.

Definition log (e : Event) (w : World) : World :=
  {| TIDB_CLOUD_PUBLIC_KEY := TIDB_CLOUD_PUBLIC_KEY w;
     TIDB_CLOUD_PRIVATE_KEY := TIDB_CLOUD_PRIVATE_KEY w;
     TIDB_CLOUD_CLUSTER_ID := TIDB_CLOUD_CLUSTER_ID w;
     main := main w; branches := branches w; fails := fails w;
     replies := replies w; entropy := entropy w; now := now w;
     trace := trace w ++ [e] |}.

Definition table_of (w : World) (s : Store) : option (gmap string Row) :=
  match s with
  | Main => Some (main w)
  | Branch host => branches w !! host
  end.

Definition set_table (s : Store) (t : gmap string Row) (w : World) : World :=
  {| TIDB_CLOUD_PUBLIC_KEY := TIDB_CLOUD_PUBLIC_KEY w;
     TIDB_CLOUD_PRIVATE_KEY := TIDB_CLOUD_PRIVATE_KEY w;
     TIDB_CLOUD_CLUSTER_ID := TIDB_CLOUD_CLUSTER_ID w;
     main := match s with Main => t | Branch _ => main w end;
     branches := match s with Main => branches w | Branch host => <[host := t]> (branches w) end;
     fails := fails w; replies := replies w; entropy := entropy w; now := now w;
     trace := trace w |}.

Definition set_replies (l : list FetchReply) (w : World) : World :=
  {| TIDB_CLOUD_PUBLIC_KEY := TIDB_CLOUD_PUBLIC_KEY w;
     TIDB_CLOUD_PRIVATE_KEY := TIDB_CLOUD_PRIVATE_KEY w;
     TIDB_CLOUD_CLUSTER_ID := TIDB_CLOUD_CLUSTER_ID w;
     main := main w; branches := branches w; fails := fails w;
     replies := l; entropy := entropy w; now := now w; trace := trace w |}.

Definition set_entropy (l : list string) (w : World) : World :=
  {| TIDB_CLOUD_PUBLIC_KEY := TIDB_CLOUD_PUBLIC_KEY w;
     TIDB_CLOUD_PRIVATE_KEY := TIDB_CLOUD_PRIVATE_KEY w;
     TIDB_CLOUD_CLUSTER_ID := TIDB_CLOUD_CLUSTER_ID w;
     main := main w; branches := branches w; fails := fails w;
     replies := replies w; entropy := l; now := now w; trace := trace w |}.

(** ** Statements on one table *)

(** The rows a statement returns and the table it leaves, or [None] when
    the store rejects it (a plain [INSERT] of an existing primary key).
    [id] is the primary key, so a [SELECT ... WHERE id = ?] returns at most
    one row and an [UPDATE ... WHERE id = ?] touches at most one. *)
Definition run_statement (now : string) (op : DbOp) (t : gmap string Row)
  : option (list Row * gmap string Row) :=
  match op with
  | Select key => Some (option_list (t !! key), t)
  | Update key text => Some ([], alter (set_tree_data text) key t)
  | Insert v =>
      match t !! v_id v with
      | Some _ => None
      | None => Some ([], <[v_id v := row_of now v]> t)
      end
  | InsertOnDuplicateKeyUpdate v =>
      match t !! v_id v with
      | Some old => Some ([], <[v_id v := set_tree_data (v_tree_data v) old]> t)
      | None => Some ([], <[v_id v := row_of now v]> t)
      end
  | Connect | End_ | Release => Some ([], t)
  end.

(** ** Handlers as state transformers that may throw *)

Inductive result (A : Type) :=
| Ok (a : A)
| Throw (error : string).
Arguments Ok {A} a.
Arguments Throw {A} error.

Definition M (A : Type) : Type := World -> result A * World.

Definition ret {A} (a : A) : M A := fun w => (Ok a, w).

Definition throw {A} (error : string) : M A := fun w => (Throw error, w).

Definition bind {A B} (m : M A) (k : A -> M B) : M B :=
  fun w => match m w with
           | (Ok a, w') => k a w'
           | (Throw e, w') => (Throw e, w')
           end.

(** [try { m } catch (e) { handler e }]: effects made before the throw
    stay. *)
Definition try_catch {A} (m : M A) (handler : string -> M A) : M A :=
  fun w => match m w with
           | (Ok a, w') => (Ok a, w')
           | (Throw e, w') => handler e w'
           end.

Declare Scope handler_scope.
Delimit Scope handler_scope with handler.
Notation "x <- m ;; k" := (bind m (fun x => k))
  (at level 100, m at next level, right associativity) : handler_scope.
Notation "m ;;; k" := (bind m (fun _ => k))
  (at level 100, right associativity) : handler_scope.

(** Opening a connection (for a branch this also reads the CA file): the
    call throws when the environment says so or no store answers at the
    host. *)
Definition connect (s : Store) : M unit :=
  fun w =>
    if fails w s Connect then (Throw "connect", log (EvDb s Connect false) w)
    else match table_of w s with
         | Some _ => (Ok tt, log (EvDb s Connect true) w)
         | None => (Throw "connect", log (EvDb s Connect false) w)
         end.

(** [pool.getConnection()] on the primary cluster and
    [getBranchConnection(branchHost)] on a branch. *)
Definition pool_getConnection : M unit := connect Main.

Definition getBranchConnection (branchHost : string) : M unit := connect (Branch branchHost).

(** Some parameter of the statement is [undefined]. *)
Definition binds_undefined (op : DbOp) : bool :=
  match op with
  | Insert v | InsertOnDuplicateKeyUpdate v =>
      negb (defined (v_branch_id v)) || negb (defined (v_branch_host v))
  | _ => false
  end.

(** [await connection.execute(sql, params)]: the driver throws on a
    parameter that is [undefined] before it sends the statement. *)
Definition execute (s : Store) (op : DbOp) : M (list Row) :=
  fun w =>
    if binds_undefined op
    then (Throw "Bind parameters must not contain undefined", log (EvDb s op false) w)
    else if fails w s op then (Throw "execute", log (EvDb s op false) w)
    else match table_of w s with
         | Some t =>
             match run_statement (now w) op t with
             | Some (rows, t') => (Ok rows, log (EvDb s op true) (set_table s t' w))
             | None => (Throw "execute", log (EvDb s op false) w)
             end
         | None => (Throw "execute", log (EvDb s op false) w)
         end.

(** [await branchConn.end()] *)
Definition end_ (s : Store) : M unit :=
  fun w =>
    if fails w s End_ then (Throw "end", log (EvDb s End_ false) w)
    else (Ok tt, log (EvDb s End_ true) w).

(** [connection.release()], synchronous. *)
Definition release : M unit :=
  fun w => (Ok tt, log (EvDb Main Release true) w).

(** [await fetch(url, init)]: the next answer of the control plane. *)
Definition fetch (r : FetchRequest) : M FetchResponse :=
  fun w =>
    match replies w with
    | Reply resp :: rest => (Ok resp, log (EvFetch r) (set_replies rest w))
    | NetworkError :: rest => (Throw "fetch failed", log (EvFetch r) (set_replies rest w))
    | [] => (Throw "fetch failed", log (EvFetch r) w)
    end.

(** [crypto.randomBytes(n).toString("hex")] *)
Definition randomBytes_hex : M string :=
  fun w =>
    match entropy w with
    | s :: rest => (Ok s, set_entropy rest w)
    | [] => (Ok "", w)
    end.

(** [await response.json()] and the reading of its properties, which
    throws on a body that is not JSON or is [null]. *)
Definition response_json (r : FetchResponse) : M ControlBody :=
  match json_body r with
  | Some b => ret b
  | None => throw "Unexpected token"
  end.

(** An HTTP answer of a route: [NextResponse.json(body, { status, headers })]. *)
Record Response := {
  r_status : Z;
  r_body : json;
  r_headers : list (string * string)
}.

Definition respond (status : Z) (body : json) : Response :=
  {| r_status := status; r_body := body; r_headers := [] |}.

Definition failure (status : Z) (message : string) : Response :=
  respond status (JObj [("success", JBool false); ("error", JStr message)]).

(** The events a run added to the trace. *)
Definition events_since (w w' : World) : list Event :=
  drop (length (trace w)) (trace w').

End World.

(* ===================================================================== *)
(** * Digest authentication against the control plane ([tidbCloudFetch]) *)
(* ===================================================================== *)

Module TidbCloud.
Import JS World.
Local Open Scope handler_scope.

Definition TIDB_API_BASE : string := "https://serverless.tidbapi.com".

(** The double-quote character, as a one-character string. *)
Definition dquote : string := String (Ascii.ascii_of_nat 34) EmptyString.

Definition quoted (s : string) : string := dquote ++ s ++ dquote.

(** [strip_prefix p s]: what follows [p] when [s] starts with it. *)
Fixpoint strip_prefix (p s : string) : option string :=
  match p with
  | EmptyString => Some s
  | String a p' =>
      match s with
      | String b s' => if Ascii.eqb a b then strip_prefix p' s' else None
      | EmptyString => None
      end
  end.

(** The longest prefix free of double quotes, and the rest. *)
Fixpoint span_unquoted (s : string) : string * string :=
  match s with
  | EmptyString => (EmptyString, EmptyString)
  | String c rest =>
      if Ascii.eqb c (Ascii.ascii_of_nat 34) then (EmptyString, s)
      else let (v, rest') := span_unquoted rest in (String c v, rest')
  end.

(** The pattern [key=Q([^Q]+)Q], Q the double quote, matched at the start
    of [s]: the greedy class takes every character up to the next quote,
    which must be there, and the group must not be empty. *)
Definition match_here (key s : string) : option string :=
  match strip_prefix (key ++ "=" ++ dquote) s with
  | Some rest =>
      match span_unquoted rest with
      | (EmptyString, _) => None
      | (v, String _ _) => Some v
      | (_, EmptyString) => None
      end
  | None => None
  end.

(** [s.match(/key=Q([^Q]+)Q/)?.[1]]: group 1 of the leftmost match. *)
Fixpoint match_group (key s : string) : option string :=
  match match_here key s with
  | Some v => Some v
  | None =>
      match s with
      | EmptyString => None
      | String _ s' => match_group key s'
      end
  end.

Definition getenv (var : World -> option string) : M (option string) :=
  fun w => (Ok (var w), w).

Section WithBuiltins.
Context {B : Builtins}.

(** [tidbCloudFetch(method, path, body)]; both copies in the sources are
    the same.  Every request carries the [Content-Type] header, left out of
    [FetchRequest]. *)
Definition tidbCloudFetch (method path : string) (body : option json) : M FetchResponse :=
  publicKey <- getenv TIDB_CLOUD_PUBLIC_KEY ;;
  privateKey <- getenv TIDB_CLOUD_PRIVATE_KEY ;;
  if negb (truthy_str publicKey) || negb (truthy_str privateKey)
  then throw "TiDB Cloud API keys not configured"
  else
    let publicKey := default "" publicKey in
    let privateKey := default "" privateKey in
    let url := TIDB_API_BASE ++ path in
    let payload := match body with
                   | Some b => if truthy b then Some (JSON_stringify b) else None
                   | None => None
                   end in
    initialResponse <- fetch {| url := url; method := method;
                                authorization := None; body := payload |} ;;
    if negb (status initialResponse =? 401) then ret initialResponse
    else
      let wwwAuth := www_authenticate initialResponse in
      if negb (truthy_str wwwAuth)
      then throw "No WWW-Authenticate header in response"
      else
        let wwwAuth := default "" wwwAuth in
        let realm := default "" (match_group "realm" wwwAuth) in
        let nonce := default "" (match_group "nonce" wwwAuth) in
        let qop := default "auth" (match_group "qop" wwwAuth) in
        let nc := "00000001" in
        cnonce <- randomBytes_hex ;;
        let ha1 := md5_hex (publicKey ++ ":" ++ realm ++ ":" ++ privateKey) in
        let uri := path in
        let ha2 := md5_hex (method ++ ":" ++ uri) in
        let response :=
          md5_hex (ha1 ++ ":" ++ nonce ++ ":" ++ nc ++ ":" ++ cnonce ++ ":" ++ qop ++ ":" ++ ha2) in
        let authHeader :=
          "Digest username=" ++ quoted publicKey ++ ", realm=" ++ quoted realm
          ++ ", nonce=" ++ quoted nonce ++ ", uri=" ++ quoted uri
          ++ ", qop=" ++ qop ++ ", nc=" ++ nc ++ ", cnonce=" ++ quoted cnonce
          ++ ", response=" ++ quoted response in
        fetch {| url := url; method := method;
                 authorization := Some authHeader; body := payload |}.

End WithBuiltins.

(** ** The handshake as the specification words it *)

Section Documented.
Context {B : Builtins}.

(** [HA1 = hash(username ":" realm ":" password)] *)
Definition documented_HA1 (username realm password : string) : string :=
  md5_hex (username ++ ":" ++ realm ++ ":" ++ password).

(** [HA2 = hash(method ":" requestURI)] *)
Definition documented_HA2 (method requestURI : string) : string :=
  md5_hex (method ++ ":" ++ requestURI).

(** [response = hash(HA1 ":" nonce ":" nonceCount ":" clientNonce ":" quality ":" HA2)] *)
Definition documented_response (username password realm nonce method requestURI
    nonceCount clientNonce quality : string) : string :=
  md5_hex (documented_HA1 username realm password ++ ":" ++ nonce ++ ":" ++ nonceCount
           ++ ":" ++ clientNonce ++ ":" ++ quality ++ ":"
           ++ documented_HA2 method requestURI).

End Documented.

(** The credential header: username, realm, nonce, request URI, quality,
    nonce-count, client nonce and response hash. *)
Definition credential_header (username realm nonce requestURI quality nonceCount
    clientNonce response : string) : string :=
  "Digest username=" ++ quoted username ++ ", realm=" ++ quoted realm
  ++ ", nonce=" ++ quoted nonce ++ ", uri=" ++ quoted requestURI
  ++ ", qop=" ++ quality ++ ", nc=" ++ nonceCount ++ ", cnonce=" ++ quoted clientNonce
  ++ ", response=" ++ quoted response.

(** The challenge header carries a token for [key]. *)
Definition has_token (key header : string) : bool :=
  match match_group key header with Some _ => true | None => false end.

End TidbCloud.

(* ===================================================================== *)
(** * The timelines collection route ([POST /api/timelines]) *)
(* ===================================================================== *)

Module Timelines.
Import JS World TidbCloud.
Local Open Scope handler_scope.

(** The request body as the handler destructures it; [createBranch] is
    only tested for truthiness. *)
Record PostBody := {
  sessionId : option string;
  name : option string;
  treeData : option json;
  parentTimelineId : option string;
  branchedFromNode : option string;
  createBranch : bool
}.

(** [await request.json()]: [None] is a body that is not JSON. *)
Definition request_json {A} (body : option A) : M A :=
  match body with
  | Some b => ret b
  | None => throw "Unexpected end of JSON input"
  end.

(** [crypto.randomBytes(length).toString("hex").slice(0, length)], with the
    default [length = 16]. *)
Definition generateId : M string :=
  hex <- randomBytes_hex ;;
  ret (String.substring 0 16 hex).

(** [s || null] *)
Definition or_null (s : option string) : option string :=
  if truthy_str s then s else None.

Section WithBuiltins.
Context {B : Builtins}.

(** The branch-creation block.  The handler assigns [branchId] and
    [branchHost], both [null] at first, as it goes and its [catch] keeps
    what was assigned before the throw; here each step that may throw
    carries the pair reached so far. *)
Definition create_branch (timelineId : string) : M (field * field) :=
  clusterId <- getenv TIDB_CLOUD_CLUSTER_ID ;;
  if truthy_str clusterId then
    let clusterId := default "" clusterId in
    try_catch
      (let branchName := "timeline-" ++ timelineId in
       branchResponse <- tidbCloudFetch "POST"
                           ("/v1beta1/clusters/" ++ clusterId ++ "/branches")
                           (Some (JObj [("displayName", JStr branchName)])) ;;
       if ok branchResponse then
         branchData <- response_json branchResponse ;;
         let branchId := or_field (cb_branchId branchData) (cb_name branchData) in
         try_catch
           (detailsResponse <- tidbCloudFetch "GET"
                                 ("/v1beta1/clusters/" ++ clusterId ++ "/branches/"
                                  ++ interpolate branchId)
                                 None ;;
            if ok detailsResponse then
              details <- response_json detailsResponse ;;
              ret (branchId, cb_host details)
            else ret (branchId, Null))
           (fun _ => ret (branchId, Null))
       else ret (Null, Null))
      (fun _ => ret (Null, Null))
  else ret (Null, Null).

Definition POST (request : option PostBody) : M Response :=
  try_catch
    (b <- request_json request ;;
     if negb (truthy_str (sessionId b)) || negb (truthy_str (name b))
        || negb (truthy_opt (treeData b))
     then ret (failure 400 "sessionId, name, and treeData are required")
     else
       timelineId <- generateId ;;
       created <- (if createBranch b then create_branch timelineId else ret (Null, Null)) ;;
       let branchId := fst created in
       let branchHost := snd created in
       let values :=
         {| v_id := timelineId;
            v_session_id := default "" (sessionId b);
            v_name := default "" (name b);
            v_parent_timeline_id := or_null (parentTimelineId b);
            v_branch_id := branchId;
            v_branch_host := branchHost;
            v_tree_data := JSON_stringify (default JNull (treeData b));
            v_branched_from_node := or_null (branchedFromNode b) |} in
       pool_getConnection ;;;
       execute Main (Insert values) ;;;
       release ;;;
       (if truthy_field branchHost then
          let host := default "" (bound branchHost) in
          try_catch
            (getBranchConnection host ;;;
             execute (Branch host) (InsertOnDuplicateKeyUpdate values) ;;;
             end_ (Branch host))
            (fun _ => ret tt)
        else ret tt) ;;;
       ret (respond 200
              (JObj [("success", JBool true);
                     ("timeline",
                      JObj ([("id", JStr timelineId);
                             ("name", JStr (default "" (name b)))]
                            ++ property "branchId" branchId
                            ++ property "branchHost" branchHost
                            ++ [("hasBranch", JBool (truthy_field branchId))]))])))
    (fun _ => ret (failure 500 "Failed to create timeline")).

End WithBuiltins.

End Timelines.

(* ===================================================================== *)
(** * The single-timeline route ([GET] and [PUT /api/timelines/:id]) *)
(* ===================================================================== *)

Module TimelineById.
Import JS World.
Local Open Scope handler_scope.

Record PutBody := { treeData : option json }.

Section WithBuiltins.
Context {B : Builtins}.

(** [typeof treeData === "string" ? JSON.parse(treeData) : treeData] *)
Definition parse_if_string (treeData : json) : M json :=
  match treeData with
  | JStr text =>
      match JSON_parse text with
      | Some v => ret v
      | None => throw "Unexpected token"
      end
  | v => ret v
  end.

Definition GET (id : string) : M Response :=
  try_catch
    (pool_getConnection ;;;
     rows <- execute Main (Select id) ;;
     release ;;;
     match rows with
     | [] => ret (failure 404 "Timeline not found")
     | timeline :: _ =>
         let treeData := column_value (tree_data timeline) in
         let source := "main" in
         read <- (if truthy_str (branch_host timeline) then
                    let host := default "" (branch_host timeline) in
                    try_catch
                      (getBranchConnection host ;;;
                       branchRows <- execute (Branch host) (Select id) ;;
                       end_ (Branch host) ;;;
                       match branchRows with
                       | branchTimeline :: _ =>
                           ret (column_value (tree_data branchTimeline), "branch")
                       | [] => ret (treeData, source)
                       end)
                      (fun _ => ret (treeData, source))
                  else ret (treeData, source)) ;;
         parsed <- parse_if_string (fst read) ;;
         ret (respond 200
                (JObj [("success", JBool true);
                       ("timeline",
                        JObj [("id", JStr (World.id timeline));
                              ("name", JStr (name timeline));
                              ("branchId", jopt (branch_id timeline));
                              ("branchHost", jopt (branch_host timeline));
                              ("treeData", parsed);
                              ("branchedFromNode", jopt (branched_from_node timeline));
                              ("createdAt", JStr (created_at timeline));
                              ("source", JStr (snd read))])]))
     end)
    (fun _ => ret (failure 500 "Failed to get timeline")).

Definition PUT (id : string) (request : option PutBody) : M Response :=
  try_catch
    (b <- Timelines.request_json request ;;
     if negb (truthy_opt (treeData b))
     then ret (failure 400 "treeData is required")
     else
       let text := JSON_stringify (default JNull (treeData b)) in
       pool_getConnection ;;;
       rows <- execute Main (Select id) ;;
       match rows with
       | [] =>
           release ;;;
           ret (failure 404 "Timeline not found")
       | timeline :: _ =>
           let branchHost := branch_host timeline in
           execute Main (Update id text) ;;;
           release ;;;
           writtenTo <- (if truthy_str branchHost then
                           let host := default "" branchHost in
                           try_catch
                             (getBranchConnection host ;;;
                              execute (Branch host) (Update id text) ;;;
                              end_ (Branch host) ;;;
                              ret "both")
                             (fun _ => ret "main-only")
                         else ret "main") ;;
           ret (respond 200
                  (JObj [("success", JBool true); ("writtenTo", JStr writtenTo)]))
       end)
    (fun _ => ret (failure 500 "Failed to update timeline")).

End WithBuiltins.

End TimelineById.

(* ===================================================================== *)
(** * Rate limiting ([src/lib/rateLimit.ts]) *)
(* ===================================================================== *)

Module RateLimit.

Definition RATE_LIMIT_DISABLED : bool := true.

Record RateLimitEntry := { count : Z; resetTime : Z }.

Record RateLimitConfig := { windowMs : Z; maxRequests : Z }.

Record RateLimitResult := { allowed : bool; remaining : Z; resetIn : Z }.

(** The default value of the [config] parameter. *)
Definition default_config : RateLimitConfig := {| windowMs := 60000; maxRequests := 10 |}.

(** The sweep: [rateLimitStore.delete(key)] for every entry whose window
    has passed. *)
Definition sweep (now : Z) (store : gmap string RateLimitEntry) : gmap string RateLimitEntry :=
  filter (fun kv => negb (resetTime (snd kv) <? now) = true) store.

(** [rateLimit(identifier, config)] on the module-level [rateLimitStore],
    passed in and out; [now] is [Date.now()] and [random] is
    [Math.random()], read only on the path that counts.  [entry] is the
    object held by the map, so [entry.count++] updates the map. *)
Definition rateLimit (identifier : string) (config : option RateLimitConfig)
    (now : Z) (random : Q) (rateLimitStore : gmap string RateLimitEntry)
  : RateLimitResult * gmap string RateLimitEntry :=
  let config := default default_config config in
  if RATE_LIMIT_DISABLED
  then ({| allowed := true; remaining := 999; resetIn := 0 |}, rateLimitStore)
  else
    let entry := rateLimitStore !! identifier in
    let store1 := if Qle_bool (1 # 100) random then rateLimitStore
                  else sweep now rateLimitStore in
    match entry with
    | Some e =>
        if resetTime e <? now
        then ({| allowed := true; remaining := maxRequests config - 1;
                 resetIn := windowMs config |},
              <[identifier := {| count := 1; resetTime := now + windowMs config |}]> store1)
        else if maxRequests config <=? count e
        then ({| allowed := false; remaining := 0; resetIn := resetTime e - now |}, store1)
        else ({| allowed := true; remaining := maxRequests config - (count e + 1);
                 resetIn := resetTime e - now |},
              <[identifier := {| count := count e + 1; resetTime := resetTime e |}]> store1)
    | None =>
        ({| allowed := true; remaining := maxRequests config - 1;
            resetIn := windowMs config |},
         <[identifier := {| count := 1; resetTime := now + windowMs config |}]> store1)
    end.

(** The two request headers [getClientIP] reads. *)
Record Headers := { x_forwarded_for : option string; x_real_ip : option string }.

(** Texts are held as the bytes of their UTF-8 encoding.  [code] is the
    value of a byte. *)
Definition code (c : Ascii.ascii) : nat := Ascii.nat_of_ascii c.

(** The white space and the line terminators of ECMAScript, which [trim]
    removes, by the length of their encoding: U+0009 to U+000D and U+0020
    in one byte; U+00A0 in two; U+1680, U+2000 to U+200A, U+2028, U+2029,
    U+202F, U+205F, U+3000 and U+FEFF in three. *)
Definition space1 (a : Ascii.ascii) : bool :=
  ((9 <=? code a)%nat && (code a <=? 13)%nat) || (code a =? 32)%nat.

Definition space2 (a b : Ascii.ascii) : bool :=
  (code a =? 194)%nat && (code b =? 160)%nat.

Definition space3 (a b c : Ascii.ascii) : bool :=
  ((code a =? 225)%nat && (code b =? 154)%nat && (code c =? 128)%nat)
  || ((code a =? 226)%nat && (code b =? 128)%nat
      && (((128 <=? code c)%nat && (code c <=? 138)%nat)
          || (code c =? 168)%nat || (code c =? 169)%nat || (code c =? 175)%nat))
  || ((code a =? 226)%nat && (code b =? 129)%nat && (code c =? 159)%nat)
  || ((code a =? 227)%nat && (code b =? 128)%nat && (code c =? 128)%nat)
  || ((code a =? 239)%nat && (code b =? 187)%nat && (code c =? 191)%nat).

(** [s] is white space only. *)
Fixpoint all_space (s : string) : bool :=
  match s with
  | EmptyString => true
  | String a rest =>
      if space1 a then all_space rest
      else match rest with
           | String b rest2 =>
               if space2 a b then all_space rest2
               else match rest2 with
                    | String c rest3 => space3 a b c && all_space rest3
                    | EmptyString => false
                    end
           | EmptyString => false
           end
  end.

(** [s] without the white space at its start. *)
Fixpoint trim_start (s : string) : string :=
  match s with
  | EmptyString => s
  | String a rest =>
      if space1 a then trim_start rest
      else match rest with
           | String b rest2 =>
               if space2 a b then trim_start rest2
               else match rest2 with
                    | String c rest3 => if space3 a b c then trim_start rest3 else s
                    | EmptyString => s
                    end
           | EmptyString => s
           end
  end.

(** [s] without the white space at its end: the longest end of [s] that
    is white space only goes. *)
Fixpoint trim_end (s : string) : string :=
  match s with
  | EmptyString => s
  | String a rest => if all_space s then EmptyString else String a (trim_end rest)
  end.

(** [s.trim()] *)
Definition trim (s : string) : string := trim_end (trim_start s).

Fixpoint reverse_onto (s acc : string) : string :=
  match s with
  | String c rest => reverse_onto rest (String c acc)
  | EmptyString => acc
  end.

Definition reverse (s : string) : string := reverse_onto s EmptyString.

(** [s.split(",")[0]] *)
Fixpoint before_comma (s : string) : string :=
  match s with
  | String c rest => if Ascii.eqb c (Ascii.ascii_of_nat 44) then EmptyString
                     else String c (before_comma rest)
  | EmptyString => EmptyString
  end.

Definition getClientIP (headers : Headers) : string :=
  if JS.truthy_str (x_forwarded_for headers)
  then trim (before_comma (default "" (x_forwarded_for headers)))
  else if JS.truthy_str (x_real_ip headers)
  then default "" (x_real_ip headers)
  else "unknown".

End RateLimit.

(* ===================================================================== *)
(** * The generate route ([POST /api/generate]) *)
(* ===================================================================== *)

Module Generate.
Import JS RateLimit.

Definition RATE_LIMIT_CONFIG : RateLimitConfig := {| windowMs := 60000; maxRequests := 5 |}.

Record NodeSummary := { title : string; description : string; timeframe : string }.

Record GenerateBody := {
  decision : option string;
  templateId : option string;
  branchFrom : option NodeSummary;
  mode : option string;
  journeyHistory : option (list NodeSummary);
  chosenNode : option NodeSummary
}.

Record Request := { headers : Headers; body : option GenerateBody }.

(** The four prompts the handler chooses from; their texts play no part
    here. *)
Inductive Prompt := exploreNextPrompt | explorePrompt | branchPrompt | systemPrompt.

Inductive ContentBlock := TextBlock (text : string) | OtherBlock.

Record Message := {
  content : list ContentBlock;
  input_tokens : Z;
  output_tokens : Z
}.

(** What the handler meets outside itself: the limiter's map, the clock
    and random source, and the model's answer to the request it sends
    ([None] when [anthropic.messages.create] throws). *)
Record Env := {
  rateLimitStore : gmap string RateLimitEntry;
  date_now : Z;
  math_random : Q;
  completion : Prompt -> option Message
}.

(** [Math.ceil(ms / 1000)] *)
Definition ceil_seconds (ms : Z) : Z := - ((- ms) / 1000).

Definition is_text (b : ContentBlock) : bool :=
  match b with TextBlock _ => true | OtherBlock => false end.

Definition starts_with (p s : string) : bool :=
  match TidbCloud.strip_prefix p s with Some _ => true | None => false end.

Definition ends_with (p s : string) : bool := starts_with (reverse p) (reverse s).

(** [s.slice(n)] and [s.slice(0, -n)] *)
Definition drop_start (n : nat) (s : string) : string :=
  String.substring n (String.length s - n) s.

Definition drop_end (n : nat) (s : string) : string :=
  String.substring 0 (String.length s - n) s.

Definition fence : string := "```".

(** The text of the answer without its Markdown fence. *)
Definition strip_fences (text : string) : string :=
  let jsonText := trim text in
  let jsonText := if starts_with (fence ++ "json") jsonText then drop_start 7 jsonText
                  else if starts_with fence jsonText then drop_start 3 jsonText
                  else jsonText in
  let jsonText := if ends_with fence jsonText then drop_end 3 jsonText else jsonText in
  trim jsonText.

Definition choose_prompt (b : GenerateBody) : Prompt :=
  let isExploreMode := match mode b with Some m => String.eqb m "explore" | None => false end in
  let isExploreNext :=
    isExploreMode
    && match journeyHistory b with Some (_ :: _) => true | _ => false end
    && match chosenNode b with Some _ => true | None => false end in
  let isBranching :=
    match branchFrom b with Some f => negb (String.eqb (title f) "") | None => false end
    && negb isExploreMode in
  if isExploreNext then exploreNextPrompt
  else if isExploreMode then explorePrompt
  else if isBranching then branchPrompt
  else systemPrompt.

Section WithBuiltins.
Context {B : Builtins}.

(** [POST]: the answer and the limiter's map afterwards.  Every [throw]
    inside the handler's [try] ends in the 500 answer of its [catch]. *)
Definition POST (request : Request) (env : Env)
  : World.Response * gmap string RateLimitEntry :=
  let clientIP := getClientIP (headers request) in
  let (rateLimitResult, store) :=
    rateLimit ("generate:" ++ clientIP) (Some RATE_LIMIT_CONFIG)
      (date_now env) (math_random env) (rateLimitStore env) in
  let failed := World.failure 500 "Failed to generate life paths" in
  if negb (allowed rateLimitResult)
  then ({| World.r_status := 429;
           World.r_body :=
             JObj [("success", JBool false);
                   ("error", JStr ("Rate limit exceeded. Try again in "
                                   ++ pretty (ceil_seconds (resetIn rateLimitResult))
                                   ++ " seconds."))];
           World.r_headers :=
             [("X-RateLimit-Remaining", "0");
              ("X-RateLimit-Reset", pretty (ceil_seconds (resetIn rateLimitResult)))] |},
        store)
  else
    match body request with
    | None => (failed, store)
    | Some b =>
        if negb (truthy_str (decision b))
        then (World.failure 400 "Decision is required", store)
        else
          match completion env (choose_prompt b) with
          | None => (failed, store)
          | Some message =>
              match List.find is_text (content message) with
              | Some (TextBlock text) =>
                  match JSON_parse (strip_fences text) with
                  | Some treeData =>
                      (World.respond 200
                         (JObj [("success", JBool true);
                                ("data", treeData);
                                ("usage",
                                 JObj [("input_tokens", JNum (input_tokens message));
                                       ("output_tokens", JNum (output_tokens message));
                                       ("total_tokens",
                                        JNum (input_tokens message + output_tokens message))])]),
                       store)
                  | None => (failed, store)
                  end
              | _ => (failed, store)
              end
          end
    end.

End WithBuiltins.

End Generate.

(* ===================================================================== *)
(** * The branches route ([POST], [GET] and [DELETE /api/branches]) *)
(* ===================================================================== *)

Module Branches.
Import JS World TidbCloud.
Local Open Scope handler_scope.

(** The request bodies as the handlers destructure them. *)
Record PostBody := { branchName : option string; parentTimestamp : option string }.

Record DeleteBody := { branchId : option string }.

(** [NextResponse.json(body, { status })] with a status taken from another
    response: the [Response] constructor throws a [RangeError] for a
    status outside 200..599 and a [TypeError] for a body together with a
    null-body status (204, 205, 304; 101 is already out of range). *)
Definition NextResponse_json (status : Z) (body : json) : M Response :=
  if (status <? 200) || (599 <? status) then throw "RangeError"
  else if (status =? 204) || (status =? 205) || (status =? 304) then throw "TypeError"
  else ret (respond status body).

(** [data.key] on a parsed JSON value: a [TypeError] on [null], the
    property of an object, [undefined] on anything else. *)
Definition get_property (data : json) (key : string) : M (option json) :=
  match data with
  | JNull => throw "TypeError"
  | JObj fields => ret (snd <$> List.find (fun kv => String.eqb (fst kv) key) fields)
  | _ => ret None
  end.

(** [v || []] *)
Definition or_empty_array (v : option json) : json :=
  match v with
  | Some v => if truthy v then v else JArr []
  | None => JArr []
  end.

(** The answer for a control-plane reply that is not ok. *)
Definition refused (what : string) (status : Z) : json :=
  JObj [("success", JBool false); ("error", JStr (what ++ pretty status))].

Section WithBuiltins.
Context {B : Builtins}.

(** [await response.json()] on the whole body. *)
Definition response_value (r : FetchResponse) : M json :=
  match JSON_parse (text r) with
  | Some v => ret v
  | None => throw "Unexpected token"
  end.

Definition POST (request : option PostBody) : M Response :=
  try_catch
    (b <- Timelines.request_json request ;;
     clusterId <- getenv TIDB_CLOUD_CLUSTER_ID ;;
     if negb (truthy_str clusterId)
     then ret (failure 500 "Cluster ID not configured")
     else if negb (truthy_str (branchName b))
     then ret (failure 400 "Branch name is required")
     else
       let clusterId := default "" clusterId in
       let payload :=
         JObj (("displayName", JStr (default "" (branchName b)))
               :: (if truthy_str (parentTimestamp b)
                   then [("parentTimestamp", JStr (default "" (parentTimestamp b)))]
                   else [])) in
       response <- tidbCloudFetch "POST" ("/v1beta1/clusters/" ++ clusterId ++ "/branches")
                     (Some payload) ;;
       if negb (ok response)
       then NextResponse_json (status response)
              (refused "Failed to create branch: " (status response))
       else
         data <- response_value response ;;
         ret (respond 200 (JObj [("success", JBool true); ("branch", data)])))
    (fun _ => ret (failure 500 "Failed to create branch")).

Definition GET : M Response :=
  try_catch
    (clusterId <- getenv TIDB_CLOUD_CLUSTER_ID ;;
     if negb (truthy_str clusterId)
     then ret (failure 500 "Cluster ID not configured")
     else
       let clusterId := default "" clusterId in
       response <- tidbCloudFetch "GET" ("/v1beta1/clusters/" ++ clusterId ++ "/branches")
                     None ;;
       if negb (ok response)
       then NextResponse_json (status response)
              (refused "Failed to list branches: " (status response))
       else
         data <- response_value response ;;
         branches <- get_property data "branches" ;;
         ret (respond 200 (JObj [("success", JBool true);
                                 ("branches", or_empty_array branches)])))
    (fun _ => ret (failure 500 "Failed to list branches")).

Definition DELETE (request : option DeleteBody) : M Response :=
  try_catch
    (b <- Timelines.request_json request ;;
     clusterId <- getenv TIDB_CLOUD_CLUSTER_ID ;;
     if negb (truthy_str clusterId)
     then ret (failure 500 "Cluster ID not configured")
     else if negb (truthy_str (branchId b))
     then ret (failure 400 "Branch ID is required")
     else
       let clusterId := default "" clusterId in
       response <- tidbCloudFetch "DELETE"
                     ("/v1beta1/clusters/" ++ clusterId ++ "/branches/"
                      ++ default "" (branchId b))
                     None ;;
       if negb (ok response)
       then NextResponse_json (status response)
              (refused "Failed to delete branch: " (status response))
       else
         ret (respond 200 (JObj [("success", JBool true);
                                 ("message", JStr "Branch deleted successfully")])))
    (fun _ => ret (failure 500 "Failed to delete branch")).

End WithBuiltins.

(** ** Vocabulary *)

(** A status the [Response] constructor accepts together with a body. *)
Definition presentable (status : Z) : bool :=
  (200 <=? status) && (status <=? 599)
  && negb ((status =? 204) || (status =? 205) || (status =? 304)).

(** The path of the branch collection of a cluster. *)
Definition collection (clusterId : string) : string :=
  "/v1beta1/clusters/" ++ clusterId ++ "/branches".

(** The path of one branch. *)
Definition member (clusterId branchId : string) : string :=
  "/v1beta1/clusters/" ++ clusterId ++ "/branches/" ++ branchId.

(** What the three routes answer to a reply that is not ok: the same
    status when a response can carry it, 500 otherwise. *)
Definition passed_on (what failed : string) (status : Z) : Response :=
  if presentable status then respond status (refused what status)
  else failure 500 failed.

(** The [branches] property of the listing, [undefined] when the listing
    is not an object. *)
Definition listed (data : json) : option json :=
  match data with
  | JObj fields => snd <$> List.find (fun kv => String.eqb (fst kv) "branches") fields
  | _ => None
  end.

(** The body [POST] sends to the control plane. *)
Definition creation (b : PostBody) : json :=
  JObj (("displayName", JStr (default "" (branchName b)))
        :: (if truthy_str (parentTimestamp b)
            then [("parentTimestamp", JStr (default "" (parentTimestamp b)))]
            else [])).

End Branches.

(* ===================================================================== *)
(** * Numbers ([Math.random()], [*], [Math.floor]) *)
(* ===================================================================== *)

Module Binary64.

(** A finite non-negative IEEE 754 binary64 number, [mantissa * 2^exponent]:
    every such number is of this form with [0 <= mantissa < 2^53] and
    [-1074 <= exponent <= 971]. *)
Record number := { mantissa : Z; exponent : Z }.

Definition representable (x : number) : Prop :=
  0 <= mantissa x < 2 ^ 53 /\ -1074 <= exponent x <= 971.

(** The number is less than one. *)
Definition below_one (x : number) : Prop :=
  mantissa x = 0 \/ (exponent x < 0 /\ mantissa x < 2 ^ (- exponent x)).

(** An integer below [2^53] is a number as it stands. *)
Definition of_nat (n : nat) : number := {| mantissa := Z.of_nat n; exponent := 0 |}.

(** The number nearest to [m * 2^e] for [0 <= m], ties to the even
    mantissa: the [s] low bits of [m] are dropped, as many as leave 53 bits
    and an exponent of -1074 at least.  A result of [2^1024] or more, an
    infinity in binary64, is not told apart. *)
Definition round (m e : Z) : number :=
  let s := Z.max (Z.log2 m - 52) (-1074 - e) in
  if s <=? 0 then {| mantissa := m; exponent := e |}
  else
    let q := m / 2 ^ s in
    let r := m mod 2 ^ s in
    let half := 2 ^ (s - 1) in
    let up := (half <? r) || ((r =? half) && Z.odd q) in
    {| mantissa := (if up then q + 1 else q); exponent := e + s |}.

(** [x * y]: the exact product, rounded. *)
Definition mul (x y : number) : number :=
  round (mantissa x * mantissa y) (exponent x + exponent y).

(** [Math.floor(x)] *)
Definition floor (x : number) : Z :=
  if 0 <=? exponent x then mantissa x * 2 ^ exponent x
  else mantissa x / 2 ^ (- exponent x).

End Binary64.

(* ===================================================================== *)
(** * The shared trees ([POST /api/trees], [GET /api/trees/:id]) *)
(* ===================================================================== *)

Module Trees.
Import JS.

(** A row of the [trees] table (schema of the init route). *)
Record TreeRow := {
  id : string;
  decision : string;
  tree_data : string;
  created_at : string
}.

(** What the two handlers ask of the primary cluster. *)
Inductive Call :=
| GetConnection
| SelectTree (key : string)
| InsertTree (key decision tree_data : string)
| Release.

(** The table, the calls that throw, the successive values of
    [Math.random()] and how many were drawn, the database clock, and the
    calls made so far. *)
Record Db := {
  trees : gmap string TreeRow;
  refuses : Call -> bool;
  random : nat -> Binary64.number;
  drawn : nat;
  clock : string;
  calls : list (Call * bool)
}.

Definition logged (c : Call) (succeeded : bool) (t : gmap string TreeRow) (db : Db) : Db :=
  {| trees := t; refuses := refuses db; random := random db; drawn := drawn db;
     clock := clock db; calls := calls db ++ [(c, succeeded)] |}.

(** Handlers as state transformers that may throw. *)
Definition M (A : Type) : Type := Db -> World.result A * Db.

Definition ret {A} (a : A) : M A := fun db => (World.Ok a, db).

Definition throw {A} (error : string) : M A := fun db => (World.Throw error, db).

Definition bind {A C} (m : M A) (k : A -> M C) : M C :=
  fun db => match m db with
            | (World.Ok a, db') => k a db'
            | (World.Throw e, db') => (World.Throw e, db')
            end.

Definition try_catch {A} (m : M A) (handler : string -> M A) : M A :=
  fun db => match m db with
            | (World.Ok a, db') => (World.Ok a, db')
            | (World.Throw e, db') => handler e db'
            end.

Declare Scope trees_scope.
Delimit Scope trees_scope with trees.
Notation "x <- m ;; k" := (bind m (fun x => k))
  (at level 100, m at next level, right associativity) : trees_scope.
Notation "m ;;; k" := (bind m (fun _ => k))
  (at level 100, right associativity) : trees_scope.
Local Open Scope trees_scope.

(** [await pool.getConnection()] *)
Definition getConnection : M unit :=
  fun db =>
    if refuses db GetConnection
    then (World.Throw "connect", logged GetConnection false (trees db) db)
    else (World.Ok tt, logged GetConnection true (trees db) db).

(** [await connection.execute(sql, params)]; [id] is the primary key, so a
    second insert of the same id is refused. *)
Definition execute (c : Call) : M (list TreeRow) :=
  fun db =>
    if refuses db c then (World.Throw "execute", logged c false (trees db) db)
    else match c with
         | SelectTree key => (World.Ok (option_list (trees db !! key)), logged c true (trees db) db)
         | InsertTree key decision text =>
             match trees db !! key with
             | Some _ => (World.Throw "ER_DUP_ENTRY", logged c false (trees db) db)
             | None =>
                 (World.Ok [],
                  logged c true
                    (<[key := {| id := key; decision := decision; tree_data := text;
                                 created_at := clock db |}]> (trees db)) db)
             end
         | GetConnection | Release => (World.Ok [], logged c true (trees db) db)
         end.

(** [connection.release()] *)
Definition release : M unit :=
  fun db => (World.Ok tt, logged Release true (trees db) db).

(** [Math.random()] *)
Definition Math_random : M Binary64.number :=
  fun db =>
    (World.Ok (random db (drawn db)),
     {| trees := trees db; refuses := refuses db; random := random db;
        drawn := S (drawn db); clock := clock db; calls := calls db |}).

Definition chars : string :=
  "abcdefghijklmnopqrstuvwxyzABCDEFGHIJKLMNOPQRSTUVWXYZ0123456789".

(** [s.charAt(i)]: the empty string outside the string. *)
Definition charAt (s : string) (i : Z) : string :=
  if i <? 0 then ""
  else match String.get (Z.to_nat i) s with
       | Some c => String c ""
       | None => ""
       end.

(** The [for] loop of [generateId], [n] iterations to go. *)
Fixpoint generateId_loop (n : nat) (result : string) : M string :=
  match n with
  | O => ret result
  | S n' =>
      r <- Math_random ;;
      generateId_loop n'
        (result
         ++ charAt chars
              (Binary64.floor (Binary64.mul r (Binary64.of_nat (String.length chars)))))
  end.

(** [generateId()], with the default [length = 8]. *)
Definition generateId : M string := generateId_loop 8 "".

Record PostBody := { p_decision : option string; p_tree_data : option json }.

Definition request_json {A} (body : option A) : M A :=
  match body with
  | Some b => ret b
  | None => throw "Unexpected end of JSON input"
  end.

Section WithBuiltins.
Context {B : Builtins}.

(** [typeof tree.tree_data === "string" ? JSON.parse(tree.tree_data) : tree.tree_data] *)
Definition parse_if_string (treeData : json) : M json :=
  match treeData with
  | JStr text =>
      match JSON_parse text with
      | Some v => ret v
      | None => throw "Unexpected token"
      end
  | v => ret v
  end.

Definition POST (request : option PostBody) : M World.Response :=
  try_catch
    (body <- request_json request ;;
     if negb (truthy_str (p_decision body)) || negb (truthy_opt (p_tree_data body))
     then ret (World.failure 400 "Missing decision or tree_data")
     else
       id <- generateId ;;
       getConnection ;;;
       execute (InsertTree id (default "" (p_decision body))
                  (JSON_stringify (default JNull (p_tree_data body)))) ;;;
       release ;;;
       ret (World.respond 200 (JObj [("success", JBool true); ("id", JStr id)])))
    (fun _ => ret (World.failure 500 "Failed to save tree")).

Definition GET (key : string) : M World.Response :=
  try_catch
    (getConnection ;;;
     rows <- execute (SelectTree key) ;;
     release ;;;
     match rows with
     | [] => ret (World.failure 404 "Tree not found")
     | tree :: _ =>
         parsed <- parse_if_string (column_value (tree_data tree)) ;;
         ret (World.respond 200
                (JObj [("success", JBool true);
                       ("data",
                        JObj [("id", JStr (id tree));
                              ("decision", JStr (decision tree));
                              ("tree_data", parsed);
                              ("created_at", JStr (created_at tree))])]))
     end)
    (fun _ => ret (World.failure 500 "Failed to fetch tree")).

End WithBuiltins.

(** ** Vocabulary *)

(** Every character of [s] is one of [chars]. *)
Fixpoint alphanumeric (s : string) : bool :=
  match s with
  | EmptyString => true
  | String c rest =>
      match String.index 0 (String c "") chars with
      | Some _ => alphanumeric rest
      | None => false
      end
  end.

(** The id the next creation draws. *)
Definition next_id (db : Db) : string :=
  match generateId db with
  | (World.Ok i, _) => i
  | (World.Throw _, _) => ""
  end.

(** The values of [Math.random()] are binary64 numbers in [0, 1). *)
Definition unit_interval (db : Db) : Prop :=
  forall n, Binary64.representable (random db n) /\ Binary64.below_one (random db n).

(** A run that leaves the table, the failure plan, the random source, the
    clock and the log as they were. *)
Record same_table (db db' : Db) : Prop := {
  same_trees : trees db' = trees db;
  same_refuses : refuses db' = refuses db;
  same_random : random db' = random db;
  same_clock : clock db' = clock db;
  same_calls : calls db' = calls db
}.

(** The row a creation stores. *)
Definition stored {B : Builtins} (db : Db) (b : PostBody) : TreeRow :=
  {| id := next_id db; decision := default "" (p_decision b);
     tree_data := JSON_stringify (default JNull (p_tree_data b));
     created_at := clock db |}.

(** The answer of [GET] for a stored tree. *)
Definition shared (tree : TreeRow) (payload : json) : World.Response :=
  World.respond 200
    (JObj [("success", JBool true);
           ("data",
            JObj [("id", JStr (id tree));
                  ("decision", JStr (decision tree));
                  ("tree_data", payload);
                  ("created_at", JStr (created_at tree))])]).

End Trees.

(* ===================================================================== *)
(** * From a tree to a drawing ([treeToFlow], [treeToFlowWithBranchInfo],
      [treeToGraph]) and the path count of the share page *)
(* ===================================================================== *)

Module Flow.
Import LifeTree JS.

Record Position := { x : Z; y : Z }.

Record Style := { stroke : string; strokeWidth : Z }.

(** A ReactFlow node carrying [data]. *)
Record FlowNode (D : Type) := {
  n_id : string;
  n_type : string;
  position : Position;
  data : D
}.
Arguments n_id {D} _.
Arguments n_type {D} _.
Arguments position {D} _.
Arguments data {D} _.

(** A ReactFlow edge; [animated] is set by the branch-aware conversion
    only. *)
Record Edge := {
  e_id : string;
  source : string;
  target : string;
  style : Style;
  animated : option bool
}.

(** [{ ...node, isBranchPoint, isAlternative }] *)
Record BranchNodeData := {
  node : LifeNodeData;
  isBranchPoint : bool;
  isAlternative : bool
}.

(** [treeToFlow(node, parentId)]: [parentId] is [None] when the argument
    is left out; [if (parentId)] also fails on the empty string.  The
    [forEach] over the children appends each child's nodes and edges. *)
Fixpoint treeToFlow (node : LifeNodeData) (parentId : option string)
  : list (FlowNode LifeNodeData) * list Edge :=
  let nodes := [ {| n_id := id node; n_type := "lifeNode";
                    position := {| x := 0; y := 0 |}; data := node |} ] in
  let edges :=
    if truthy_str parentId then
      let parentId := default "" parentId in
      [ {| e_id := parentId ++ "-" ++ id node; source := parentId; target := id node;
           style := {| stroke := "#a1a1aa"; strokeWidth := 2 |}; animated := None |} ]
    else [] in
  match children node with
  | Some cs =>
      (fix forEach (cs : list LifeNodeData) (nodes : list (FlowNode LifeNodeData))
           (edges : list Edge) : list (FlowNode LifeNodeData) * list Edge :=
         match cs with
         | [] => (nodes, edges)
         | child :: rest =>
             let childFlow := treeToFlow child (Some (id node)) in
             forEach rest (nodes ++ fst childFlow)%list (edges ++ snd childFlow)%list
         end) cs nodes edges
  | None => (nodes, edges)
  end.

(** [parentId === alternativeFromId] on two strings that may be
    [undefined]. *)
Definition strict_eq (a b : option string) : bool := bool_decide (a = b).

(** [treeToFlowWithBranchInfo(node, parentId, branchPointIds,
    alternativeFromId, inAlternativeSubtree)]; a left-out
    [inAlternativeSubtree] is [undefined], which [||] treats as [false]. *)
Fixpoint treeToFlowWithBranchInfo (node : LifeNodeData) (parentId : option string)
    (branchPointIds : option (gset string)) (alternativeFromId : option string)
    (inAlternativeSubtree : bool) : list (FlowNode BranchNodeData) * list Edge :=
  let isBranchPoint :=
    match branchPointIds with
    | Some s => bool_decide (id node ∈ s)
    | None => false
    end in
  let isChildOfBranchPoint := strict_eq parentId alternativeFromId in
  let isInAlternativeSubtree := inAlternativeSubtree || isChildOfBranchPoint in
  let nodes := [ {| n_id := id node; n_type := "lifeNode";
                    position := {| x := 0; y := 0 |};
                    data := {| node := node; isBranchPoint := isBranchPoint;
                               isAlternative := isInAlternativeSubtree |} |} ] in
  let edges :=
    if truthy_str parentId then
      let parentId := default "" parentId in
      [ {| e_id := parentId ++ "-" ++ id node; source := parentId; target := id node;
           style := {| stroke := if isInAlternativeSubtree then "#9333ea" else "#a1a1aa";
                       strokeWidth := 2 |};
           animated := Some isInAlternativeSubtree |} ]
    else [] in
  match children node with
  | Some cs =>
      (fix forEach (cs : list LifeNodeData) (nodes : list (FlowNode BranchNodeData))
           (edges : list Edge) : list (FlowNode BranchNodeData) * list Edge :=
         match cs with
         | [] => (nodes, edges)
         | child :: rest =>
             let childFlow :=
               treeToFlowWithBranchInfo child (Some (id node)) branchPointIds
                 alternativeFromId isInAlternativeSubtree in
             forEach rest (nodes ++ fst childFlow)%list (edges ++ snd childFlow)%list
         end) cs nodes edges
  | None => (nodes, edges)
  end.

(** ** The 3D graph *)

Record GraphNode := {
  g_id : string;
  g_name : string;
  g_description : string;
  g_timeframe : TimeFrame;
  g_sentiment : Sentiment;
  g_probability : option Z;
  val : Z;
  color : string
}.

Record GraphLink := { l_source : string; l_target : string; l_color : string }.

Definition sentimentColors (s : Sentiment) : string :=
  match s with
  | positive => "#00ff88"
  | neutral => "#6366f1"
  | negative => "#ff4444"
  end.

(** [a || b] on two strings. *)
Definition or_else (a b : string) : string := if String.eqb a "" then b else a.

(** [treeToGraph(node, parentId)] *)
Fixpoint treeToGraph (node : LifeNodeData) (parentId : option string)
  : list GraphNode * list GraphLink :=
  let isRoot := negb (truthy_str parentId) in
  let nodeSize := if isRoot then 20 else 10 in
  let nodes := [ {| g_id := id node; g_name := title node; g_description := description node;
                    g_timeframe := timeframe node; g_sentiment := sentiment node;
                    g_probability := probability node; val := nodeSize;
                    color := or_else (sentimentColors (sentiment node))
                               (sentimentColors neutral) |} ] in
  let links :=
    if truthy_str parentId then
      [ {| l_source := default "" parentId; l_target := id node;
           l_color := or_else (sentimentColors (sentiment node)) "#666" |} ]
    else [] in
  match children node with
  | Some cs =>
      (fix forEach (cs : list LifeNodeData) (nodes : list GraphNode)
           (links : list GraphLink) : list GraphNode * list GraphLink :=
         match cs with
         | [] => (nodes, links)
         | child :: rest =>
             let childGraph := treeToGraph child (Some (id node)) in
             forEach rest (nodes ++ fst childGraph)%list (links ++ snd childGraph)%list
         end) cs nodes links
  | None => (nodes, links)
  end.

(** [countPaths(node)] of the share page: [reduce] from 0 over the
    children, 1 for a node without children. *)
Fixpoint countPaths (node : LifeNodeData) : Z :=
  match children node with
  | None | Some [] => 1
  | Some cs => fold_left (fun sum child => sum + countPaths child) cs 0
  end.

(** ** Vocabulary *)

(** A node without children: a leaf of the tree. *)
Definition is_leaf (node : LifeNodeData) : bool :=
  match children node with
  | None | Some [] => true
  | Some (_ :: _) => false
  end.

(** The children of a node, none when the property is absent. *)
Definition the_children (node : LifeNodeData) : list LifeNodeData :=
  match children node with Some cs => cs | None => [] end.

(** A parent id under which [if (parentId)] draws an edge. *)
Definition drawn (link : string * string) : bool := negb (String.eqb (fst link) "").

(** The two ends of an edge. *)
Definition pair_of (e : Edge) : string * string := (source e, target e).

Definition link_of (l : GraphLink) : string * string := (l_source l, l_target l).

(** The tree node a drawn node stands for, and whether it is drawn as part
    of the alternative. *)
Definition shown (n : FlowNode BranchNodeData) : LifeNodeData := node (data n).

Definition highlighted (n : FlowNode BranchNodeData) : bool := isAlternative (data n).

(** The nodes strictly below a node. *)
Definition below (node : LifeNodeData) : list LifeNodeData :=
  match children node with
  | Some cs => List.flat_map preorder cs
  | None => []
  end.

(** The (parent id, child id) pairs of a tree, in the document order of
    the children. *)
Fixpoint links (node : LifeNodeData) : list (string * string) :=
  match children node with
  | Some cs => List.flat_map (fun child => (id node, id child) :: links child) cs
  | None => []
  end.

End Flow.

(* ===================================================================== *)
(** * Vocabulary of the statements *)
(* ===================================================================== *)

Module Contract.
Import JS World.

(** The calls a run made on branch stores, in order. *)
Definition on_branch (e : Event) : bool :=
  match e with
  | EvDb (Branch _) _ _ => true
  | _ => false
  end.

Definition branch_calls (evs : list Event) : list Event := List.filter on_branch evs.

(** The statements that write a row. *)
Definition is_write (op : DbOp) : bool :=
  match op with
  | Update _ _ | Insert _ | InsertOnDuplicateKeyUpdate _ => true
  | _ => false
  end.

(** A record has a stored branch endpoint: [branch_host] is a non-empty
    string. *)
Definition endpoint_stored (r : Row) (host : string) : Prop :=
  branch_host r = Some host /\ host <> "".

(** The answer of [PUT] on success. *)
Definition written (tag : string) : Response :=
  respond 200 (JObj [("success", JBool true); ("writtenTo", JStr tag)]).

(** The answer of [GET] on success. *)
Definition fetched (timeline : Row) (payload : json) (source : string) : Response :=
  respond 200
    (JObj [("success", JBool true);
           ("timeline",
            JObj [("id", JStr (World.id timeline));
                  ("name", JStr (name timeline));
                  ("branchId", jopt (branch_id timeline));
                  ("branchHost", jopt (branch_host timeline));
                  ("treeData", payload);
                  ("branchedFromNode", jopt (branched_from_node timeline));
                  ("createdAt", JStr (created_at timeline));
                  ("source", JStr source)])]).

(** The primary read of a [GET] goes through. *)
Definition primary_read_ok (w : World) (key : string) : Prop :=
  fails w Main Connect = false /\ fails w Main (Select key) = false.

(** The three calls of a branch read all go through. *)
Definition branch_read_ok (w : World) (host key : string) : bool :=
  negb (fails w (Branch host) Connect)
  && bool_decide (is_Some (branches w !! host))
  && negb (fails w (Branch host) (Select key))
  && negb (fails w (Branch host) End_).

(** The payload of a row as the handler hands it out: [None] when the
    driver yields a string that [JSON.parse] rejects. *)
Definition payload_of {B : Builtins} (r : Row) : option json :=
  match column_value (tree_data r) with
  | JStr text => JSON_parse text
  | v => Some v
  end.

(** "Insert, or if the key already exists, overwrite the payload column
    only", in the words of the specification. *)
Definition documented_upsert (now : string) (v : InsertValues) (t : gmap string Row)
  : gmap string Row :=
  match t !! v_id v with
  | Some existing => <[v_id v := set_tree_data (v_tree_data v) existing]> t
  | None => <[v_id v := row_of now v]> t
  end.

(** The branch-side write of a run: the connection, then the one
    statement [op] when the connection stands, then [end()] when the
    statement went through; a failed call is the last one. *)
Definition branch_write (host : string) (op : DbOp) (calls : list Event) : Prop :=
  calls = [EvDb (Branch host) Connect false] \/
  calls = [EvDb (Branch host) Connect true; EvDb (Branch host) op false] \/
  exists closed,
    calls = [EvDb (Branch host) Connect true; EvDb (Branch host) op true;
             EvDb (Branch host) End_ closed].

Definition is_fetch (e : Event) : bool :=
  match e with EvFetch _ => true | EvDb _ _ _ => false end.





(** A run that leaves the stores, the failure plan, the clock and the
    cluster id as they were, and one that only talks to the control plane. *)
Record same_stores (w w' : World) : Prop := {
  same_fails : fails w' = fails w;
  same_main : main w' = main w;
  same_branches : branches w' = branches w;
  same_now : now w' = now w;
  same_cluster : TIDB_CLOUD_CLUSTER_ID w' = TIDB_CLOUD_CLUSTER_ID w
}.

Definition only_fetches (w w' : World) : Prop :=
  exists fetches,
    trace w' = (trace w ++ fetches)%list /\ Forall (fun e => is_fetch e = true) fetches.

(** The authenticated retry the specification describes: the credential
    header built from the documented response hash, nonce-count
    [00000001]. *)
Definition second_request {B : Builtins} (method path : string) (payload : option string)
    (username password realm nonce quality clientNonce : string) : FetchRequest :=
  {| url := TidbCloud.TIDB_API_BASE ++ path; method := method;
     authorization :=
       Some (TidbCloud.credential_header username realm nonce path quality "00000001"
               clientNonce
               (TidbCloud.documented_response username password realm nonce method path
                  "00000001" clientNonce quality));
     body := payload |}.

(** Two rows that agree on every column but the payload. *)
Definition same_but_payload (r r' : Row) : Prop :=
  World.id r' = World.id r /\ session_id r' = session_id r /\ name r' = name r /\
  parent_timeline_id r' = parent_timeline_id r /\ branch_id r' = branch_id r /\
  branch_host r' = branch_host r /\ branched_from_node r' = branched_from_node r /\
  created_at r' = created_at r.

End Contract.

(* ===================================================================== *)
(** * Vocabulary of the further properties *)
(* ===================================================================== *)

Module Behaviour.
Import JS World.

(** The platform reads the stored text [text] back as the value [p]. *)
Definition decodes {B : Builtins} (text : string) (p : json) : Prop :=
  match column_value text with
  | JStr t => JSON_parse t = Some p
  | v => v = p
  end.

(** The calls a run made on the primary store, and the statuses a handler
    answers with. *)
Definition primary_failed (evs : list Event) : Prop :=
  exists op, In (EvDb Main op false) evs.

Definition released (evs : list Event) : Prop := In (EvDb Main Release true) evs.


(** Between two states of a table, only the payload of the row [id] may
    differ: no row is added or removed and every other column stays. *)
Definition payload_update (id : string) (t t' : gmap string Row) : Prop :=
  forall key,
    t' !! key = t !! key \/
    (key = id /\ exists row text, t !! key = Some row /\ t' !! key = Some (set_tree_data text row)).

(** The same for every store of two worlds: the branch hosts are the same
    and each table is related. *)
Definition stores_related (R : gmap string Row -> gmap string Row -> Prop) (w w' : World) : Prop :=
  R (main w) (main w') /\
  forall host,
    match branches w !! host, branches w' !! host with
    | Some t, Some t' => R t t'
    | None, None => True
    | _, _ => False
    end.

(** The statuses a handler answers with. *)
Definition answers (statuses : list Z) (r : result Response) : Prop :=
  exists resp, r = Ok resp /\ In (r_status resp) statuses.

(** No statement of the run wrote a row. *)
Definition no_write (evs : list Event) : Prop :=
  forall s op succeeded, In (EvDb s op succeeded) evs -> Contract.is_write op = false.

(** The id a creation draws, and the values it binds, given what the
    branch creation yielded. *)
Definition drawn_id (w : World) : string := String.substring 0 16 (hd "" (entropy w)).

Definition created_values {B : Builtins} (w : World) (b : Timelines.PostBody)
    (branchId branchHost : option string) : InsertValues :=
  {| v_id := drawn_id w;
     v_session_id := default "" (Timelines.sessionId b);
     v_name := default "" (Timelines.name b);
     v_parent_timeline_id := Timelines.or_null (Timelines.parentTimelineId b);
     v_branch_id := of_nullable branchId;
     v_branch_host := of_nullable branchHost;
     v_tree_data := JSON_stringify (default JNull (Timelines.treeData b));
     v_branched_from_node := Timelines.or_null (Timelines.branchedFromNode b) |}.

(** The answer of [POST] on success. *)
Definition created (w : World) (b : Timelines.PostBody) (branchId branchHost : option string)
  : Response :=
  respond 200
    (JObj [("success", JBool true);
           ("timeline",
            JObj [("id", JStr (drawn_id w));
                  ("name", JStr (default "" (Timelines.name b)));
                  ("branchId", jopt branchId);
                  ("branchHost", jopt branchHost);
                  ("hasBranch", JBool (truthy_str branchId))])]).

(** What the branch-creation block of a creation yields for [branchId]
    and [branchHost]: it runs once the id is drawn, when a branch is asked
    for. *)
Definition branch_block {B : Builtins} (w : World) (b : Timelines.PostBody)
  : result (field * field) :=
  fst ((if Timelines.createBranch b then Timelines.create_branch (drawn_id w)
        else ret (Null, Null))
         (snd (Timelines.generateId w))).

(** A request body [POST] accepts. *)
Definition valid (b : Timelines.PostBody) : Prop :=
  truthy_str (Timelines.sessionId b) = true /\ truthy_str (Timelines.name b) = true /\
  truthy_opt (Timelines.treeData b) = true.

(** ** The control-plane call *)

(** The text [tidbCloudFetch] sends as the request body. *)
Definition serialized {B : Builtins} (body : option json) : option string :=
  match body with
  | Some b => if truthy b then Some (JSON_stringify b) else None
  | None => None
  end.

(** The request [tidbCloudFetch] sends, without or with credentials. *)
Definition control_request {B : Builtins} (method path : string) (body : option json)
    (credentials : option string) : FetchRequest :=
  {| url := TidbCloud.TIDB_API_BASE ++ path; method := method;
     authorization := credentials; World.body := serialized body |}.

(** Both API keys are set and non-empty. *)
Definition keys_configured (w : World) : bool :=
  truthy_str (TIDB_CLOUD_PUBLIC_KEY w) && truthy_str (TIDB_CLOUD_PRIVATE_KEY w).

(** ** Texts *)

(** The character [c] does not occur in [s]. *)
Fixpoint free_of (c : Ascii.ascii) (s : string) : bool :=
  match s with
  | EmptyString => true
  | String a rest => negb (Ascii.eqb a c) && free_of c rest
  end.

(** The byte is one of those that follow the first byte of an encoding. *)
Definition continuation (c : Ascii.ascii) : bool :=
  (128 <=? RateLimit.code c)%nat && (RateLimit.code c <=? 191)%nat.

(** The byte is a character of its own and no white space. *)
Definition plain (c : Ascii.ascii) : bool :=
  (RateLimit.code c <? 128)%nat && negb (RateLimit.space1 c).

(** [s] does not begin inside an encoding. *)
Definition starts_clean (s : string) : bool :=
  match s with
  | String c _ => negb (continuation c)
  | EmptyString => true
  end.

(** [header] carries the token [key=Q value Q], Q the double quote, with a
    non-empty value free of double quotes. *)
Definition carries (key value header : string) : Prop :=
  value <> "" /\ free_of (Ascii.ascii_of_nat 34) value = true /\
  exists before after,
    header = before ++ key ++ "=" ++ TidbCloud.quoted value ++ after.

End Behaviour.

(* ===================================================================== *)
(** * Example inputs *)
(* ===================================================================== *)

Module Examples.
Import JS World.

(** A compact printer in the manner of [JSON.stringify], for strings that
    need no escaping. *)
Fixpoint print_json (v : json) : string :=
  match v with
  | JNull => "null"
  | JBool true => "true"
  | JBool false => "false"
  | JNum n => pretty n
  | JStr s => TidbCloud.quoted s
  | JArr items =>
      "[" ++ (fix elements (l : list json) : string :=
                match l with
                | [] => ""
                | x :: rest =>
                    print_json x ++ match rest with [] => "" | _ => "," ++ elements rest end
                end) items ++ "]"
  | JObj fields =>
      "{" ++ (fix members (l : list (string * json)) : string :=
                match l with
                | [] => ""
                | (k, x) :: rest =>
                    TidbCloud.quoted k ++ ":" ++ print_json x
                    ++ match rest with [] => "" | _ => "," ++ members rest end
                end) fields ++ "}"
  end.

(** Two payloads: a tree before and after an update. *)
Definition P1 : json :=
  JObj [("id", JStr "root"); ("title", JStr "Take the job"); ("children", JArr [])].

Definition P2 : json :=
  JObj [("id", JStr "root"); ("title", JStr "Take the job");
        ("children", JArr [JObj [("id", JStr "branch-a"); ("title", JStr "Move abroad")]])].

(** The platform for the examples: digests are tagged, not computed;
    [JSON.parse] reads back the two payloads; the driver hands a JSON
    column back as its text. *)
Definition example_builtins : Builtins :=
  {| md5_hex := fun s => "md5(" ++ s ++ ")";
     JSON_stringify := print_json;
     JSON_parse := fun s => if String.eqb s (print_json P1) then Some P1
                            else if String.eqb s (print_json P2) then Some P2
                            else None;
     column_value := JStr |}.

Definition host1 : string := "gateway01.branch-1.prod.aws.tidbcloud.com".

Definition row1 : Row :=
  {| id := "t1"; session_id := "session-1"; name := "Main timeline";
     parent_timeline_id := None; branch_id := Some "bran-1"; branch_host := Some host1;
     tree_data := print_json P1; branched_from_node := None;
     created_at := "2025-01-01T00:00:00.000Z" |}.

Definition row1_on_branch : Row := set_tree_data (print_json P2) row1.

Definition no_faults : Store -> DbOp -> bool := fun _ _ => false.

Definition branch_down : Store -> DbOp -> bool :=
  fun s op => match s, op with Branch _, Connect => true | _, _ => false end.

Definition world (branch_tables : gmap string (gmap string Row))
    (faults : Store -> DbOp -> bool) (answers : list FetchReply) : World :=
  {| TIDB_CLOUD_PUBLIC_KEY := Some "public-key";
     TIDB_CLOUD_PRIVATE_KEY := Some "private-key";
     TIDB_CLOUD_CLUSTER_ID := Some "10001";
     main := {[ "t1" := row1 ]};
     branches := branch_tables;
     fails := faults;
     replies := answers;
     entropy := ["0123456789abcdef0123456789abcdef"; "a1b2c3d4e5f60718"];
     now := "2025-06-01T12:00:00.000Z";
     trace := [] |}.

(** The branch holds the record; the branch is unreachable; the branch is
    reachable but has no row for the record. *)
Definition world_branched : World := world {[ host1 := {[ "t1" := row1_on_branch ]} ]} no_faults [].

Definition world_branch_down : World :=
  world {[ host1 := {[ "t1" := row1_on_branch ]} ]} branch_down [].

Definition world_branch_empty : World := world {[ host1 := ∅ ]} no_faults [].

(** The primary store refuses writes. *)
Definition primary_refuses_writes : Store -> DbOp -> bool :=
  fun s op => match s with Main => Contract.is_write op | Branch _ => false end.

Definition world_primary_refuses : World :=
  world {[ host1 := {[ "t1" := row1_on_branch ]} ]} primary_refuses_writes [].

Definition put_P2 : option TimelineById.PutBody :=
  Some {| TimelineById.treeData := Some P2 |}.

(** A control plane that challenges without realm or nonce, then answers. *)
Definition challenge_without_tokens : FetchResponse :=
  {| status := 401; www_authenticate := Some ("Digest qop=" ++ TidbCloud.quoted "auth");
     text := ""; json_body := None |}.

Definition challenge_with_tokens : FetchResponse :=
  {| status := 401;
     www_authenticate :=
       Some ("Digest realm=" ++ TidbCloud.quoted "tidb.cloud" ++ ", nonce="
             ++ TidbCloud.quoted "n-7f3a" ++ ", algorithm=MD5");
     text := ""; json_body := None |}.

Definition branch_list : FetchResponse :=
  {| status := 200; www_authenticate := None; text := "{}";
     json_body := Some {| cb_branchId := Undefined; cb_name := Undefined;
                          cb_host := Undefined |} |}.

Definition world_challenged (challenge : FetchResponse) : World :=
  world ∅ no_faults [Reply challenge; Reply branch_list].

(** A control plane that creates a branch and reports its endpoint at
    once. *)
Definition branch_created : FetchResponse :=
  {| status := 200; www_authenticate := None; text := "{}";
     json_body := Some {| cb_branchId := Str "bran-2"; cb_name := Undefined;
                          cb_host := Undefined |} |}.

Definition branch_details : FetchResponse :=
  {| status := 200; www_authenticate := None; text := "{}";
     json_body := Some {| cb_branchId := Str "bran-2"; cb_name := Undefined;
                          cb_host := Str host1 |} |}.

Definition world_creating : World :=
  world {[ host1 := ∅ ]} no_faults [Reply branch_created; Reply branch_details].

Definition post_fork : option Timelines.PostBody :=
  Some {| Timelines.sessionId := Some "session-1"; Timelines.name := Some "Alt: Move abroad...";
          Timelines.treeData := Some P2; Timelines.parentTimelineId := None;
          Timelines.branchedFromNode := Some "branch-a"; Timelines.createBranch := true |}.

(** Trees: one with unique identifiers, one where two siblings carry the
    identifier the branch prompt suggests. *)
Definition leaf (i t : string) : LifeTree.LifeNodeData :=
  LifeTree.Node i t "" LifeTree.Yr5 LifeTree.neutral None None.

Definition tree_unique : LifeTree.LifeNodeData :=
  LifeTree.Node "root" "Take the job" "" LifeTree.Now LifeTree.neutral None
    (Some [LifeTree.Node "path-a" "Accept" "" LifeTree.Yr5 LifeTree.positive (Some 60)
             (Some [leaf "path-a-good" "Promoted"]);
           leaf "path-b" "Decline"]).

Definition first_a : LifeTree.LifeNodeData :=
  LifeTree.Node "branch-a" "Move abroad" "" LifeTree.Yr5 LifeTree.positive (Some 55)
    (Some [leaf "branch-a-outcome" "Settled"]).

Definition second_a : LifeTree.LifeNodeData :=
  LifeTree.Node "branch-a" "Stay home" "" LifeTree.Yr5 LifeTree.neutral (Some 45)
    (Some [leaf "stay-outcome" "Same town"]).

Definition tree_duplicate : LifeTree.LifeNodeData :=
  LifeTree.Node "root" "Take the job" "" LifeTree.Now LifeTree.neutral None
    (Some [first_a; second_a]).

Definition alternative : list LifeTree.LifeNodeData := [leaf "alt-1" "Start a company"].

(** [tree_unique] laid out on a heap, with [alternative] as an array. *)
Definition heap_unique : gmap positive LifeTreeHeap.cell :=
  {[ 1%positive := LifeTreeHeap.CNode
         (LifeTreeHeap.Obj "root" "Take the job" "" LifeTree.Now LifeTree.neutral None
            (Some 2%positive));
     2%positive := LifeTreeHeap.CArray [3%positive; 6%positive];
     3%positive := LifeTreeHeap.CNode
         (LifeTreeHeap.Obj "path-a" "Accept" "" LifeTree.Yr5 LifeTree.positive (Some 60)
            (Some 4%positive));
     4%positive := LifeTreeHeap.CArray [5%positive];
     5%positive := LifeTreeHeap.CNode
         (LifeTreeHeap.Obj "path-a-good" "Promoted" "" LifeTree.Yr5 LifeTree.neutral None None);
     6%positive := LifeTreeHeap.CNode
         (LifeTreeHeap.Obj "path-b" "Decline" "" LifeTree.Yr5 LifeTree.neutral None None);
     7%positive := LifeTreeHeap.CArray [8%positive];
     8%positive := LifeTreeHeap.CNode
         (LifeTreeHeap.Obj "alt-1" "Start a company" "" LifeTree.Yr5 LifeTree.neutral None None) ]}.

(** The path of the branch collection of the cluster. *)
Definition branches_path : string := "/v1beta1/clusters/10001/branches".

(** The values the creation example inserts. *)
Definition forked : InsertValues :=
  {| v_id := "0123456789abcdef"; v_session_id := "session-1";
     v_name := "Alt: Move abroad..."; v_parent_timeline_id := None;
     v_branch_id := Str "bran-2"; v_branch_host := Str host1;
     v_tree_data := print_json P2; v_branched_from_node := Some "branch-a" |}.

Definition path_a : LifeTree.LifeNodeData :=
  LifeTree.Node "path-a" "Accept" "" LifeTree.Yr5 LifeTree.positive (Some 60%Z)
    (Some [leaf "path-a-good" "Promoted"]).

End Examples.

(* ===================================================================== *)
(** * Further example inputs *)
(* ===================================================================== *)

Module Scenarios.
Import JS World Examples.

(** A branch that answers reads and refuses writes, holding the record
    with its older payload. *)
Definition branch_read_only : Store -> DbOp -> bool :=
  fun s op => match s with Branch _ => Contract.is_write op | Main => false end.

Definition world_branch_read_only : World :=
  world {[ host1 := {[ "t1" := row1 ]} ]} branch_read_only [].

(** A branch that takes the update and fails to close, and the same
    stores once nothing fails any more. *)
Definition branch_end_fails : Store -> DbOp -> bool :=
  fun s op => match s, op with Branch _, End_ => true | _, _ => false end.

Definition world_branch_end_fails : World :=
  world {[ host1 := {[ "t1" := row1 ]} ]} branch_end_fails [].

Definition recovered (w : World) : World :=
  {| TIDB_CLOUD_PUBLIC_KEY := TIDB_CLOUD_PUBLIC_KEY w;
     TIDB_CLOUD_PRIVATE_KEY := TIDB_CLOUD_PRIVATE_KEY w;
     TIDB_CLOUD_CLUSTER_ID := TIDB_CLOUD_CLUSTER_ID w;
     main := main w; branches := branches w; fails := no_faults;
     replies := replies w; entropy := entropy w; now := now w; trace := trace w |}.

(** A creation that asks for a branch, and the same without. *)
Definition fork_body : Timelines.PostBody :=
  {| Timelines.sessionId := Some "session-1"; Timelines.name := Some "Alt: Move abroad...";
     Timelines.treeData := Some P2; Timelines.parentTimelineId := None;
     Timelines.branchedFromNode := Some "branch-a"; Timelines.createBranch := true |}.

Definition local_body : Timelines.PostBody :=
  {| Timelines.sessionId := Some "session-1"; Timelines.name := Some "Main timeline";
     Timelines.treeData := Some P1; Timelines.parentTimelineId := None;
     Timelines.branchedFromNode := None; Timelines.createBranch := false |}.

Definition nameless_body : Timelines.PostBody :=
  {| Timelines.sessionId := Some "session-1"; Timelines.name := Some "";
     Timelines.treeData := Some P1; Timelines.parentTimelineId := None;
     Timelines.branchedFromNode := None; Timelines.createBranch := true |}.

(** The control plane does not answer at all. *)
Definition world_offline : World := world ∅ no_faults [].

(** The id the next creation draws is already in use. *)
Definition world_id_taken : World :=
  {| TIDB_CLOUD_PUBLIC_KEY := Some "public-key";
     TIDB_CLOUD_PRIVATE_KEY := Some "private-key";
     TIDB_CLOUD_CLUSTER_ID := Some "10001";
     main := {[ "0123456789abcdef" := row1 ]};
     branches := ∅;
     fails := no_faults;
     replies := [];
     entropy := ["0123456789abcdef0123456789abcdef"];
     now := "2025-06-01T12:00:00.000Z";
     trace := [] |}.

(** The control plane answers at once, with a listing or with a refusal.
    The platform of the listing reads the text of the listing back. *)
Definition branch_listing : json :=
  JObj [("branches",
         JArr [JObj [("branchId", JStr "bran-1"); ("displayName", JStr "alt-move-abroad")]])].

Definition listing_builtins : Builtins :=
  {| md5_hex := fun s => "md5(" ++ s ++ ")";
     JSON_stringify := print_json;
     JSON_parse := fun s => if String.eqb s (print_json branch_listing)
                            then Some branch_listing else None;
     column_value := JStr |}.

Definition listing_reply : FetchResponse :=
  {| status := 200; www_authenticate := None; text := print_json branch_listing;
     json_body := None |}.

Definition world_listing : World := world ∅ no_faults [Reply listing_reply].

Definition forbidden : FetchResponse :=
  {| status := 403; www_authenticate := None; text := "forbidden"; json_body := None |}.

Definition world_forbidden : World := world ∅ no_faults [Reply forbidden].

Definition delete_bran_2 : Branches.DeleteBody := {| Branches.branchId := Some "bran-2" |}.

(** A challenge header. *)
Definition challenge_header : string :=
  "Digest realm=" ++ TidbCloud.quoted "tidb.cloud" ++ ", nonce="
  ++ TidbCloud.quoted "n-7f3a" ++ ", algorithm=MD5".

(** White space beyond ASCII: U+00A0 (no-break space) and U+FEFF (byte
    order mark) in UTF-8. *)
Definition nbsp : string :=
  String (Ascii.ascii_of_nat 194) (String (Ascii.ascii_of_nat 160) EmptyString).

Definition bom : string :=
  String (Ascii.ascii_of_nat 239)
    (String (Ascii.ascii_of_nat 187) (String (Ascii.ascii_of_nat 191) EmptyString)).

(** A forwarding header and a fenced answer. *)
Definition forwarded : RateLimit.Headers :=
  {| RateLimit.x_forwarded_for := Some (nbsp ++ "203.0.113.7" ++ " " ++ "," ++ " 10.0.0.1");
     RateLimit.x_real_ip := Some "10.9.9.9" |}.

Definition newline : string := String (Ascii.ascii_of_nat 10) EmptyString.

Definition fenced_answer : string :=
  bom ++ (Generate.fence ++ "json") ++ newline ++ print_json P1 ++ newline
  ++ Generate.fence ++ newline.

(** An empty table of shared trees, one that holds the id drawn next, and
    a request to share.  The first value of [Math.random()] is the number
    written 0.5161290322580645, whose product with 62 is rounded to 32. *)
Definition draws (n : nat) : Binary64.number :=
  match n with
  | O => {| Binary64.mantissa := 4648877034705028; Binary64.exponent := -53 |}
  | _ => {| Binary64.mantissa := Z.of_nat ((n * 7 + 3) mod 61); Binary64.exponent := -6 |}
  end.

Definition no_trees : Trees.Db :=
  {| Trees.trees := ∅; Trees.refuses := fun _ => false; Trees.random := draws;
     Trees.drawn := 0; Trees.clock := "2025-06-01T12:00:00.000Z"; Trees.calls := [] |}.

Definition share_body : Trees.PostBody :=
  {| Trees.p_decision := Some "Take the job"; Trees.p_tree_data := Some P2 |}.

Definition shared_row : Trees.TreeRow :=
  {| Trees.id := "GjqxEKRY"; Trees.decision := "Quit"; Trees.tree_data := print_json P1;
     Trees.created_at := "2025-01-01T00:00:00.000Z" |}.

Definition one_tree : Trees.Db :=
  {| Trees.trees := {[ "GjqxEKRY" := shared_row ]}; Trees.refuses := fun _ => false;
     Trees.random := draws; Trees.drawn := 0; Trees.clock := "2025-06-01T12:00:00.000Z";
     Trees.calls := [] |}.

End Scenarios.

(* ===================================================================== *)
(** * Properties *)
(* ===================================================================== *)

Section LifeTreeFacts.
Import LifeTree.

(** Induction over a tree that also gives the hypothesis for every child. *)
Lemma LifeNodeData_forall_ind (P : LifeNodeData -> Prop) :
  (forall i t d tf s p, P (Node i t d tf s p None)) ->
  (forall i t d tf s p cs, Forall P cs -> P (Node i t d tf s p (Some cs))) ->
  forall tree, P tree.
Proof.
  intros Hleaf Hnode.
  fix IH 1. intros [i t d tf s p [cs|]]; [|apply Hleaf].
  apply Hnode. induction cs as [|c cs IHcs]; constructor; [apply IH | exact IHcs].
Qed.

End LifeTreeFacts.

Section LifeTreeProofs.
Import LifeTree.

Lemma find_over_app {A} (f : A -> bool) (l1 l2 : list A) :
  List.find f (l1 ++ l2) =
  match List.find f l1 with Some x => Some x | None => List.find f l2 end.
Proof. induction l1 as [|a l1 IH]; cbn; [reflexivity|]. destruct (f a); auto. Qed.

Lemma loop_is_find (i : string) (cs : list LifeNodeData) :
  Forall (fun c => findNodeById c i = List.find (fun n => String.eqb (id n) i) (preorder c)) cs ->
  (fix loop (cs : list LifeNodeData) : option LifeNodeData :=
     match cs with
     | [] => None
     | child :: rest =>
         match findNodeById child i with
         | Some found => Some found
         | None => loop rest
         end
     end) cs
  = List.find (fun n => String.eqb (id n) i) (List.flat_map preorder cs).
Proof.
  induction 1 as [|c cs Hc _ IH]; [reflexivity|].
  cbn [List.flat_map]. rewrite find_over_app, <- Hc, IH. reflexivity.
Qed.

(** [findNodeById] returns the first node, in depth-first document order,
    that carries the identifier. *)
Lemma findNodeById_preorder (tree : LifeNodeData) (i : string) :
  findNodeById tree i = List.find (fun n => String.eqb (id n) i) (preorder tree).
Proof.
  induction tree as [i0 t d tf s p | i0 t d tf s p cs IH] using LifeNodeData_forall_ind;
    cbn [findNodeById preorder List.find id children];
    destruct (String.eqb i0 i); try reflexivity.
  apply loop_is_find, IH.
Qed.

Lemma findNodeById_None (tree : LifeNodeData) (i : string) :
  findNodeById tree i = None <-> ~ occurs i tree.
Proof.
  rewrite findNodeById_preorder. unfold occurs, ids. split.
  - intros Hnone Hin. apply in_map_iff in Hin as (n & Hid & Hn).
    apply (find_none _ _ Hnone) in Hn. apply String.eqb_neq in Hn. congruence.
  - intros Hno. destruct (List.find _ _) as [n|] eqn:Hf; [|reflexivity].
    apply find_some in Hf as [Hin Heq]. apply String.eqb_eq in Heq.
    exfalso. apply Hno, in_map_iff. eauto.
Qed.

Lemma findNodeById_Some_id (tree : LifeNodeData) (i : string) (m : LifeNodeData) :
  findNodeById tree i = Some m -> id m = i /\ In m (preorder tree).
Proof.
  rewrite findNodeById_preorder. intros Hf.
  apply find_some in Hf as [Hin Heq]. apply String.eqb_eq in Heq. auto.
Qed.

Lemma occurs_child (i : string) i0 t d tf s p cs c :
  In c cs -> occurs i c -> occurs i (Node i0 t d tf s p (Some cs)).
Proof.
  unfold occurs, ids. cbn [preorder children List.map]. intros Hc Hin.
  right. apply in_map_iff in Hin as (n & Hid & Hn).
  apply in_map_iff. exists n. split; [exact Hid|].
  apply in_flat_map. eauto.
Qed.

Lemma occurs_root (tree : LifeNodeData) : occurs (id tree) tree.
Proof. destruct tree; left; reflexivity. Qed.

(** Replacing at an identifier the tree does not contain rebuilds the very
    same value. *)
Lemma replaceSubtreeAtNode_absent (tree : LifeNodeData) (i : string)
    (newChildren : list LifeNodeData) :
  ~ occurs i tree -> replaceSubtreeAtNode tree i newChildren = tree.
Proof.
  induction tree as [i0 t d tf s p | i0 t d tf s p cs IH] using LifeNodeData_forall_ind;
    intros Hno; cbn [replaceSubtreeAtNode id children].
  - destruct (String.eqb_spec i0 i) as [->|_]; [|reflexivity].
    exfalso. apply Hno. left. reflexivity.
  - destruct (String.eqb_spec i0 i) as [->|_].
    { exfalso. apply Hno. left. reflexivity. }
    unfold with_children; cbn. f_equal. f_equal.
    rewrite <- (List.map_id cs) at 2. apply List.map_ext_in.
    intros c Hc. rewrite List.Forall_forall in IH. apply IH.
    + exact Hc.
    + intros Hocc. apply Hno. eapply occurs_child; eauto.
Qed.

Lemma loop_replace (i : string) (nc : list LifeNodeData) (m : LifeNodeData)
    (cs : list LifeNodeData) :
  Forall (fun c => forall m, findNodeById c i = Some m ->
            findNodeById (replaceSubtreeAtNode c i nc) i = Some (with_children m nc)) cs ->
  List.find (fun n => String.eqb (id n) i) (List.flat_map preorder cs) = Some m ->
  List.find (fun n => String.eqb (id n) i)
    (List.flat_map preorder (List.map (fun c => replaceSubtreeAtNode c i nc) cs))
  = Some (with_children m nc).
Proof.
  induction 1 as [|c cs Hc _ IH]; [discriminate|].
  cbn [List.flat_map List.map]. rewrite !find_over_app, <- !findNodeById_preorder.
  destruct (findNodeById c i) as [m'|] eqn:Hfind.
  - intros [= ->]. rewrite (Hc m eq_refl). reflexivity.
  - intros Hrest. apply findNodeById_None in Hfind as Hno.
    rewrite (replaceSubtreeAtNode_absent c i nc Hno), Hfind. auto.
Qed.

(** After a replacement, the search finds the node it found before, now
    with the new children. *)
Lemma findNodeById_replaceSubtreeAtNode (tree : LifeNodeData) (i : string)
    (nc : list LifeNodeData) :
  forall m, findNodeById tree i = Some m ->
  findNodeById (replaceSubtreeAtNode tree i nc) i = Some (with_children m nc).
Proof.
  induction tree as [i0 t d tf s p | i0 t d tf s p cs IH] using LifeNodeData_forall_ind;
    intros m; rewrite !findNodeById_preorder;
    cbn [replaceSubtreeAtNode preorder List.find id children];
    destruct (String.eqb i0 i) eqn:Heq.
  - intros [= <-]. cbn. rewrite Heq. reflexivity.
  - discriminate.
  - intros [= <-]. cbn. rewrite Heq. reflexivity.
  - intros Hf. cbn [with_children preorder List.find id children]. rewrite Heq.
    apply loop_replace; assumption.
Qed.

Lemma nth_error_map_opt {A B} (f : A -> B) (l : list A) (k : nat) :
  nth_error (List.map f l) k = option_map f (nth_error l k).
Proof. revert k; induction l as [|a l IH]; intros [|k]; cbn; auto. Qed.

(** Below a path that avoids the identifier, the replacement acts on the
    subtree at the end of the path and nowhere else. *)
Lemma subtree_at_replaceSubtreeAtNode (i : string) (nc : list LifeNodeData)
    (path : list nat) :
  forall tree, clear_above i tree path ->
  subtree_at (replaceSubtreeAtNode tree i nc) path
  = option_map (fun s => replaceSubtreeAtNode s i nc) (subtree_at tree path).
Proof.
  induction path as [|k path IH]; intros tree Hclear; [reflexivity|].
  destruct Hclear as [Hne Hclear]. apply String.eqb_neq in Hne.
  destruct tree as [i0 t d tf s p [cs|]]; cbn in *; rewrite Hne; [|reflexivity].
  cbn. rewrite nth_error_map_opt.
  destruct (nth_error cs k) as [c|]; [|reflexivity]. cbn. apply IH, Hclear.
Qed.

Lemma loop_found_child (i : string) (m : LifeNodeData) (cs : list LifeNodeData) :
  List.find (fun n => String.eqb (id n) i) (List.flat_map preorder cs) = Some m ->
  exists k c, nth_error cs k = Some c /\ findNodeById c i = Some m.
Proof.
  induction cs as [|c cs IH]; [discriminate|].
  cbn [List.flat_map]. rewrite find_over_app, <- findNodeById_preorder.
  destruct (findNodeById c i) as [m'|] eqn:Hfind.
  - intros [= ->]. exists 0%nat, c. auto.
  - intros Hrest. destruct (IH Hrest) as (k & c' & Hk & Hc'). exists (S k), c'. auto.
Qed.

(** The node the search returns sits at a path no ancestor of which carries
    the identifier. *)
Lemma findNodeById_path (tree : LifeNodeData) (i : string) :
  forall m, findNodeById tree i = Some m ->
  exists path, subtree_at tree path = Some m /\ clear_above i tree path.
Proof.
  induction tree as [i0 t d tf s p | i0 t d tf s p cs IH] using LifeNodeData_forall_ind;
    intros m; rewrite findNodeById_preorder;
    cbn [preorder List.find id children];
    destruct (String.eqb_spec i0 i) as [Heq|Hne].
  - intros [= <-]. exists []. cbn. auto.
  - discriminate.
  - intros [= <-]. exists []. cbn. auto.
  - intros Hf. apply loop_found_child in Hf as (k & c & Hk & Hc).
    rewrite List.Forall_forall in IH.
    destruct (IH c (nth_error_In _ _ Hk) m Hc) as (path & Hsub & Hclear).
    exists (k :: path). cbn. rewrite Hk. auto.
Qed.

Lemma clear_above_sibling (i : string) (path : list nat) (k j : nat) :
  forall tree, clear_above i tree (path ++ [k]) -> clear_above i tree (path ++ [j]).
Proof.
  induction path as [|n path IH]; intros tree; cbn.
  - intros [Hne _]. split; [exact Hne|].
    destruct (children tree) as [cs|]; [|exact I]. destruct (nth_error cs j); exact I.
  - intros [Hne Hrest]. split; [exact Hne|].
    destruct (children tree) as [cs|]; [|exact I].
    destruct (nth_error cs n); [apply IH, Hrest | exact I].
Qed.

Lemma ids_node i0 t d tf s p cs :
  ids (Node i0 t d tf s p (Some cs)) = i0 :: List.flat_map ids cs.
Proof.
  unfold ids. cbn [preorder children List.map]. f_equal.
  induction cs as [|c cs IH]; [reflexivity|].
  cbn [List.flat_map]. rewrite List.map_app, IH. reflexivity.
Qed.

Lemma NoDup_flat_map_part {A C} (f : A -> list C) (l : list A) (a : A) :
  NoDup (List.flat_map f l) -> In a l -> NoDup (f a).
Proof.
  induction l as [|b l IH]; [intros _ []|].
  cbn [List.flat_map]. rewrite NoDup_app. intros (Hb & _ & Hl) [->|Hin]; auto.
Qed.

Lemma NoDup_flat_map_disjoint {A C} (f : A -> list C) (l : list A) :
  NoDup (List.flat_map f l) ->
  forall j k a b x, nth_error l j = Some a -> nth_error l k = Some b -> j <> k ->
  In x (f a) -> In x (f b) -> False.
Proof.
  induction l as [|c l IH]; intros Hnd j k a b x Hj Hk Hne Ha Hb.
  - destruct j; discriminate.
  - cbn [List.flat_map] in Hnd. apply NoDup_app in Hnd as (_ & Hdisj & Hl).
    destruct j as [|j], k as [|k]; cbn in Hj, Hk; simplify_eq.
    + apply (Hdisj x); [apply list_elem_of_In, Ha|].
      apply list_elem_of_In, in_flat_map. exists b. split; [eapply nth_error_In; eauto|exact Hb].
    + apply (Hdisj x); [apply list_elem_of_In, Hb|].
      apply list_elem_of_In, in_flat_map. exists a. split; [eapply nth_error_In; eauto|exact Ha].
    + eapply (IH Hl j k); eauto.
Qed.

Lemma occurs_subtree (i : string) (path : list nat) :
  forall tree s, subtree_at tree path = Some s -> occurs i s -> occurs i tree.
Proof.
  induction path as [|k path IH]; intros tree s; cbn.
  - intros [= ->]. auto.
  - destruct tree as [i0 t d tf sn p [cs|]]; cbn; [|discriminate].
    destruct (nth_error cs k) as [c|] eqn:Hk; [|discriminate].
    intros Hsub Hocc. apply (occurs_child i i0 t d tf sn p cs c);
      [eapply nth_error_In; exact Hk | eapply IH; eauto].
Qed.

Lemma unique_ids_subtree (path : list nat) :
  forall tree s, NoDup (ids tree) -> subtree_at tree path = Some s -> NoDup (ids s).
Proof.
  induction path as [|k path IH]; intros tree s Hnd; cbn.
  - intros [= ->]. exact Hnd.
  - destruct tree as [i0 t d tf sn p [cs|]]; cbn; [|discriminate].
    destruct (nth_error cs k) as [c|] eqn:Hk; [|discriminate].
    rewrite ids_node in Hnd. apply NoDup_cons in Hnd as [_ Hnd].
    apply IH. eapply NoDup_flat_map_part; [exact Hnd | eapply nth_error_In; eauto].
Qed.

Lemma unique_ids_clear_above (i : string) (path : list nat) :
  forall tree m, NoDup (ids tree) -> subtree_at tree path = Some m -> id m = i ->
  clear_above i tree path.
Proof.
  induction path as [|k path IH]; intros tree m Hnd; cbn; [auto|].
  destruct tree as [i0 t d tf sn p [cs|]]; cbn; [|discriminate].
  destruct (nth_error cs k) as [c|] eqn:Hk; [|discriminate].
  intros Hsub Hid. rewrite ids_node in Hnd. apply NoDup_cons in Hnd as [Hfresh Hnd].
  split.
  - intros ->. apply Hfresh, list_elem_of_In, in_flat_map. exists c.
    split; [eapply nth_error_In; eauto|].
    eapply (occurs_subtree _ path c m); [exact Hsub|]. rewrite <- Hid. apply occurs_root.
  - eapply IH; eauto. eapply NoDup_flat_map_part; [exact Hnd | eapply nth_error_In; eauto].
Qed.

Lemma unique_ids_siblings (i : string) (path : list nat) (k j : nat) :
  forall tree m s, NoDup (ids tree) ->
  subtree_at tree (path ++ [k]) = Some m ->
  subtree_at tree (path ++ [j]) = Some s ->
  j <> k -> occurs i m -> ~ occurs i s.
Proof.
  induction path as [|n path IH]; intros tree m s Hnd; cbn.
  - destruct tree as [i0 t d tf sn p [cs|]]; cbn; [|discriminate].
    destruct (nth_error cs k) as [c|] eqn:Hk; [|discriminate].
    destruct (nth_error cs j) as [c'|] eqn:Hj; [|discriminate].
    intros [= ->] [= ->] Hne Hm Hs.
    rewrite ids_node in Hnd. apply NoDup_cons in Hnd as [_ Hnd].
    eapply (NoDup_flat_map_disjoint ids cs Hnd j k); eauto.
  - destruct tree as [i0 t d tf sn p [cs|]]; cbn; [|discriminate].
    destruct (nth_error cs n) as [c|] eqn:Hn; [|discriminate].
    rewrite ids_node in Hnd. apply NoDup_cons in Hnd as [_ Hnd].
    apply IH. eapply NoDup_flat_map_part; [exact Hnd | eapply nth_error_In; eauto].
Qed.

(** C8 (amended). On a tree where the search for [i] finds a node [m]: the
    search returns the first node in depth-first document order carrying
    the identifier; after the replacement it returns [m] with exactly the
    new children and its other fields unchanged, at the position where [m]
    was.  Every subtree that contains no node with the identifier and lies
    below no such node is unchanged; when identifiers are unique within
    the tree this covers every sibling subtree of [m].  Every node
    carrying the identifier that lies below no such node, in a sibling
    subtree or elsewhere, receives the new children as well, its other
    fields unchanged. *)
Theorem replace_then_find (tree : LifeNodeData) (i : string)
    (newChildren : list LifeNodeData) (m : LifeNodeData) :
  findNodeById tree i = Some m ->
  findNodeById tree i = List.find (fun n => String.eqb (id n) i) (preorder tree) /\
  findNodeById (replaceSubtreeAtNode tree i newChildren) i
    = Some (with_children m newChildren) /\
  (exists path, subtree_at tree path = Some m /\ clear_above i tree path /\
     subtree_at (replaceSubtreeAtNode tree i newChildren) path
     = Some (with_children m newChildren)) /\
  (forall path n, subtree_at tree path = Some n -> clear_above i tree path ->
     id n = i ->
     subtree_at (replaceSubtreeAtNode tree i newChildren) path
     = Some (with_children n newChildren)) /\
  (forall path s, subtree_at tree path = Some s -> clear_above i tree path ->
     ~ occurs i s ->
     subtree_at (replaceSubtreeAtNode tree i newChildren) path = Some s) /\
  (NoDup (ids tree) ->
   forall path k j s,
     subtree_at tree (path ++ [k]) = Some m -> j <> k ->
     subtree_at tree (path ++ [j]) = Some s ->
     subtree_at (replaceSubtreeAtNode tree i newChildren) (path ++ [j]) = Some s).
Proof.
  intros Hfind.
  pose proof (findNodeById_Some_id tree i m Hfind) as [Hid _].
  split; [apply findNodeById_preorder|].
  split; [apply findNodeById_replaceSubtreeAtNode, Hfind|].
  assert (forall path s, subtree_at tree path = Some s -> clear_above i tree path ->
     ~ occurs i s ->
     subtree_at (replaceSubtreeAtNode tree i newChildren) path = Some s) as Hframe.
  { intros path s Hsub Hclear Hno.
    rewrite subtree_at_replaceSubtreeAtNode, Hsub by exact Hclear. cbn.
    rewrite replaceSubtreeAtNode_absent by exact Hno. reflexivity. }
  assert (forall path n, subtree_at tree path = Some n -> clear_above i tree path ->
     id n = i ->
     subtree_at (replaceSubtreeAtNode tree i newChildren) path
     = Some (with_children n newChildren)) as Hevery.
  { intros path n Hsub Hclear Hn.
    rewrite subtree_at_replaceSubtreeAtNode, Hsub by exact Hclear. cbn.
    destruct n as [i0 t d tf s p cs]; cbn in Hn; subst i0.
    cbn. rewrite String.eqb_refl. reflexivity. }
  split; [|split; [exact Hevery|split; [exact Hframe|]]].
  - destruct (findNodeById_path tree i m Hfind) as (path & Hsub & Hclear).
    exists path. split; [exact Hsub|]. split; [exact Hclear|].
    apply Hevery; assumption.
  - intros Hnd path k j s Hm Hne Hs. apply Hframe; [exact Hs| |].
    + apply (clear_above_sibling i path k j).
      apply (unique_ids_clear_above i (path ++ [k])%list tree m Hnd Hm Hid).
    + apply (unique_ids_siblings i path k j tree m s Hnd Hm Hs Hne).
      rewrite <- Hid. apply occurs_root.
Qed.

End LifeTreeProofs.

Section LifeTreeMore.
Import LifeTree.

(** X1. The search finds a node exactly when one carries the identifier; what
    it returns is a node of the tree with that identifier. *)
Theorem findNodeById_finds_iff_present (tree : LifeNodeData) (i : string) :
  (occurs i tree <-> exists found, findNodeById tree i = Some found) /\
  (forall found, findNodeById tree i = Some found ->
     id found = i /\ In found (preorder tree)).
Proof.
  split.
  - split.
    + intros Hocc. destruct (findNodeById tree i) as [found|] eqn:Hfind; [eauto|].
      apply findNodeById_None in Hfind. contradiction.
    + intros [found Hfind] . destruct (findNodeById_Some_id tree i found Hfind) as [Hid Hin].
      unfold occurs, ids. apply in_map_iff. eauto.
  - apply findNodeById_Some_id.
Qed.

(** X2. Replacing twice with the same arguments is replacing once. *)
Theorem replaceSubtreeAtNode_is_idempotent (tree : LifeNodeData) (i : string)
    (newChildren : list LifeNodeData) :
  replaceSubtreeAtNode (replaceSubtreeAtNode tree i newChildren) i newChildren
  = replaceSubtreeAtNode tree i newChildren.
Proof.
  induction tree as [i0 t d tf s p | i0 t d tf s p cs IH] using LifeNodeData_forall_ind;
    cbn [replaceSubtreeAtNode id children].
  - destruct (String.eqb i0 i) eqn:Heq; cbn [replaceSubtreeAtNode with_children id children];
      rewrite Heq; reflexivity.
  - destruct (String.eqb i0 i) eqn:Heq; cbn [replaceSubtreeAtNode with_children id children];
      rewrite Heq; [reflexivity|].
    unfold with_children. cbn [id title description timeframe sentiment probability].
    f_equal. f_equal. rewrite List.map_map. apply List.map_ext_in. intros c Hc.
    rewrite List.Forall_forall in IH. apply IH, Hc.
Qed.

End LifeTreeMore.

Section LifeTreeHeapProofs.
Import LifeTreeHeap.

Lemma Forall2_weaken {A C} (R1 R2 : A -> C -> Prop) (l1 : list A) (l2 : list C) :
  (forall a c, R1 a c -> R2 a c) -> Forall2 R1 l1 l2 -> Forall2 R2 l1 l2.
Proof. intros Himp. induction 1; constructor; auto. Qed.

Lemma repr_inv h l (t : LifeTree.LifeNodeData) :
  repr h l t ->
  exists o, h !! l = Some (CNode o) /\ t = tree_of o (LifeTree.children t) /\
    match LifeTree.children t with
    | None => o_children o = None
    | Some cs => exists a items, o_children o = Some a /\
        h !! a = Some (CArray items) /\ Forall2 (repr h) items cs
    end.
Proof.
  intros [l' o Hl Hc | l' o a items cs Hl Hc Ha Hcs]; exists o; cbn; eauto 10.
Qed.

Lemma repr_mono (h h' : gmap positive cell) l t :
  h ⊆ h' -> repr h l t -> repr h' l t.
Proof.
  intros Hsub. revert l.
  induction t as [i0 t d tf s p | i0 t d tf s p cs IH] using LifeNodeData_forall_ind;
    intros l Hr; apply repr_inv in Hr as (o & Hl & -> & Hc); cbn in Hc.
  - apply repr_leaf; [eapply lookup_weaken; eauto | exact Hc].
  - destruct Hc as (a & items & Hc & Ha & Hcs).
    eapply repr_node; eauto using lookup_weaken.
    clear -IH Hcs. induction Hcs as [|x c items cs Hx _ IHcs]; constructor.
    + inversion IH; subst; auto.
    + inversion IH; subst; auto.
Qed.

Lemma repr_array_mono (h h' : gmap positive cell) a cs :
  h ⊆ h' -> repr_array h a cs -> repr_array h' a cs.
Proof.
  intros Hsub (items & Ha & Hcs). exists items. split; [eapply lookup_weaken; eauto|].
  eapply Forall2_weaken; [|exact Hcs]. intros; eapply repr_mono; eauto.
Qed.

Lemma alloc_fresh (h : gmap positive cell) c l h' :
  alloc h c = (l, h') -> h !! l = None /\ h' = <[l := c]> h /\ h ⊆ h'.
Proof.
  unfold alloc. intros [= <- <-].
  assert (h !! fresh (dom h) = None) as Hnone
    by (apply not_elem_of_dom, is_fresh).
  split; [exact Hnone|]. split; [reflexivity|]. apply insert_subseteq, Hnone.
Qed.

Lemma map_items_refines (f : gmap positive cell -> positive -> option (positive * gmap positive cell))
    (g : LifeTree.LifeNodeData -> LifeTree.LifeNodeData) (cs : list LifeTree.LifeNodeData) :
  forall items (h0 h : gmap positive cell),
  h0 ⊆ h ->
  Forall2 (repr h) items cs ->
  (forall c, In c cs -> forall h1 l, h0 ⊆ h1 -> repr h1 l c ->
     exists l' h2, f h1 l = Some (l', h2) /\ h1 ⊆ h2 /\ repr h2 l' (g c)) ->
  exists items' h', map_items f h items = Some (items', h') /\ h ⊆ h' /\
    Forall2 (repr h') items' (List.map g cs).
Proof.
  induction cs as [|c cs IH]; intros items h0 h H0 Hrep Hf.
  - apply Forall2_nil_inv_r in Hrep as ->. exists [], h. cbn. auto.
  - apply Forall2_cons_inv_r in Hrep as (x & items' & Hx & Hrest & ->).
    destruct (Hf c (or_introl eq_refl) h x H0 Hx) as (x' & h1 & Hfx & Hsub1 & Hx').
    destruct (IH items' h0 h1) as (rest' & h2 & Hmap & Hsub2 & Hrest').
    + etrans; eauto.
    + eapply Forall2_weaken; [|exact Hrest]. intros; eapply repr_mono; eauto.
    + intros c' Hc'. apply Hf. right. exact Hc'.
    + exists (x' :: rest'), h2. cbn [map_items]. rewrite Hfx, Hmap.
      split; [reflexivity|]. split; [etrans; eauto|].
      cbn. constructor; [eapply repr_mono; eauto | exact Hrest'].
Qed.

Lemma height_child (c : LifeTree.LifeNodeData) (cs : list LifeTree.LifeNodeData) :
  In c cs -> (LifeTree.height c <= list_max (List.map LifeTree.height cs))%nat.
Proof.
  induction cs as [|c' cs IH]; [intros []|].
  change (list_max (List.map LifeTree.height (c' :: cs)))
    with (Nat.max (LifeTree.height c') (list_max (List.map LifeTree.height cs))).
  intros [->|Hin]; [lia|]. specialize (IH Hin). lia.
Qed.

(** The heap run of [replaceSubtreeAtNode] returns, only adds cells, and its
    result reads as the tree the function on values computes. *)
Lemma replaceSubtreeAtNode_heap_refines (t : LifeTree.LifeNodeData) (i : string)
    (ncl : positive) (nc : list LifeTree.LifeNodeData) :
  forall (fuel : nat) (h0 h : gmap positive cell) (l : positive),
  (LifeTree.height t <= fuel)%nat ->
  h0 ⊆ h ->
  repr h l t ->
  repr_array h0 ncl nc ->
  exists l' h',
    LifeTreeHeap.replaceSubtreeAtNode fuel h l i ncl = Some (l', h') /\
    h ⊆ h' /\
    repr h' l' (LifeTree.replaceSubtreeAtNode t i nc).
Proof.
  induction t as [i0 t d tf s p | i0 t d tf s p cs IH] using LifeNodeData_forall_ind;
    intros fuel h0 h l Hfuel H0 Hr Hnc;
    (destruct fuel as [|fuel]; [cbn in Hfuel; lia|]);
    apply repr_inv in Hr as (o & Hl & Heq & Hc); cbn in Hc;
    injection Heq as -> -> -> -> -> ->;
    cbn [LifeTreeHeap.replaceSubtreeAtNode LifeTree.replaceSubtreeAtNode
         LifeTree.id LifeTree.children]; rewrite Hl.
  - destruct (String.eqb (o_id o) i).
    + destruct (alloc h (CNode (obj_with_children o ncl))) as [l' h'] eqn:Ha.
      apply alloc_fresh in Ha as (Hnone & -> & Hsub).
      exists l', (<[l' := CNode (obj_with_children o ncl)]> h).
      split; [reflexivity|]. split; [exact Hsub|].
      destruct (repr_array_mono _ _ _ _ (transitivity H0 Hsub) Hnc) as (items & Hi & Hcs).
      apply (repr_node _ l' (obj_with_children o ncl) ncl items nc);
        [apply lookup_insert_eq | reflexivity | exact Hi | exact Hcs].
    + rewrite Hc. exists l, h. split; [reflexivity|]. split; [reflexivity|].
      apply (repr_leaf h l o); assumption.
  - destruct Hc as (a & items & Hc & Ha & Hcs).
    destruct (String.eqb (o_id o) i).
    + destruct (alloc h (CNode (obj_with_children o ncl))) as [l' h'] eqn:Hal.
      apply alloc_fresh in Hal as (Hnone & -> & Hsub).
      exists l', (<[l' := CNode (obj_with_children o ncl)]> h).
      split; [reflexivity|]. split; [exact Hsub|].
      destruct (repr_array_mono _ _ _ _ (transitivity H0 Hsub) Hnc) as (items' & Hi & Hcs').
      apply (repr_node _ l' (obj_with_children o ncl) ncl items' nc);
        [apply lookup_insert_eq | reflexivity | exact Hi | exact Hcs'].
    + rewrite Hc, Ha.
      destruct (map_items_refines
                  (fun h' child => LifeTreeHeap.replaceSubtreeAtNode fuel h' child i ncl)
                  (fun child => LifeTree.replaceSubtreeAtNode child i nc)
                  cs items h0 h H0 Hcs) as (items' & h1 & Hmap & Hsub1 & Hitems').
      { intros c Hin h1 l1 Hh1 Hr1. rewrite List.Forall_forall in IH.
        apply (IH c Hin fuel h0 h1 l1); auto.
        cbn in Hfuel. pose proof (height_child c cs Hin). lia. }
      rewrite Hmap.
      destruct (alloc h1 (CArray items')) as [a' h2] eqn:Hal1.
      destruct (alloc h2 (CNode (obj_with_children o a'))) as [l' h3] eqn:Hal2.
      apply alloc_fresh in Hal1 as (Hn1 & -> & Hsub2).
      apply alloc_fresh in Hal2 as (Hn2 & -> & Hsub3).
      eexists _, _. split; [reflexivity|].
      split; [etrans; [exact Hsub1|]; etrans; eauto|].
      apply (repr_node _ l' (obj_with_children o a') a' items'
               (List.map (fun child => LifeTree.replaceSubtreeAtNode child i nc) cs)).
      * apply lookup_insert_eq.
      * reflexivity.
      * eapply lookup_weaken; [apply lookup_insert_eq | exact Hsub3].
      * eapply Forall2_weaken; [|exact Hitems']. intros; eapply repr_mono; [|eassumption].
        etrans; eauto.
Qed.

(** C7. Replacing at an identifier that occurs nowhere in the tree returns
    a tree equal to the input.  On the object heap the call returns (no
    error, given stack for the depth of the tree), every cell that existed
    before the call still holds the same content afterwards, so the input
    still reads as the same tree, and the returned reference reads as that
    tree too. *)
Theorem replaceSubtreeAtNode_absent_is_noop (tree : LifeTree.LifeNodeData) (i : string)
    (newChildren : list LifeTree.LifeNodeData) :
  ~ LifeTree.occurs i tree ->
  LifeTree.replaceSubtreeAtNode tree i newChildren = tree /\
  forall (fuel : nat) (h : gmap positive cell) (root array : positive),
    (LifeTree.height tree <= fuel)%nat ->
    repr h root tree ->
    repr_array h array newChildren ->
    exists root' h',
      LifeTreeHeap.replaceSubtreeAtNode fuel h root i array = Some (root', h') /\
      (forall l c, h !! l = Some c -> h' !! l = Some c) /\
      repr h' root tree /\
      repr h' root' tree.
Proof.
  intros Hno. pose proof (replaceSubtreeAtNode_absent tree i newChildren Hno) as Heq.
  split; [exact Heq|].
  intros fuel h root array Hfuel Hrepr Harr.
  destruct (replaceSubtreeAtNode_heap_refines tree i array newChildren fuel h h root
              Hfuel (reflexivity h) Hrepr Harr) as (root' & h' & Hrun & Hsub & Hres).
  exists root', h'. split; [exact Hrun|].
  split; [intros l c Hl; eapply lookup_weaken; eauto|].
  split; [eapply repr_mono; eauto|].
  rewrite Heq in Hres. exact Hres.
Qed.
End LifeTreeHeapProofs.

Section LifeTreeHeapMore.
Import LifeTreeHeap.

(** X3. [replaceSubtreeAtNode] never mutates its input: on the object heap
    the call returns (given stack for the depth of the tree), every cell
    that existed before still holds the same content, the old root still
    reads as the old tree, and the returned root reads as the tree the
    function on values computes. *)
Theorem replaceSubtreeAtNode_leaves_its_input_intact (tree : LifeTree.LifeNodeData)
    (i : string) (newChildren : list LifeTree.LifeNodeData) (fuel : nat)
    (h : gmap positive cell) (root array : positive) :
  (LifeTree.height tree <= fuel)%nat ->
  repr h root tree ->
  repr_array h array newChildren ->
  exists root' h',
    LifeTreeHeap.replaceSubtreeAtNode fuel h root i array = Some (root', h') /\
    (forall l c, h !! l = Some c -> h' !! l = Some c) /\
    repr h' root tree /\
    repr h' root' (LifeTree.replaceSubtreeAtNode tree i newChildren).
Proof.
  intros Hfuel Hrepr Harr.
  destruct (replaceSubtreeAtNode_heap_refines tree i array newChildren fuel h h root
              Hfuel (reflexivity h) Hrepr Harr) as (root' & h' & Hrun & Hsub & Hres).
  exists root', h'. split; [exact Hrun|].
  split; [intros l c Hl; eapply lookup_weaken; eauto|].
  split; [eapply repr_mono; eauto | exact Hres].
Qed.

End LifeTreeHeapMore.

Section FlowProofs.
Import LifeTree JS Flow.

(** The [forEach] loops of the three conversions, as [flat_map]s. *)
Lemma forEach_flat_map {A C} (f : LifeNodeData -> list A * list C) (cs : list LifeNodeData) :
  forall (nodes : list A) (edges : list C),
  (fix forEach (cs : list LifeNodeData) (nodes : list A) (edges : list C)
     : list A * list C :=
     match cs with
     | [] => (nodes, edges)
     | child :: rest =>
         let childFlow := f child in
         forEach rest (nodes ++ fst childFlow)%list (edges ++ snd childFlow)%list
     end) cs nodes edges
  = ((nodes ++ List.flat_map (fun c => fst (f c)) cs)%list,
     (edges ++ List.flat_map (fun c => snd (f c)) cs)%list).
Proof.
  induction cs as [|c cs IH]; intros nodes edges.
  - rewrite !app_nil_r. reflexivity.
  - cbn zeta. rewrite IH. cbn [List.flat_map]. rewrite !app_assoc. reflexivity.
Qed.

Lemma treeToFlow_unfold (node : LifeNodeData) (parentId : option string) :
  treeToFlow node parentId
  = ({| n_id := id node; n_type := "lifeNode"; position := {| x := 0; y := 0 |};
        data := node |}
     :: List.flat_map (fun c => fst (treeToFlow c (Some (id node)))) (the_children node),
     ((if truthy_str parentId then
         [ {| e_id := default "" parentId ++ "-" ++ id node; source := default "" parentId;
              target := id node;
              style := {| stroke := "#a1a1aa"; strokeWidth := 2 |}; animated := None |} ]
       else [])
      ++ List.flat_map (fun c => snd (treeToFlow c (Some (id node)))) (the_children node))%list).
Proof.
  destruct node as [i t d tf s p [cs|]]; cbn [treeToFlow children id the_children].
  - rewrite (forEach_flat_map (fun c => treeToFlow c (Some i))). reflexivity.
  - cbn [List.flat_map]. rewrite app_nil_r. reflexivity.
Qed.

Lemma preorder_unfold (node : LifeNodeData) :
  preorder node = node :: List.flat_map preorder (the_children node).
Proof. destruct node as [i t d tf s p [cs|]]; reflexivity. Qed.

Lemma below_unfold (node : LifeNodeData) :
  below node = List.flat_map preorder (the_children node).
Proof. destruct node as [i t d tf s p [cs|]]; reflexivity. Qed.

Lemma links_unfold (node : LifeNodeData) :
  links node
  = List.flat_map (fun child => (id node, id child) :: links child) (the_children node).
Proof. destruct node as [i t d tf s p [cs|]]; reflexivity. Qed.

Lemma flat_map_map {A C D} (f : A -> list C) (g : C -> D) (l : list A) :
  List.map g (List.flat_map f l) = List.flat_map (fun a => List.map g (f a)) l.
Proof.
  induction l as [|a l IH]; [reflexivity|].
  cbn [List.flat_map]. rewrite List.map_app, IH. reflexivity.
Qed.

Lemma flat_map_filter {A C} (f : A -> list C) (g : C -> bool) (l : list A) :
  List.filter g (List.flat_map f l) = List.flat_map (fun a => List.filter g (f a)) l.
Proof.
  induction l as [|a l IH]; [reflexivity|].
  cbn [List.flat_map]. rewrite List.filter_app, IH. reflexivity.
Qed.

Lemma flat_map_nil {A C} (l : list A) : List.flat_map (fun _ : A => @nil C) l = [].
Proof. induction l as [|a l IH]; [reflexivity | exact IH]. Qed.

Lemma flat_map_ext_Forall {A C} (f g : A -> list C) (l : list A) :
  Forall (fun a => f a = g a) l -> List.flat_map f l = List.flat_map g l.
Proof. induction 1 as [|a l Ha _ IH]; [reflexivity|]. cbn. rewrite Ha, IH. reflexivity. Qed.

(** Induction over a tree through [the_children]. *)
Lemma tree_ind_children (P : LifeNodeData -> Prop) :
  (forall node, Forall P (the_children node) -> P node) -> forall node, P node.
Proof.
  intros Hstep node.
  induction node as [i t d tf s p | i t d tf s p cs IH] using LifeNodeData_forall_ind;
    apply Hstep; [constructor | exact IH].
Qed.

(** X4. [treeToFlow] draws the tree: its nodes are the nodes of the tree in
    document order, each under its own id, and its edges are the
    parent-child pairs of the tree in document order, each named
    [parent-child], except that a parent whose id is the empty string gets
    no edge to its children. *)
Theorem treeToFlow_draws_the_tree (tree : LifeNodeData) :
  List.map data (fst (treeToFlow tree None)) = preorder tree /\
  List.map n_id (fst (treeToFlow tree None)) = ids tree /\
  List.map pair_of (snd (treeToFlow tree None)) = List.filter drawn (links tree) /\
  Forall (fun e => e_id e = source e ++ "-" ++ target e) (snd (treeToFlow tree None)).
Proof.
  assert (forall node parentId,
            List.map data (fst (treeToFlow node parentId)) = preorder node) as Hnodes.
  { intros n. induction n as [n IH] using tree_ind_children. intros parentId.
    rewrite treeToFlow_unfold, preorder_unfold. cbn [fst List.map data]. f_equal.
    rewrite flat_map_map. apply flat_map_ext_Forall.
    eapply Forall_impl; [exact IH|]. intros c Hc. apply Hc. }
  assert (forall node parentId,
            List.map n_id (fst (treeToFlow node parentId)) = ids node) as Hids.
  { intros n. induction n as [n IH] using tree_ind_children. intros parentId.
    unfold ids. rewrite treeToFlow_unfold, preorder_unfold. cbn [fst List.map n_id]. f_equal.
    rewrite !flat_map_map. apply flat_map_ext_Forall.
    eapply Forall_impl; [exact IH|]. intros c Hc. apply Hc. }
  assert (forall node parentId,
            List.map pair_of (snd (treeToFlow node parentId))
            = ((if truthy_str parentId then [(default "" parentId, id node)] else [])
               ++ List.filter drawn (links node))%list) as Hedges.
  { intros n. induction n as [n IH] using tree_ind_children. intros parentId.
    rewrite treeToFlow_unfold, links_unfold. cbn [snd]. rewrite List.map_app. f_equal.
    - destruct (truthy_str parentId); reflexivity.
    - rewrite flat_map_map, flat_map_filter. apply flat_map_ext_Forall.
      eapply Forall_impl; [exact IH|]. intros c Hc. cbn beta. rewrite Hc.
      cbn [truthy_str default from_option List.filter]. unfold drawn, Datatypes.id.
      cbn [fst]. destruct (String.eqb (id n) ""); reflexivity. }
  assert (forall node parentId,
            Forall (fun e => e_id e = source e ++ "-" ++ target e)
              (snd (treeToFlow node parentId))) as Hnames.
  { intros n. induction n as [n IH] using tree_ind_children. intros parentId.
    rewrite treeToFlow_unfold. cbn [snd]. apply Forall_app. split.
    - destruct (truthy_str parentId); repeat constructor.
    - apply List.Forall_forall. intros e He. apply in_flat_map in He as (c & Hc & He).
      rewrite List.Forall_forall in IH. specialize (IH c Hc (Some (id n))).
      rewrite List.Forall_forall in IH. apply IH, He. }
  split; [apply Hnodes|]. split; [apply Hids|]. split; [|apply Hnames].
  rewrite Hedges. reflexivity.
Qed.

Lemma treeToGraph_unfold (n : LifeNodeData) (parentId : option string) :
  treeToGraph n parentId
  = ({| g_id := id n; g_name := title n; g_description := description n;
        g_timeframe := timeframe n; g_sentiment := sentiment n;
        g_probability := probability n;
        val := if negb (truthy_str parentId) then 20 else 10;
        color := or_else (sentimentColors (sentiment n)) (sentimentColors neutral) |}
     :: List.flat_map (fun c => fst (treeToGraph c (Some (id n)))) (the_children n),
     ((if truthy_str parentId then
         [ {| l_source := default "" parentId; l_target := id n;
              l_color := or_else (sentimentColors (sentiment n)) "#666" |} ]
       else [])
      ++ List.flat_map (fun c => snd (treeToGraph c (Some (id n)))) (the_children n))%list).
Proof.
  destruct n as [i t d tf s p [cs|]]; cbn [treeToGraph children id the_children].
  - rewrite (forEach_flat_map (fun c => treeToGraph c (Some i))). reflexivity.
  - cbn [List.flat_map]. rewrite app_nil_r. reflexivity.
Qed.

Lemma ids_unfold (n : LifeNodeData) :
  ids n = id n :: List.flat_map ids (the_children n).
Proof. unfold ids. rewrite preorder_unfold. cbn [List.map]. rewrite flat_map_map. reflexivity. Qed.

Lemma Forall_flat_map_part {A C} (P : C -> Prop) (f : A -> list C) (l : list A) (a : A) :
  Forall P (List.flat_map f l) -> In a l -> Forall P (f a).
Proof.
  rewrite !List.Forall_forall. intros H Ha x Hx. apply H, in_flat_map. eauto.
Qed.

(** X6. [treeToGraph] draws the same tree for the 3D view: one sphere per
    node in document order, coloured by the node's sentiment, one link per
    parent-child pair whose parent id is not empty; and when no id is
    empty, the root alone has size 20 and every other node size 10. *)
Theorem treeToGraph_draws_the_tree (tree : LifeNodeData) :
  List.map g_id (fst (treeToGraph tree None)) = ids tree /\
  List.map link_of (snd (treeToGraph tree None)) = List.filter drawn (links tree) /\
  Forall (fun g => color g = sentimentColors (g_sentiment g)) (fst (treeToGraph tree None)) /\
  (Forall (fun i => i <> "") (ids tree) ->
   List.map val (fst (treeToGraph tree None)) = 20 :: List.map (fun _ => 10) (below tree)).
Proof.
  assert (forall n parentId, List.map g_id (fst (treeToGraph n parentId)) = ids n) as Hids.
  { intros n. induction n as [n IH] using tree_ind_children. intros parentId.
    rewrite treeToGraph_unfold, ids_unfold. cbn [fst List.map g_id]. f_equal.
    rewrite flat_map_map. apply flat_map_ext_Forall.
    eapply Forall_impl; [exact IH|]. intros c Hc. apply Hc. }
  assert (forall n parentId,
            List.map link_of (snd (treeToGraph n parentId))
            = ((if truthy_str parentId then [(default "" parentId, id n)] else [])
               ++ List.filter drawn (links n))%list) as Hlinks.
  { intros n. induction n as [n IH] using tree_ind_children. intros parentId.
    rewrite treeToGraph_unfold, links_unfold. cbn [snd]. rewrite List.map_app. f_equal.
    - destruct (truthy_str parentId); reflexivity.
    - rewrite flat_map_map, flat_map_filter. apply flat_map_ext_Forall.
      eapply Forall_impl; [exact IH|]. intros c Hc. cbn beta. rewrite Hc.
      cbn [truthy_str default from_option List.filter]. unfold drawn, Datatypes.id.
      cbn [fst]. destruct (String.eqb (id n) ""); reflexivity. }
  assert (forall n parentId,
            Forall (fun g => color g = sentimentColors (g_sentiment g))
              (fst (treeToGraph n parentId))) as Hcolors.
  { intros n. induction n as [n IH] using tree_ind_children. intros parentId.
    rewrite treeToGraph_unfold. cbn [fst]. constructor.
    - cbn [color g_sentiment]. destruct (sentiment n); reflexivity.
    - apply List.Forall_forall. intros g Hg. apply in_flat_map in Hg as (c & Hc & Hg).
      rewrite List.Forall_forall in IH. specialize (IH c Hc (Some (id n))).
      rewrite List.Forall_forall in IH. apply IH, Hg. }
  assert (forall n parent, parent <> "" -> Forall (fun i => i <> "") (ids n) ->
            List.map val (fst (treeToGraph n (Some parent)))
            = List.map (fun _ => 10) (preorder n)) as Hsizes.
  { intros n. induction n as [n IH] using tree_ind_children. intros parent Hparent Hne.
    rewrite treeToGraph_unfold, preorder_unfold. cbn [fst List.map val truthy_str].
    apply String.eqb_neq in Hparent. rewrite Hparent. cbn [negb]. f_equal.
    rewrite !flat_map_map. rewrite ids_unfold in Hne. apply Forall_cons in Hne as [Hid Hne].
    apply flat_map_ext_Forall, List.Forall_forall. intros c Hc.
    rewrite List.Forall_forall in IH. apply (IH c Hc); [exact Hid|].
    apply (Forall_flat_map_part _ ids (the_children n)); assumption. }
  split; [apply Hids|]. split; [rewrite Hlinks; reflexivity|]. split; [apply Hcolors|].
  intros Hne. rewrite treeToGraph_unfold. cbn [fst List.map val truthy_str negb]. f_equal.
  rewrite below_unfold, !flat_map_map. rewrite ids_unfold in Hne. apply Forall_cons in Hne as [Hid Hne].
  apply flat_map_ext_Forall, List.Forall_forall. intros c Hc.
  apply Hsizes; [exact Hid|].
  apply (Forall_flat_map_part _ ids (the_children tree)); assumption.
Qed.

Lemma treeToFlowWithBranchInfo_unfold (n : LifeNodeData) (parentId : option string)
    (branchPointIds : option (gset string)) (alternativeFromId : option string)
    (inAlternativeSubtree : bool) :
  let marked := inAlternativeSubtree || strict_eq parentId alternativeFromId in
  fst (treeToFlowWithBranchInfo n parentId branchPointIds alternativeFromId
         inAlternativeSubtree)
  = {| n_id := id n; n_type := "lifeNode"; position := {| x := 0; y := 0 |};
       data := {| node := n;
                  isBranchPoint := match branchPointIds with
                                   | Some s => bool_decide (id n ∈ s)
                                   | None => false
                                   end;
                  isAlternative := marked |} |}
    :: List.flat_map
         (fun c => fst (treeToFlowWithBranchInfo c (Some (id n)) branchPointIds
                          alternativeFromId marked))
         (the_children n).
Proof.
  destruct n as [i t d tf s p [cs|]]; cbn [treeToFlowWithBranchInfo children id the_children].
  - rewrite (forEach_flat_map
               (fun c => treeToFlowWithBranchInfo c (Some i) branchPointIds alternativeFromId
                           (inAlternativeSubtree || strict_eq parentId alternativeFromId))).
    reflexivity.
  - reflexivity.
Qed.

Lemma branch_flow_shows_the_tree (branchPointIds : option (gset string))
    (alternativeFromId : option string) (n : LifeNodeData) :
  forall parentId inAlternativeSubtree,
    List.map shown (fst (treeToFlowWithBranchInfo n parentId branchPointIds alternativeFromId
                           inAlternativeSubtree))
    = preorder n.
Proof.
  induction n as [n IH] using tree_ind_children. intros parentId inAlt.
  rewrite treeToFlowWithBranchInfo_unfold, preorder_unfold. cbn [List.map]. f_equal.
  rewrite flat_map_map. apply flat_map_ext_Forall.
  eapply Forall_impl; [exact IH|]. intros c Hc. apply Hc.
Qed.

(** Inside the alternative every node is highlighted. *)
Lemma branch_flow_inside (branchPointIds : option (gset string))
    (alternativeFromId : option string) (n : LifeNodeData) :
  forall parentId inAlternativeSubtree,
    inAlternativeSubtree || strict_eq parentId alternativeFromId = true ->
    List.filter highlighted
      (fst (treeToFlowWithBranchInfo n parentId branchPointIds alternativeFromId
              inAlternativeSubtree))
    = fst (treeToFlowWithBranchInfo n parentId branchPointIds alternativeFromId
             inAlternativeSubtree).
Proof.
  induction n as [n IH] using tree_ind_children. intros parentId inAlt Hin.
  rewrite treeToFlowWithBranchInfo_unfold. rewrite Hin.
  cbn [List.filter highlighted data isAlternative].
  f_equal. rewrite flat_map_filter. apply flat_map_ext_Forall.
  eapply Forall_impl; [exact IH|]. intros c Hc. apply Hc. reflexivity.
Qed.

Lemma strict_eq_ne (a b : option string) : a <> b -> strict_eq a b = false.
Proof. intros H. unfold strict_eq. apply bool_decide_eq_false. exact H. Qed.

Lemma strict_eq_refl (a : option string) : strict_eq a a = true.
Proof. unfold strict_eq. apply bool_decide_eq_true. reflexivity. Qed.

Lemma not_occurs_children (a : string) (n c : LifeNodeData) :
  ~ occurs a n -> In c (the_children n) -> ~ occurs a c.
Proof.
  unfold occurs. rewrite (ids_unfold n). intros Hno Hc Hin. apply Hno. right.
  apply in_flat_map. eauto.
Qed.

(** Outside the alternative, a tree without the branch node has no
    highlighted node. *)
Lemma branch_flow_outside (branchPointIds : option (gset string)) (a : string)
    (n : LifeNodeData) :
  forall parentId, parentId <> Some a -> ~ occurs a n ->
    List.filter highlighted
      (fst (treeToFlowWithBranchInfo n parentId branchPointIds (Some a) false))
    = [].
Proof.
  induction n as [n IH] using tree_ind_children. intros parentId Hparent Hno.
  rewrite treeToFlowWithBranchInfo_unfold. rewrite (strict_eq_ne _ _ Hparent).
  cbn [orb List.filter highlighted data isAlternative].
  rewrite flat_map_filter.
  assert (id n <> a) as Hid by (intros <-; apply Hno, occurs_root).
  rewrite (flat_map_ext_Forall _ (fun _ => [])); [apply flat_map_nil|].
  apply List.Forall_forall. intros c Hc. rewrite List.Forall_forall in IH.
  apply (IH c Hc); [congruence|]. eapply not_occurs_children; eauto.
Qed.

Lemma occurs_unfold (a : string) (n : LifeNodeData) :
  occurs a n <-> id n = a \/ exists c, In c (the_children n) /\ occurs a c.
Proof.
  unfold occurs. rewrite (ids_unfold n). cbn [In]. rewrite in_flat_map. reflexivity.
Qed.

Lemma replaceSubtreeAtNode_unfold (n : LifeNodeData) (a : string) (nc : list LifeNodeData) :
  id n <> a ->
  id (replaceSubtreeAtNode n a nc) = id n /\
  the_children (replaceSubtreeAtNode n a nc)
  = List.map (fun c => replaceSubtreeAtNode c a nc) (the_children n).
Proof.
  intros Hne. apply String.eqb_neq in Hne.
  destruct n as [i t d tf s p [cs|]]; cbn [replaceSubtreeAtNode id children] in *;
    rewrite Hne; split; reflexivity.
Qed.

Lemma flat_map_over_map {A C D} (f : A -> C) (g : C -> list D) (l : list A) :
  List.flat_map g (List.map f l) = List.flat_map (fun a => g (f a)) l.
Proof. induction l as [|a l IH]; [reflexivity|]. cbn. rewrite IH. reflexivity. Qed.

(** After a replacement at [a] in a tree with unique ids, the highlighted
    nodes of the branch-aware drawing are the nodes of the new children. *)
Lemma branch_flow_replaced (branchPointIds : option (gset string)) (a : string)
    (nc : list LifeNodeData) (n : LifeNodeData) :
  forall parentId, parentId <> Some a -> NoDup (ids n) -> occurs a n ->
    List.map shown
      (List.filter highlighted
         (fst (treeToFlowWithBranchInfo (replaceSubtreeAtNode n a nc) parentId
                 branchPointIds (Some a) false)))
    = List.flat_map preorder nc.
Proof.
  induction n as [n IH] using tree_ind_children. intros parentId Hparent Hnd Hocc.
  rewrite treeToFlowWithBranchInfo_unfold. rewrite (strict_eq_ne _ _ Hparent).
  cbn [orb List.filter highlighted data isAlternative].
  destruct (String.eqb_spec (id n) a) as [Heq|Hne].
  - assert (replaceSubtreeAtNode n a nc = with_children n nc) as ->.
    { destruct n as [i t d tf s p cs]; cbn [replaceSubtreeAtNode id] in *.
      subst i. rewrite String.eqb_refl. reflexivity. }
    cbn [with_children id the_children children]. rewrite Heq.
    rewrite flat_map_filter, flat_map_map.
    apply flat_map_ext_Forall, List.Forall_forall. intros c _.
    rewrite branch_flow_inside by (rewrite strict_eq_refl; reflexivity).
    apply branch_flow_shows_the_tree.
  - destruct (replaceSubtreeAtNode_unfold n a nc Hne) as [-> ->].
    rewrite flat_map_over_map, flat_map_filter, flat_map_map.
    apply occurs_unfold in Hocc as [Hid | (c & Hc & Hocc)]; [contradiction|].
    rewrite ids_unfold in Hnd. apply NoDup_cons in Hnd as [_ Hnd].
    assert (Some (id n) <> Some a) as Hp by congruence.
    clear Hparent parentId.
    induction (the_children n) as [|c' cs IHcs]; [destruct Hc|].
    cbn [List.flat_map] in *. apply NoDup_app in Hnd as (Hnd1 & Hdisj & Hnd2).
    apply Forall_cons in IH as [IHc' IHcs'].
    destruct (List.in_dec String.string_dec a (ids c')) as [Hin|Hout].
    + rewrite (IHc' _ Hp Hnd1 Hin).
      match goal with |- (_ ++ ?rest)%list = _ => assert (rest = []) as -> end;
        [|apply app_nil_r].
      rewrite (flat_map_ext_Forall _ (fun _ => [])); [apply flat_map_nil|].
      apply List.Forall_forall. intros c'' Hc''.
      assert (~ occurs a c'') as Hno.
      { intros Hin''. apply (Hdisj a); [apply list_elem_of_In, Hin|].
        apply list_elem_of_In, in_flat_map. eauto. }
      rewrite replaceSubtreeAtNode_absent by exact Hno.
      rewrite branch_flow_outside by assumption. reflexivity.
    + rewrite replaceSubtreeAtNode_absent by exact Hout.
      rewrite branch_flow_outside by assumption. cbn [List.map app].
      destruct Hc as [<-|Hc]; [contradiction|]. apply IHcs; assumption.
Qed.

(** X5. The alternative is what gets highlighted: the branch-aware drawing
    shows the nodes of the tree in document order, and after a replacement
    of the children of the node [a], in a tree with unique ids that holds
    [a], the highlighted nodes are exactly the nodes of the new children. *)
Theorem alternative_subtree_is_highlighted (tree : LifeNodeData) (a : string)
    (newChildren : list LifeNodeData) (branchPoints : option (gset string)) :
  NoDup (ids tree) ->
  occurs a tree ->
  List.map shown
    (fst (treeToFlowWithBranchInfo (replaceSubtreeAtNode tree a newChildren) None
            branchPoints (Some a) false))
  = preorder (replaceSubtreeAtNode tree a newChildren) /\
  List.map shown
    (List.filter highlighted
       (fst (treeToFlowWithBranchInfo (replaceSubtreeAtNode tree a newChildren) None
               branchPoints (Some a) false)))
  = List.flat_map preorder newChildren.
Proof.
  intros Hnd Hocc. split; [apply branch_flow_shows_the_tree|].
  apply branch_flow_replaced; [discriminate | exact Hnd | exact Hocc].
Qed.

Lemma fold_left_sum {A} (f : A -> Z) (l : list A) (z : Z) :
  fold_left (fun sum a => sum + f a) l z = z + fold_right Z.add 0 (List.map f l).
Proof.
  revert z. induction l as [|a l IH]; intros z; cbn [fold_left List.map fold_right]; [lia|].
  rewrite IH. lia.
Qed.

Lemma countPaths_unfold (n : LifeNodeData) :
  countPaths n
  = if is_leaf n then 1 else fold_right Z.add 0 (List.map countPaths (the_children n)).
Proof.
  destruct n as [i t d tf s p [[|c cs]|]]; cbn [countPaths is_leaf children the_children];
    try reflexivity.
  rewrite (fold_left_sum countPaths). cbn [List.map fold_right]. lia.
Qed.

Lemma leaves_unfold (n : LifeNodeData) :
  List.filter is_leaf (preorder n)
  = ((if is_leaf n then [n] else [])
     ++ List.flat_map (fun c => List.filter is_leaf (preorder c)) (the_children n))%list.
Proof.
  rewrite preorder_unfold. cbn [List.filter]. rewrite flat_map_filter.
  destruct (is_leaf n); reflexivity.
Qed.

(** X7. The path count of the share page is the number of leaves of the tree
    (nodes without children, or with an empty list of children), and so it
    is never below one. *)
Theorem countPaths_counts_the_leaves (tree : LifeNodeData) :
  countPaths tree = Z.of_nat (length (List.filter is_leaf (preorder tree))) /\
  1 <= countPaths tree.
Proof.
  assert (forall n, countPaths n = Z.of_nat (length (List.filter is_leaf (preorder n))) /\
                    1 <= countPaths n) as H; [|apply H].
  intros n. induction n as [n IH] using tree_ind_children.
  rewrite countPaths_unfold, leaves_unfold.
  destruct (is_leaf n) eqn:Hleaf.
  - assert (the_children n = []) as ->
      by (destruct n as [i t d tf s p [[|c cs]|]]; cbn in *; congruence).
    cbn. lia.
  - cbn [app].
    assert (the_children n <> []) as Hne
      by (destruct n as [i t d tf s p [[|c cs]|]]; cbn in *; congruence).
    induction (the_children n) as [|c cs IHcs]; [contradiction|].
    apply Forall_cons in IH as [[Hc Hpos] Hcs].
    cbn [List.map fold_right List.flat_map]. rewrite length_app.
    destruct cs as [|c2 cs].
    + cbn [List.map fold_right List.flat_map length]. lia.
    + destruct (IHcs Hcs ltac:(discriminate)) as [Hsum Hsumpos].
      rewrite Nat2Z.inj_add, <- Hc, <- Hsum. lia.
Qed.

End FlowProofs.

(* --------------------------------------------------------------------- *)
(** ** Runs of the handlers *)
(* --------------------------------------------------------------------- *)

Section Runs.
Import JS World Contract TidbCloud.
Context {B : Builtins}.

Lemma events_since_app (w w' : World) (evs : list Event) :
  trace w' = (trace w ++ evs)%list -> events_since w w' = evs.
Proof. unfold events_since. intros ->. apply drop_app_length. Qed.

Lemma truthy_str_Some (s : option string) :
  truthy_str s = true -> exists host, s = Some host /\ host <> "".
Proof.
  destruct s as [host|]; [|discriminate]. cbn. intros H. exists host. split; [reflexivity|].
  intros ->. discriminate.
Qed.

(** Projections of a world after [log], [set_table] and the like. *)
Ltac proj_simpl :=
  cbn [fails log set_table set_replies set_entropy table_of trace main branches now
       replies entropy TIDB_CLOUD_PUBLIC_KEY TIDB_CLOUD_PRIVATE_KEY
       TIDB_CLOUD_CLUSTER_ID fst snd] in *.

(** Follow a run [H : handler w = (resp, w')] along every path: case on
    the innermost test the handler is stuck on, until none is left. *)
Ltac split_run H :=
  repeat (proj_simpl; cbn [option_list option_rect] in H;
    match type of H with
    | context [option_list ?x] => destruct x eqn:?
    | context [match ?x with _ => _ end] =>
        lazymatch x with
        | context [match _ with _ => _ end] => fail
        | _ => destruct x eqn:?
        end
    | context [if ?x then _ else _] =>
        lazymatch x with
        | context [if _ then _ else _] => fail
        | context [match _ with _ => _ end] => fail
        | _ => destruct x eqn:?
        end
    end).

(** Read the events of a finished run off the final trace. *)
Ltac trace_simpl :=
  unfold events_since in *; proj_simpl;
  repeat rewrite <- app_assoc in *;
  rewrite ?drop_app_length, ?drop_all in *;
  cbn [app] in *.

Ltac split_ors :=
  repeat match goal with H : _ \/ _ |- _ => destruct H end.

Ltac name_host stored :=
  try match goal with H : truthy_str _ = true |- _ =>
        let host := fresh "host" in
        let Hhost := fresh "Hhost" in
        let Hne := fresh "Hne" in
        apply stored in H as (host & Hhost & Hne);
        rewrite Hhost in *; cbn [default from_option] in *; unfold Datatypes.id in *
      end.

(** C1. Whenever the primary-store write of an update ([PUT]) goes
    through, the handler answers success with one write-destination tag,
    and the primary row holds the new payload: the tag is [main] when the
    record has no stored branch endpoint, and then no branch call is made;
    [both] when the three branch calls (connect, update, end) all went
    through; [main-only] when a branch call was made and the last one
    failed.  A failure on the branch side therefore never fails the
    write. *)
Theorem PUT_reports_write_destination (w w' : World) (id : string)
    (request : option TimelineById.PutBody) (resp : result Response) (text : string) :
  TimelineById.PUT id request w = (resp, w') ->
  In (EvDb Main (Update id text) true) (events_since w w') ->
  exists row tag,
    main w !! id = Some row /\
    resp = Ok (written tag) /\
    main w' !! id = Some (set_tree_data text row) /\
    ((truthy_str (branch_host row) = false /\ tag = "main" /\
      branch_calls (events_since w w') = [])
     \/ (exists host, endpoint_stored row host /\ tag = "both" /\
           branch_calls (events_since w w')
           = [EvDb (Branch host) Connect true;
              EvDb (Branch host) (Update id text) true;
              EvDb (Branch host) End_ true])
     \/ (exists host calls op, endpoint_stored row host /\ tag = "main-only" /\
           branch_calls (events_since w w')
           = (calls ++ [EvDb (Branch host) op false])%list)).
Proof.
  intros Hrun Hin.
  cbv [TimelineById.PUT try_catch bind ret throw pool_getConnection getBranchConnection
       connect execute binds_undefined end_ release
       Timelines.request_json run_statement table_of] in Hrun.
  split_run Hrun; injection Hrun as <- <-; trace_simpl;
    cbn [In] in Hin; split_ors; try discriminate; try contradiction.
  all: match goal with H : EvDb _ _ _ = EvDb _ _ _ |- _ => injection H as <- end.
  all: match goal with H : _ !! _ = Some ?r |- _ =>
         exists r; eexists; split; [reflexivity|]; split; [reflexivity|];
         split; [rewrite lookup_alter_eq, H; reflexivity|] end.
  all: cbn [branch_calls List.filter on_branch]; name_host truthy_str_Some.
  all: first
    [ left; split; [assumption|]; split; reflexivity
    | right; left; exists host; split; [split; assumption|]; split; reflexivity
    | right; right; exists host;
      first [ exists []; eexists; split; [split; assumption|]; split; reflexivity
            | eexists [_]; eexists; split; [split; assumption|]; split; reflexivity
            | eexists [_; _]; eexists; split; [split; assumption|]; split; reflexivity ] ].
Qed.

Lemma branch_read_ok_true (w : World) (host key : string) :
  branch_read_ok w host key = true <->
  fails w (Branch host) Connect = false /\ is_Some (branches w !! host) /\
  fails w (Branch host) (Select key) = false /\ fails w (Branch host) End_ = false.
Proof.
  unfold branch_read_ok. rewrite !andb_true_iff, !negb_true_iff, bool_decide_eq_true.
  tauto.
Qed.

Lemma branch_read_ok_false (w : World) (host key : string) :
  branch_read_ok w host key = false <->
  fails w (Branch host) Connect = true \/ branches w !! host = None \/
  fails w (Branch host) (Select key) = true \/ fails w (Branch host) End_ = true.
Proof.
  unfold branch_read_ok. rewrite !andb_false_iff, !negb_false_iff, bool_decide_eq_false.
  rewrite <- eq_None_not_Some. tauto.
Qed.

Lemma parse_if_string_run (r : Row) (w : World) :
  TimelineById.parse_if_string (column_value (tree_data r)) w
  = match payload_of r with
    | Some v => (Ok v, w)
    | None => (Throw "Unexpected token", w)
    end.
Proof.
  unfold TimelineById.parse_if_string, payload_of.
  destruct (column_value (tree_data r)); try reflexivity.
  destruct (JSON_parse s); reflexivity.
Qed.

Ltac finish_read parsed :=
  simplify_eq; unfold fetched;
  try match goal with H : branch_host _ = Some _ |- _ => rewrite H in * end;
  cbn [default from_option] in *; unfold Datatypes.id in *;
  simplify_eq; try congruence;
  repeat match goal with
         | H : TimelineById.parse_if_string _ _ = _ |- _ => rewrite parsed in H
         end;
  repeat match goal with
         | H : context [match payload_of ?r with _ => _ end] |- _ =>
             destruct (payload_of r) eqn:?
         end;
  simplify_eq; try congruence; try reflexivity;
  try match goal with
      | H : truthy_str (Some ?h) = false, Hn : ?h <> "" |- _ =>
          exfalso; apply Hn; cbn in H; apply negb_false_iff, String.eqb_eq in H; exact H
      end.

(** C2. When the primary read of a [GET] goes through: with no row for the
    id in the primary store the answer is 404, Timeline not found.  With a
    row that has a stored branch endpoint, if the branch read goes through
    and yields a row, the answer is 200 with the branch row's payload and
    source [branch]; if any call of the branch read fails, the answer is
    200 with the payload of the primary row already fetched and source
    [main].  The payload handed out is the row's JSON column as the
    handler decodes it. *)
Theorem GET_read_protocol (w : World) (id : string) :
  primary_read_ok w id ->
  match main w !! id with
  | None => fst (TimelineById.GET id w) = Ok (failure 404 "Timeline not found")
  | Some row =>
      forall host, endpoint_stored row host ->
        (forall table branchRow payload,
            branch_read_ok w host id = true ->
            branches w !! host = Some table ->
            table !! id = Some branchRow ->
            payload_of branchRow = Some payload ->
            fst (TimelineById.GET id w) = Ok (fetched row payload "branch"))
        /\ (forall payload,
            branch_read_ok w host id = false ->
            payload_of row = Some payload ->
            fst (TimelineById.GET id w) = Ok (fetched row payload "main"))
  end.
Proof.
  intros [Hconn Hsel].
  destruct (main w !! id) as [row|] eqn:Hrow.
  - intros host [Hhost Hne]. split.
    + intros table branchRow payload Hok Htable Hbrow Hpay.
      apply branch_read_ok_true in Hok as (Hc & _ & Hs & He).
      destruct (TimelineById.GET id w) as [resp w'] eqn:Hrun. cbn [fst].
      cbv [TimelineById.GET try_catch bind ret throw pool_getConnection getBranchConnection
       connect execute binds_undefined end_ release
       run_statement table_of] in Hrun.
      split_run Hrun; injection Hrun as <- <-; finish_read parse_if_string_run.
    + intros payload Hfail Hpay.
      apply branch_read_ok_false in Hfail.
      destruct (TimelineById.GET id w) as [resp w'] eqn:Hrun. cbn [fst].
      cbv [TimelineById.GET try_catch bind ret throw pool_getConnection getBranchConnection
       connect execute binds_undefined end_ release
       run_statement table_of] in Hrun.
      split_run Hrun; injection Hrun as <- <-; finish_read parse_if_string_run.
      all: destruct Hfail as [Hf|[Hf|[Hf|Hf]]]; congruence.
  - destruct (TimelineById.GET id w) as [resp w'] eqn:Hrun. cbn [fst].
    cbv [TimelineById.GET try_catch bind ret throw pool_getConnection getBranchConnection
       connect execute binds_undefined end_ release
       run_statement table_of] in Hrun.
    split_run Hrun; injection Hrun as <- <-; finish_read parse_if_string_run.
Qed.

(** C10. A branch read whose three calls all go through but which finds no
    row for the id answers like a failed one: 200 with the primary payload
    and source [main]. *)
Theorem GET_empty_branch_falls_back (w : World) (id : string) (row : Row) (host : string)
    (table : gmap string Row) (payload : json) :
  primary_read_ok w id ->
  main w !! id = Some row ->
  endpoint_stored row host ->
  branch_read_ok w host id = true ->
  branches w !! host = Some table ->
  table !! id = None ->
  payload_of row = Some payload ->
  fst (TimelineById.GET id w) = Ok (fetched row payload "main") /\
  branch_calls (events_since w (snd (TimelineById.GET id w)))
  = [EvDb (Branch host) Connect true; EvDb (Branch host) (Select id) true;
     EvDb (Branch host) End_ true].
Proof.
  intros [Hconn Hsel] Hrow [Hhost Hne] Hok Htable Hbrow Hpay.
  apply branch_read_ok_true in Hok as (Hc & _ & Hs & He).
  destruct (TimelineById.GET id w) as [resp w'] eqn:Hrun. cbn [fst snd].
  cbv [TimelineById.GET try_catch bind ret throw pool_getConnection getBranchConnection
       connect execute binds_undefined end_ release
       run_statement table_of] in Hrun.
  split_run Hrun; injection Hrun as <- <-; finish_read parse_if_string_run.
  split; [reflexivity|]. trace_simpl. reflexivity.
Qed.





Lemma branch_calls_after_fetches (fetches evs : list Event) :
  Forall (fun e => is_fetch e = true) fetches ->
  branch_calls (fetches ++ evs) = branch_calls evs.
Proof.
  induction 1 as [|e fetches He _ IH]; [reflexivity|].
  destruct e; [exact IH | discriminate].
Qed.

Lemma In_db_after_fetches (fetches evs : list Event) s op ok :
  Forall (fun e => is_fetch e = true) fetches ->
  In (EvDb s op ok) (fetches ++ evs) -> In (EvDb s op ok) evs.
Proof.
  intros Hf Hin. apply in_app_or in Hin as [Hin|Hin]; [|exact Hin].
  rewrite List.Forall_forall in Hf. apply Hf in Hin. discriminate.
Qed.


Lemma truthy_str_ne (s : string) : s <> "" -> truthy_str (Some s) = true.
Proof. intros H. cbn. apply negb_true_iff, String.eqb_neq, H. Qed.

(** C6. With keys configured and a 401 challenge whose header carries a
    realm and a nonce, the retry that is sent carries the credential
    header whose response is the documented
    hash(HA1:nonce:nonceCount:clientNonce:quality:HA2), HA1 =
    hash(username:realm:password), HA2 = hash(method:requestURI), with the
    nonce-count [00000001] and with the quality [auth] when the challenge
    names none. *)
Theorem digest_credential_is_documented (w : World) (method path : string) (body : option json)
    (username password : string) (challenge : FetchResponse) (rest : list FetchReply)
    (header realm nonce : string) :
  TIDB_CLOUD_PUBLIC_KEY w = Some username -> username <> "" ->
  TIDB_CLOUD_PRIVATE_KEY w = Some password -> password <> "" ->
  replies w = Reply challenge :: rest ->
  status challenge = 401%Z ->
  www_authenticate challenge = Some header ->
  match_group "realm" header = Some realm ->
  match_group "nonce" header = Some nonce ->
  exists first,
    events_since w (snd (tidbCloudFetch method path body w))
    = [EvFetch first;
       EvFetch (second_request method path (World.body first) username password realm nonce
                  (default "auth" (match_group "qop" header)) (hd "" (entropy w)))].
Proof.
  intros Hpk Hpkne Hsk Hskne Hreplies Hstatus Hheader Hrealm Hnonce.
  assert (header <> "") as Hne by (intros ->; discriminate).
  destruct (tidbCloudFetch method path body w) as [resp w'] eqn:Hrun. cbn [snd].
  cbv [tidbCloudFetch bind getenv fetch randomBytes_hex throw ret] in Hrun.
  rewrite Hpk, Hsk, !truthy_str_ne in Hrun by assumption. cbn [negb orb default from_option] in Hrun.
  rewrite Hreplies in Hrun. proj_simpl. rewrite Hstatus, Hheader, truthy_str_ne in Hrun by assumption.
  cbn [Z.eqb Pos.eqb negb default from_option] in Hrun. unfold Datatypes.id in Hrun.
  rewrite Hrealm, Hnonce in Hrun. cbn [default from_option] in Hrun. unfold Datatypes.id in Hrun.
  split_run Hrun; injection Hrun as <- <-; trace_simpl; eexists (Build_FetchRequest _ _ _ _); reflexivity.
Qed.

(** C3 (amended). On a 401 challenge: when the WWW-Authenticate header is
    absent or empty the request fails with an error after the first call
    and no retry is sent; when the header is there, a [realm] or [nonce]
    token that is missing from it is taken as the empty string, the
    credential is computed all the same and the authenticated retry is
    sent once, its answer being the result. *)
Theorem challenge_tokens_default_to_empty (w : World) (method path : string)
    (body : option json) (username password : string) (challenge : FetchResponse)
    (rest : list FetchReply) :
  TIDB_CLOUD_PUBLIC_KEY w = Some username -> username <> "" ->
  TIDB_CLOUD_PRIVATE_KEY w = Some password -> password <> "" ->
  replies w = Reply challenge :: rest ->
  status challenge = 401%Z ->
  (truthy_str (www_authenticate challenge) = false ->
   fst (tidbCloudFetch method path body w) = Throw "No WWW-Authenticate header in response" /\
   exists first, events_since w (snd (tidbCloudFetch method path body w)) = [EvFetch first])
  /\
  (forall header, www_authenticate challenge = Some header -> header <> "" ->
   fst (tidbCloudFetch method path body w)
   = match rest with Reply answer :: _ => Ok answer | _ => Throw "fetch failed" end /\
   exists first,
     events_since w (snd (tidbCloudFetch method path body w))
     = [EvFetch first;
        EvFetch (second_request method path (World.body first) username password
                   (default "" (match_group "realm" header))
                   (default "" (match_group "nonce" header))
                   (default "auth" (match_group "qop" header)) (hd "" (entropy w)))]).
Proof.
  intros Hpk Hpkne Hsk Hskne Hreplies Hstatus.
  destruct (tidbCloudFetch method path body w) as [resp w'] eqn:Hrun. cbn [fst snd].
  cbv [tidbCloudFetch bind getenv fetch randomBytes_hex throw ret] in Hrun.
  rewrite Hpk, Hsk, !truthy_str_ne in Hrun by assumption.
  cbn [negb orb default from_option] in Hrun.
  rewrite Hreplies in Hrun. proj_simpl. rewrite Hstatus in Hrun.
  cbn [Z.eqb Pos.eqb negb] in Hrun. unfold Datatypes.id in Hrun.
  split.
  - intros Hfalsy. rewrite Hfalsy in Hrun. cbn [negb] in Hrun.
    injection Hrun as <- <-. split; [reflexivity|]. trace_simpl.
    eexists (Build_FetchRequest _ _ _ _); reflexivity.
  - intros header Hheader Hne. rewrite Hheader, truthy_str_ne in Hrun by assumption.
    cbn [negb default from_option] in Hrun. unfold Datatypes.id in Hrun.
    split_run Hrun; injection Hrun as <- <-; (split; [reflexivity|]); trace_simpl;
      eexists (Build_FetchRequest _ _ _ _); reflexivity.
Qed.

Lemma same_stores_refl w : same_stores w w.
Proof. constructor; reflexivity. Qed.

Lemma same_stores_trans w1 w2 w3 : same_stores w1 w2 -> same_stores w2 w3 -> same_stores w1 w3.
Proof. intros [] []. constructor; congruence. Qed.

Lemma only_fetches_refl w : only_fetches w w.
Proof. exists []. rewrite app_nil_r. auto. Qed.

Lemma only_fetches_trans w1 w2 w3 : only_fetches w1 w2 -> only_fetches w2 w3 -> only_fetches w1 w3.
Proof.
  intros (f1 & H1 & F1) (f2 & H2 & F2). exists (f1 ++ f2)%list.
  rewrite H2, H1, app_assoc. split; [reflexivity|]. apply Forall_app; auto.
Qed.

Lemma tidbCloudFetch_frame (method path : string) (body : option json) (w w' : World)
    (resp : result FetchResponse) :
  tidbCloudFetch method path body w = (resp, w') ->
  same_stores w w' /\ only_fetches w w'.
Proof.
  intros Hrun.
  cbv [tidbCloudFetch bind getenv fetch randomBytes_hex throw ret] in Hrun.
  split_run Hrun; injection Hrun as <- <-.
  all: split; [constructor; reflexivity|].
  all: unfold only_fetches; proj_simpl; rewrite <- ?app_assoc; cbn [app].
  all: first [ exists []; rewrite app_nil_r; split; [reflexivity|constructor]
             | eexists [_]; split; [reflexivity| repeat constructor]
             | eexists [_; _]; split; [reflexivity| repeat constructor] ].
Qed.

Lemma create_branch_frame (timelineId : string) (w w' : World)
    (r : result (field * field)) :
  Timelines.create_branch timelineId w = (r, w') ->
  (exists created, r = Ok created) /\ same_stores w w' /\ only_fetches w w'.
Proof.
  intros Hrun.
  cbv [Timelines.create_branch bind getenv try_catch throw ret response_json] in Hrun.
  split_run Hrun; injection Hrun as <- <-.
  all: repeat match goal with
         | H : tidbCloudFetch _ _ _ _ = _ |- _ => apply tidbCloudFetch_frame in H as [? ?]
         end.
  all: split; [eexists; reflexivity|].
  all: split; [eauto using same_stores_refl, same_stores_trans
              | eauto using only_fetches_refl, only_fetches_trans].
Qed.




Ltac use_create_branch frame :=
  match goal with
  | H : Timelines.create_branch _ _ = (_, _) |- _ =>
      let Hs := fresh "Hstores" in
      let fetches := fresh "fetches" in
      let Ht := fresh "Htrace" in
      let Hf := fresh "Hfetches" in
      apply frame in H as ([? ?] & Hs & (fetches & Ht & Hf));
      destruct Hs as [Hs1 Hs2 Hs3 Hs4 Hs5]; proj_simpl
  end.

Ltac post_trace :=
  unfold events_since in *; proj_simpl;
  repeat match goal with H : trace _ = (trace _ ++ _)%list |- _ => rewrite H in * ; clear H end;
  repeat rewrite <- app_assoc in *;
  rewrite ?drop_app_length, ?drop_all in *;
  cbn [app] in *.





Lemma PUT_branch_calls (w w' : World) (id : string)
    (request : option TimelineById.PutBody) (resp : result Response) (text : string)
    (row : Row) (host : string) :
  TimelineById.PUT id request w = (resp, w') ->
  In (EvDb Main (Update id text) true) (events_since w w') ->
  main w !! id = Some row ->
  endpoint_stored row host ->
  branch_write host (Update id text) (branch_calls (events_since w w')).
Proof.
  intros Hrun Hin Hrow [Hhost Hne].
  cbv [TimelineById.PUT try_catch bind ret throw pool_getConnection getBranchConnection
       connect execute binds_undefined end_ release
       Timelines.request_json run_statement table_of] in Hrun.
  split_run Hrun; injection Hrun as <- <-; trace_simpl;
    cbn [In] in Hin; split_ors; try discriminate; try contradiction.
  all: match goal with H : EvDb _ _ _ = EvDb _ _ _ |- _ => injection H as <- end.
  all: simplify_eq.
  all: cbn [branch_calls List.filter on_branch]; unfold branch_write.
  all: repeat match goal with H : branch_host _ = Some _ |- _ => rewrite H in * end;
       cbn [default from_option] in *; unfold Datatypes.id in *.
  all: try (exfalso; match goal with H : truthy_str (Some _) = false |- _ =>
         cbn in H; apply (proj1 (negb_false_iff _)), String.eqb_eq in H; auto end).
  all: first [ left; reflexivity | right; left; reflexivity
             | right; right; eexists; reflexivity ].
Qed.

Lemma POST_branch_calls (w w' : World) (request : option Timelines.PostBody)
    (resp : result Response) (v : InsertValues) :
  Timelines.POST request w = (resp, w') ->
  In (EvDb Main (Insert v) true) (events_since w w') ->
  (truthy_field (v_branch_host v) = false -> branch_calls (events_since w w') = []) /\
  (forall host, v_branch_host v = Str host -> host <> "" ->
     branch_write host (InsertOnDuplicateKeyUpdate v) (branch_calls (events_since w w'))).
Proof.
  intros Hrun Hin.
  cbv [Timelines.POST try_catch bind ret throw pool_getConnection getBranchConnection
       connect execute binds_undefined end_ release
       Timelines.request_json run_statement table_of Timelines.generateId
       randomBytes_hex v_branch_id v_branch_host defined negb orb] in Hrun.
  split_run Hrun; injection Hrun as <- <-; try use_create_branch create_branch_frame; simplify_eq; post_trace.
  all: try apply In_db_after_fetches in Hin; [|assumption..].
  all: cbn [In] in Hin; split_ors; try contradiction; simplify_eq.
  all: rewrite ?branch_calls_after_fetches by assumption.
  all: cbn [branch_calls List.filter on_branch v_branch_host truthy_field bound default from_option] in *;
       unfold Datatypes.id in *.
  all: split; [intros Hfalsy; try reflexivity; try congruence
              | intros host' Hhost' Hne'; unfold branch_write; simplify_eq].
  all: try (exfalso; match goal with H : negb (String.eqb _ "") = false |- _ =>
         apply (proj1 (negb_false_iff _)), String.eqb_eq in H; auto end).
  all: first [ left; reflexivity | right; left; reflexivity
             | right; right; eexists; reflexivity ].
Qed.

Lemma PUT_branch_update (w w' : World) (id : string)
    (request : option TimelineById.PutBody) (resp : result Response)
    (host key text : string) :
  TimelineById.PUT id request w = (resp, w') ->
  In (EvDb (Branch host) (Update key text) true) (events_since w w') ->
  key = id /\
  In (EvDb Main (Update id text) true) (events_since w w') /\
  exists table,
    branches w !! host = Some table /\
    branches w' !! host = Some (alter (set_tree_data text) id table).
Proof.
  intros Hrun Hin.
  cbv [TimelineById.PUT try_catch bind ret throw pool_getConnection getBranchConnection
       connect execute binds_undefined end_ release
       Timelines.request_json run_statement table_of] in Hrun.
  split_run Hrun; injection Hrun as <- <-; trace_simpl;
    cbn [In] in Hin; split_ors; try contradiction; simplify_eq.
  all: split; [reflexivity|]; split; [cbn [In]; tauto|].
  all: eexists; split; [eassumption|]; apply lookup_insert_eq.
Qed.

Lemma POST_branch_upsert (w w' : World) (request : option Timelines.PostBody)
    (resp : result Response) (host : string) (v : InsertValues) :
  Timelines.POST request w = (resp, w') ->
  In (EvDb (Branch host) (InsertOnDuplicateKeyUpdate v) true) (events_since w w') ->
  v_branch_host v = Str host /\
  In (EvDb Main (Insert v) true) (events_since w w') /\
  exists table,
    branches w !! host = Some table /\
    branches w' !! host = Some (documented_upsert (now w) v table).
Proof.
  intros Hrun Hin.
  cbv [Timelines.POST try_catch bind ret throw pool_getConnection getBranchConnection
       connect execute binds_undefined end_ release
       Timelines.request_json run_statement table_of Timelines.generateId
       randomBytes_hex v_branch_id v_branch_host defined negb orb] in Hrun.
  split_run Hrun; injection Hrun as <- <-; try use_create_branch create_branch_frame; simplify_eq; post_trace.
  all: try apply In_db_after_fetches in Hin; [|assumption..].
  all: cbn [In] in Hin; split_ors; try contradiction; simplify_eq.
  all: cbn [bound default from_option] in *; unfold Datatypes.id in *.
  all: split; [reflexivity|].
  all: split; [try (apply in_or_app; right); cbn [In]; tauto|].
  all: rewrite ?Hs3, ?Hs4 in *.
  all: eexists; split; [eassumption|].
  all: rewrite lookup_insert_eq; unfold documented_upsert;
       cbn [v_id String.substring] in *;
       match goal with H : ?t !! _ = _ |- context [?t !! _] => rewrite H end;
       reflexivity.
Qed.

Lemma set_tree_data_same_but_payload (text : string) (r : Row) :
  same_but_payload r (set_tree_data text r) /\ tree_data (set_tree_data text r) = text.
Proof. unfold same_but_payload. cbn. tauto. Qed.

(** C4 (amended). For a creation ([POST]) whose primary insert went
    through with a branch endpoint among its values, the calls on branch
    stores are the connection, then the upsert of the specification with
    the values just inserted, then [end()]: it inserts the row, or, when
    the key is already there, overwrites the payload column only.  For an
    update ([PUT]) whose primary update went through on a record with a
    stored branch endpoint, they are the connection, then a plain update
    by key with the same text, then [end()]: it overwrites the payload
    column of an existing branch row and inserts nothing when the branch
    has no row for the key.  In both, every other column of an existing
    row and every other row stay as they were. *)
Theorem branch_write_is_upsert_on_create_update_on_put :
  (forall (w w' : World) (request : option Timelines.PostBody) (resp : result Response)
          (v : InsertValues),
     Timelines.POST request w = (resp, w') ->
     In (EvDb Main (Insert v) true) (events_since w w') ->
     forall host, v_branch_host v = Str host -> host <> "" ->
       branch_write host (InsertOnDuplicateKeyUpdate v) (branch_calls (events_since w w')))
  /\
  (forall (w w' : World) (request : option Timelines.PostBody) (resp : result Response)
          (host : string) (v : InsertValues),
     Timelines.POST request w = (resp, w') ->
     In (EvDb (Branch host) (InsertOnDuplicateKeyUpdate v) true) (events_since w w') ->
     v_branch_host v = Str host /\
     In (EvDb Main (Insert v) true) (events_since w w') /\
     exists table table',
       branches w !! host = Some table /\
       branches w' !! host = Some table' /\
       table' = documented_upsert (now w) v table /\
       (forall key, key <> v_id v -> table' !! key = table !! key) /\
       (table !! v_id v = None -> table' !! v_id v = Some (row_of (now w) v)) /\
       (forall existing, table !! v_id v = Some existing ->
          exists updated, table' !! v_id v = Some updated /\
            tree_data updated = v_tree_data v /\ same_but_payload existing updated))
  /\
  (forall (w w' : World) (id : string) (request : option TimelineById.PutBody)
          (resp : result Response) (text : string) (row : Row) (host : string),
     TimelineById.PUT id request w = (resp, w') ->
     In (EvDb Main (Update id text) true) (events_since w w') ->
     main w !! id = Some row ->
     endpoint_stored row host ->
     branch_write host (Update id text) (branch_calls (events_since w w')))
  /\
  (forall (w w' : World) (id : string) (request : option TimelineById.PutBody)
          (resp : result Response) (host key text : string),
     TimelineById.PUT id request w = (resp, w') ->
     In (EvDb (Branch host) (Update key text) true) (events_since w w') ->
     key = id /\
     In (EvDb Main (Update id text) true) (events_since w w') /\
     exists table table',
       branches w !! host = Some table /\
       branches w' !! host = Some table' /\
       (forall key', key' <> id -> table' !! key' = table !! key') /\
       (table !! id = None -> table' !! id = None) /\
       (forall existing, table !! id = Some existing ->
          exists updated, table' !! id = Some updated /\
            tree_data updated = text /\ same_but_payload existing updated)).
Proof.
  split; [|split; [|split]].
  - intros w w' request resp v Hrun Hin host Hhost Hne.
    destruct (POST_branch_calls w w' request resp v Hrun Hin) as [_ Hsent].
    apply Hsent; assumption.
  - intros w w' request resp host v Hrun Hin.
    destruct (POST_branch_upsert w w' request resp host v Hrun Hin)
      as (Hhost & Hmain & table & Hbefore & Hafter).
    split; [exact Hhost|]. split; [exact Hmain|].
    exists table, (documented_upsert (now w) v table).
    split; [exact Hbefore|]. split; [exact Hafter|]. split; [reflexivity|].
    unfold documented_upsert. split; [|split].
    + intros key Hne. destruct (table !! v_id v); rewrite lookup_insert_ne; auto.
    + intros ->. apply lookup_insert_eq.
    + intros existing ->. eexists. split; [apply lookup_insert_eq|].
      destruct (set_tree_data_same_but_payload (v_tree_data v) existing). auto.
  - intros w w' id request resp text row host Hrun Hin Hrow Hstored.
    exact (PUT_branch_calls w w' id request resp text row host Hrun Hin Hrow Hstored).
  - intros w w' id request resp host key text Hrun Hin.
    destruct (PUT_branch_update w w' id request resp host key text Hrun Hin)
      as (Hkey & Hmain & table & Hbefore & Hafter).
    split; [exact Hkey|]. split; [exact Hmain|].
    exists table, (alter (set_tree_data text) id table).
    split; [exact Hbefore|]. split; [exact Hafter|]. split; [|split].
    + intros key' Hne. apply lookup_alter_ne. auto.
    + intros Hnone. rewrite lookup_alter_eq, Hnone. reflexivity.
    + intros existing Hsome. eexists. split; [rewrite lookup_alter_eq, Hsome; reflexivity|].
      destruct (set_tree_data_same_but_payload text existing). auto.
Qed.


(* --------------------------------------------------------------------- *)
(** ** Further properties of the timeline handlers *)
(* --------------------------------------------------------------------- *)

Import Behaviour.

Lemma payload_of_decodes (r : Row) (p : json) :
  decodes (tree_data r) p <-> payload_of r = Some p.
Proof.
  unfold decodes, payload_of. destruct (column_value (tree_data r)); split; congruence.
Qed.

(** What a successful [PUT] leaves behind. *)
Lemma PUT_written (w w' : World) (id : string) (request : option TimelineById.PutBody)
    (tag : string) :
  TimelineById.PUT id request w = (Ok (written tag), w') ->
  exists v row,
    request = Some {| TimelineById.treeData := Some v |} /\
    truthy v = true /\
    main w !! id = Some row /\
    fails w' = fails w /\
    main w' = alter (set_tree_data (JSON_stringify v)) id (main w) /\
    ((tag = "main" /\ truthy_str (branch_host row) = false /\ branches w' = branches w)
     \/ (exists host table, tag = "both" /\ endpoint_stored row host /\
           branches w !! host = Some table /\
           branches w' = <[host := alter (set_tree_data (JSON_stringify v)) id table]> (branches w))
     \/ (exists host, tag = "main-only" /\ endpoint_stored row host /\
           (fails w (Branch host) End_ = false -> branches w' = branches w))).
Proof.
  intros Hrun.
  cbv [TimelineById.PUT try_catch bind ret throw pool_getConnection getBranchConnection
       connect execute binds_undefined end_ release
       Timelines.request_json run_statement table_of] in Hrun.
  split_run Hrun; injection Hrun as Hresp <-; try discriminate; subst.
  all: match goal with H : negb (truthy_opt (TimelineById.treeData ?b)) = _ |- _ =>
         destruct b as [[v|]]; cbn in H; try discriminate;
         apply negb_false_iff in H
       end.
  all: exists v; match goal with H : main _ !! _ = Some ?r |- _ => exists r end.
  all: split; [reflexivity|]; split; [assumption|]; split; [reflexivity|].
  all: proj_simpl; split; [reflexivity|]; split; [reflexivity|].
  all: cbn [default from_option TimelineById.treeData] in *; unfold Datatypes.id in *.
  all: name_host truthy_str_Some.
  all: first
    [ left; split; [reflexivity|]; split; [assumption|]; reflexivity
    | right; left; exists host; eexists; split; [reflexivity|]; split; [split; assumption|];
      split; [eassumption|]; reflexivity
    | right; right; exists host; split; [reflexivity|]; split; [split; assumption|];
      intros Hend; first [reflexivity | congruence] ].
Qed.

(** What a [GET] answers once the primary read went through: the payload
    of the primary row, or that of the branch row when the branch read
    reached one. *)
Lemma GET_answer (w : World) (id : string) (row : Row) :
  primary_read_ok w id ->
  main w !! id = Some row ->
  exists read source,
    ((source = "main" /\ read = row)
     \/ (source = "branch" /\ exists host table,
           endpoint_stored row host /\ branches w !! host = Some table /\
           table !! id = Some read)) /\
    fst (TimelineById.GET id w)
    = match payload_of read with
      | Some p => Ok (fetched row p source)
      | None => Ok (failure 500 "Failed to get timeline")
      end.
Proof.
  intros [Hconn Hsel] Hrow.
  destruct (TimelineById.GET id w) as [resp w'] eqn:Hrun. cbn [fst].
  cbv [TimelineById.GET try_catch bind ret throw pool_getConnection getBranchConnection
       connect execute binds_undefined end_ release
       run_statement table_of] in Hrun.
  split_run Hrun; injection Hrun as <- <-; simplify_eq.
  all: name_host truthy_str_Some.
  all: repeat match goal with
         | H : TimelineById.parse_if_string _ _ = _ |- _ =>
             rewrite parse_if_string_run in H
         end.
  all: try match goal with
         | H : context [match payload_of ?r with _ => _ end] |- _ =>
             first
               [ exists r, "branch"; split;
                 [right; split; [reflexivity|]; eexists _, _; split; [split; eassumption|];
                  split; eassumption|];
                 destruct (payload_of r); simplify_eq; unfold fetched;
                 rewrite ?Hhost; reflexivity
               | exists r, "main"; split; [left; split; reflexivity|];
                 destruct (payload_of r); simplify_eq; unfold fetched;
                 rewrite ?Hhost; reflexivity ]
         end.
Qed.

(** A [GET] whose branch read goes through and finds a row answers with
    that row's payload. *)
Lemma GET_from_branch (w : World) (id : string) (row branchRow : Row) (host : string)
    (table : gmap string Row) (payload : json) :
  primary_read_ok w id ->
  main w !! id = Some row ->
  endpoint_stored row host ->
  branch_read_ok w host id = true ->
  branches w !! host = Some table ->
  table !! id = Some branchRow ->
  payload_of branchRow = Some payload ->
  fst (TimelineById.GET id w) = Ok (fetched row payload "branch").
Proof.
  intros [Hconn Hsel] Hrow [Hhost Hne] Hok Htable Hbrow Hpay.
  apply branch_read_ok_true in Hok as (Hc & _ & Hs & He).
  destruct (TimelineById.GET id w) as [resp w'] eqn:Hrun. cbn [fst].
  cbv [TimelineById.GET try_catch bind ret throw pool_getConnection getBranchConnection
       connect execute binds_undefined end_ release
       run_statement table_of] in Hrun.
  split_run Hrun; injection Hrun as <- <-; finish_read parse_if_string_run.
Qed.

(** X8. Read your writes: after an update that reports [main] or [both], a
    read whose primary calls go through answers with the payload just
    written, whichever store it comes from. *)
Theorem PUT_then_GET_reads_back (w w' : World) (id : string)
    (request : option TimelineById.PutBody) (tag : string) :
  TimelineById.PUT id request w = (Ok (written tag), w') ->
  tag <> "main-only" ->
  primary_read_ok w' id ->
  exists v row source,
    request = Some {| TimelineById.treeData := Some v |} /\
    main w !! id = Some row /\
    forall p, decodes (JSON_stringify v) p ->
      fst (TimelineById.GET id w')
      = Ok (fetched (set_tree_data (JSON_stringify v) row) p source).
Proof.
  intros Hrun Htag Hread.
  apply PUT_written in Hrun as (v & row & -> & _ & Hrow & Hfails & Hmain & Hbranch).
  assert (main w' !! id = Some (set_tree_data (JSON_stringify v) row)) as Hrow'
    by (rewrite Hmain, lookup_alter_eq, Hrow; reflexivity).
  destruct (GET_answer w' id _ Hread Hrow') as (read & source & Hfrom & Hget).
  exists v, row, source. split; [reflexivity|]. split; [exact Hrow|].
  intros p Hp. rewrite Hget.
  assert (tree_data read = JSON_stringify v) as Htext.
  { destruct Hfrom as [[_ ->] | (_ & host & table & [Hhost Hne] & Htable & Hread')];
      [reflexivity|].
    cbn [branch_host set_tree_data] in Hhost.
    destruct Hbranch as [(_ & Hnone & _) | [(h & t & _ & [Hh _] & Ht & Hb) | (h & Hmo & _)]].
    - rewrite Hhost in Hnone. cbn in Hnone.
      apply negb_false_iff, String.eqb_eq in Hnone. contradiction.
    - assert (h = host) as -> by congruence.
      rewrite Hb, lookup_insert_eq in Htable. injection Htable as <-.
      rewrite lookup_alter_eq in Hread'. destruct (t !! id); [|discriminate].
      injection Hread' as <-. reflexivity.
    - contradiction. }
  assert (payload_of read = Some p) as -> by (apply payload_of_decodes; rewrite Htext; exact Hp).
  reflexivity.
Qed.

(** What a [PUT] that reports [main-only] leaves behind: the branch calls
    ended on a failed one, which is the [UPDATE] or the connection, with
    the branch as it was, or [end()] after an [UPDATE] that went through. *)
Lemma PUT_main_only (w w' : World) (id : string) (request : option TimelineById.PutBody) :
  TimelineById.PUT id request w = (Ok (written "main-only"), w') ->
  exists v row host,
    request = Some {| TimelineById.treeData := Some v |} /\
    main w !! id = Some row /\
    endpoint_stored row host /\
    main w' = alter (set_tree_data (JSON_stringify v)) id (main w) /\
    ((~ In (EvDb (Branch host) (Update id (JSON_stringify v)) true) (events_since w w') /\
      branches w' = branches w)
     \/ (In (EvDb (Branch host) (Update id (JSON_stringify v)) true) (events_since w w') /\
         fails w (Branch host) End_ = true /\
         exists table,
           branches w !! host = Some table /\
           branches w'
           = <[host := alter (set_tree_data (JSON_stringify v)) id table]> (branches w))).
Proof.
  intros Hrun.
  cbv [TimelineById.PUT try_catch bind ret throw pool_getConnection getBranchConnection
       connect execute binds_undefined end_ release
       Timelines.request_json run_statement table_of] in Hrun.
  unfold written, respond in Hrun.
  split_run Hrun; simplify_eq.
  all: match goal with H : negb (truthy_opt (TimelineById.treeData ?b)) = _ |- _ =>
         destruct b as [[v|]]; cbn in H; try discriminate
       end.
  all: exists v; match goal with H : main _ !! _ = Some ?r |- _ => exists r end.
  all: cbn [default from_option TimelineById.treeData] in *; unfold Datatypes.id in *.
  all: name_host truthy_str_Some.
  all: exists host.
  all: split; [reflexivity|]; split; [reflexivity|]; split; [split; assumption|].
  all: trace_simpl; split; [reflexivity|].
  all: first
    [ left; split; [|reflexivity]; cbn [In]; intros Hin; split_ors; simplify_eq;
      try contradiction
    | right; split; [cbn [In]; tauto|]; split; [assumption|];
      eexists; split; [eassumption|]; reflexivity ].
Qed.

(** X9. What [main-only] says about the branch copy.  When the branch
    [UPDATE] of such a write did not go through, the branch is as it was,
    and a later read that reaches the branch row, whatever fails or not by
    then, answers with the older payload, source [branch], while the
    primary store holds the new one.  When the [UPDATE] went through and
    only [end()] threw, the write still reports [main-only], but the branch
    holds the new payload and the later read answers with it. *)
Theorem main_only_write_and_the_later_read (w w' w2 : World) (id : string)
    (request : option TimelineById.PutBody) (row : Row) (host : string) :
  TimelineById.PUT id request w = (Ok (written "main-only"), w') ->
  main w !! id = Some row ->
  endpoint_stored row host ->
  main w2 = main w' ->
  branches w2 = branches w' ->
  primary_read_ok w2 id ->
  branch_read_ok w2 host id = true ->
  exists v,
    request = Some {| TimelineById.treeData := Some v |} /\
    main w' !! id = Some (set_tree_data (JSON_stringify v) row) /\
    (~ In (EvDb (Branch host) (Update id (JSON_stringify v)) true) (events_since w w') ->
     branches w' = branches w /\
     forall table branchRow old,
       branches w !! host = Some table ->
       table !! id = Some branchRow ->
       payload_of branchRow = Some old ->
       fst (TimelineById.GET id w2)
       = Ok (fetched (set_tree_data (JSON_stringify v) row) old "branch")) /\
    (In (EvDb (Branch host) (Update id (JSON_stringify v)) true) (events_since w w') ->
     fails w (Branch host) End_ = true /\
     forall table branchRow p,
       branches w !! host = Some table ->
       table !! id = Some branchRow ->
       decodes (JSON_stringify v) p ->
       fst (TimelineById.GET id w2)
       = Ok (fetched (set_tree_data (JSON_stringify v) row) p "branch")).
Proof.
  intros Hrun Hrow Hstored Hmain2 Hbranches2 Hread Hbread.
  apply PUT_main_only in Hrun as (v & row' & h & -> & Hrow' & [Hh _] & Hmain & Hbranch).
  assert (row' = row) as -> by congruence.
  assert (h = host) as -> by (destruct Hstored; congruence).
  assert (main w2 !! id = Some (set_tree_data (JSON_stringify v) row)) as Hafter
    by (rewrite Hmain2, Hmain, lookup_alter_eq, Hrow; reflexivity).
  exists v. split; [reflexivity|].
  split; [rewrite <- Hmain2; exact Hafter|].
  split.
  - intros Hnot. destruct Hbranch as [[_ Hsame] | [Hin _]]; [|contradiction].
    split; [exact Hsame|]. intros table branchRow old Htable Hbrow Hold.
    apply (GET_from_branch w2 id _ branchRow host table old);
      [exact Hread | exact Hafter | exact Hstored | exact Hbread
      | rewrite Hbranches2, Hsame; exact Htable | exact Hbrow | exact Hold].
  - intros Hin. destruct Hbranch as [[Hnot _] | (_ & Hend & table' & Htable' & Hnew)];
      [contradiction|].
    split; [exact Hend|]. intros table branchRow p Htable Hbrow Hp.
    assert (table' = table) as -> by congruence.
    apply (GET_from_branch w2 id _ (set_tree_data (JSON_stringify v) branchRow) host
             (alter (set_tree_data (JSON_stringify v)) id table) p);
      [exact Hread | exact Hafter | exact Hstored | exact Hbread
      | rewrite Hbranches2, Hnew; apply lookup_insert_eq
      | rewrite lookup_alter_eq, Hbrow; reflexivity
      | apply payload_of_decodes; exact Hp].
Qed.

Lemma payload_update_refl (id : string) (t : gmap string Row) : payload_update id t t.
Proof. intros key. left. reflexivity. Qed.

Lemma payload_update_alter (id text : string) (t : gmap string Row) :
  payload_update id t (alter (set_tree_data text) id t).
Proof.
  intros key. destruct (decide (key = id)) as [->|Hne].
  - rewrite lookup_alter_eq. destruct (t !! id) as [row|] eqn:Hrow; [|left; reflexivity].
    right. split; [reflexivity|]. exists row, text. split; reflexivity.
  - left. apply lookup_alter_ne. congruence.
Qed.

Lemma stores_related_branch (R : gmap string Row -> gmap string Row -> Prop)
    (refl : forall t, R t t) (w w' : World) (host : string)
    (t t' : gmap string Row) :
  R (main w) (main w') ->
  branches w !! host = Some t ->
  branches w' = <[host := t']> (branches w) ->
  R t t' ->
  stores_related R w w'.
Proof.
  intros Hmain Ht Hb HR. split; [exact Hmain|]. intros h. rewrite Hb.
  destruct (decide (h = host)) as [->|Hne].
  - rewrite lookup_insert_eq, Ht. exact HR.
  - rewrite lookup_insert_ne by congruence. destruct (branches w !! h); auto.
Qed.

Lemma stores_related_same (R : gmap string Row -> gmap string Row -> Prop)
    (refl : forall t, R t t) (w w' : World) :
  R (main w) (main w') -> branches w' = branches w -> stores_related R w w'.
Proof.
  intros Hmain Hb. split; [exact Hmain|]. intros h. rewrite Hb.
  destruct (branches w !! h); auto.
Qed.

(** X10. An update changes at most the payload of the row it names, in the
    primary store and in the branches: in no run does [PUT] add or remove
    a row, touch another row, or change another column. *)
Theorem PUT_changes_one_payload_only (w w' : World) (id : string)
    (request : option TimelineById.PutBody) (resp : result Response) :
  TimelineById.PUT id request w = (resp, w') ->
  stores_related (payload_update id) w w'.
Proof.
  intros Hrun.
  cbv [TimelineById.PUT try_catch bind ret throw pool_getConnection getBranchConnection
       connect execute binds_undefined end_ release
       Timelines.request_json run_statement table_of] in Hrun.
  split_run Hrun; injection Hrun as <- <-.
  all: first
    [ apply (stores_related_same _ (payload_update_refl id)); proj_simpl;
      [first [apply payload_update_refl | apply payload_update_alter] | reflexivity]
    | eapply (stores_related_branch _ (payload_update_refl id)); proj_simpl;
      [first [apply payload_update_refl | apply payload_update_alter]
      | eassumption | reflexivity | apply payload_update_alter] ].
Qed.

(** X12. A read never writes: in every run [GET] answers (200, 404 or 500, no
    error escapes), leaves the primary store and every branch as they
    were, and issues no statement that writes a row. *)
Theorem GET_is_read_only (w w' : World) (id : string) (resp : result Response) :
  TimelineById.GET id w = (resp, w') ->
  answers [200; 404; 500] resp /\
  same_stores w w' /\
  no_write (events_since w w').
Proof.
  intros Hrun.
  cbv [TimelineById.GET try_catch bind ret throw pool_getConnection getBranchConnection
       connect execute binds_undefined end_ release
       run_statement table_of] in Hrun.
  split_run Hrun; injection Hrun as <- <-.
  all: repeat match goal with
         | H : TimelineById.parse_if_string _ _ = _ |- _ =>
             rewrite parse_if_string_run in H; destruct (payload_of _) in H; simplify_eq
         end.
  all: trace_simpl.
  all: split; [eexists; split; [reflexivity|]; cbn; tauto|].
  all: split;
    [ constructor; proj_simpl; try reflexivity; apply insert_id; assumption
    | intros s op ok Hin; cbn [In] in Hin; split_ors; try contradiction;
      simplify_eq; reflexivity ].
Qed.

(** X13. No error escapes the write handlers either: [PUT] answers 200, 400,
    404 or 500 and [POST] answers 200, 400 or 500, in every run. *)
Theorem write_handlers_always_answer (w : World) :
  (forall id request, answers [200; 400; 404; 500] (fst (TimelineById.PUT id request w))) /\
  (forall request, answers [200; 400; 500] (fst (Timelines.POST request w))).
Proof.
  split.
  - intros id request.
    destruct (TimelineById.PUT id request w) as [resp w'] eqn:Hrun. cbn [fst].
    cbv [TimelineById.PUT try_catch bind ret throw pool_getConnection getBranchConnection
         connect execute binds_undefined end_ release
         Timelines.request_json run_statement table_of] in Hrun.
    split_run Hrun; injection Hrun as <- <-.
    all: eexists; split; [reflexivity|]; cbn; tauto.
  - intros request.
    destruct (Timelines.POST request w) as [resp w'] eqn:Hrun. cbn [fst].
    cbv [Timelines.POST try_catch bind ret throw pool_getConnection getBranchConnection
         connect execute binds_undefined end_ release
         Timelines.request_json run_statement table_of Timelines.generateId
         randomBytes_hex] in Hrun.
    split_run Hrun; injection Hrun as <- <-.
    all: eexists; split; [reflexivity|]; cbn; tauto.
Qed.

(** X11. An update of an id the primary store does not hold answers 404 and
    writes nothing: the only calls are the connection, the lookup and the
    release, and no branch is contacted. *)
Theorem PUT_unknown_id_writes_nothing (w : World) (id : string) (v : json) :
  primary_read_ok w id ->
  truthy v = true ->
  main w !! id = None ->
  fst (TimelineById.PUT id (Some {| TimelineById.treeData := Some v |}) w)
  = Ok (failure 404 "Timeline not found") /\
  same_stores w (snd (TimelineById.PUT id (Some {| TimelineById.treeData := Some v |}) w)) /\
  events_since w (snd (TimelineById.PUT id (Some {| TimelineById.treeData := Some v |}) w))
  = [EvDb Main Connect true; EvDb Main (Select id) true; EvDb Main Release true].
Proof.
  intros [Hconn Hsel] Hv Hrow.
  destruct (TimelineById.PUT id _ w) as [resp w'] eqn:Hrun. cbn [fst snd].
  cbv [TimelineById.PUT try_catch bind ret throw pool_getConnection getBranchConnection
       connect execute binds_undefined end_ release
       Timelines.request_json run_statement table_of] in Hrun.
  cbn [TimelineById.treeData truthy_opt] in Hrun. rewrite Hv in Hrun. cbn [negb] in Hrun.
  split_run Hrun; injection Hrun as <- <-; simplify_eq; trace_simpl.
  split; [reflexivity|]. split; [constructor; reflexivity | reflexivity].
Qed.

Lemma In_db_fetches_iff (fetches evs : list Event) s op ok :
  Forall (fun e => is_fetch e = true) fetches ->
  In (EvDb s op ok) (fetches ++ evs) <-> In (EvDb s op ok) evs.
Proof.
  intros Hf. split; [apply In_db_after_fetches, Hf|]. intros Hin. apply in_or_app. auto.
Qed.

Ltac settle_release :=
  unfold released, primary_failed;
  split;
  [ intros Hrel (op & Hin);
    try (apply In_db_after_fetches in Hrel; [|assumption]);
    try (apply In_db_after_fetches in Hin; [|assumption]);
    cbn [In] in *; split_ors; simplify_eq; try contradiction
  | intros Hok; rewrite ?In_db_fetches_iff by assumption; first
      [ cbn [In]; tauto
      | exfalso; apply Hok; eexists;
        first [ solve [cbn [In]; eauto 10]
              | apply in_or_app; right; cbn [In]; solve [eauto 10] ] ] ].

Ltac settle_answer :=
  unfold primary_failed; intros (op & Hin);
  try (apply In_db_after_fetches in Hin; [|assumption]);
  cbn [In] in Hin; split_ors; simplify_eq;
  try contradiction; eexists; split; reflexivity.

(** X14. The pooled connection of a handler is released exactly when no call
    on the primary store fails: after a statement that throws, the handler
    answers 500 without releasing the connection it holds. *)
Theorem pooled_connection_is_released_unless_a_statement_fails (w w' : World)
    (resp : result Response) :
  (exists id, TimelineById.GET id w = (resp, w')) \/
  (exists id request, TimelineById.PUT id request w = (resp, w')) \/
  (exists request, Timelines.POST request w = (resp, w')) ->
  In (EvDb Main Connect true) (events_since w w') ->
  (released (events_since w w') <-> ~ primary_failed (events_since w w')) /\
  (primary_failed (events_since w w') ->
   exists answer, resp = Ok answer /\ r_status answer = 500).
Proof.
  intros [(id & Hrun) | [(id & request & Hrun) | (request & Hrun)]] Hconn.
  - cbv [TimelineById.GET try_catch bind ret throw pool_getConnection getBranchConnection
         connect execute binds_undefined end_ release
         run_statement table_of] in Hrun.
    split_run Hrun; injection Hrun as <- <-.
    all: repeat match goal with
           | H : TimelineById.parse_if_string _ _ = _ |- _ =>
               rewrite parse_if_string_run in H; destruct (payload_of _) in H; simplify_eq
           end.
    all: trace_simpl; cbn [In] in Hconn; split_ors; simplify_eq; try contradiction.
    all: split; [settle_release | settle_answer].
  - cbv [TimelineById.PUT try_catch bind ret throw pool_getConnection getBranchConnection
         connect execute binds_undefined end_ release
         Timelines.request_json run_statement table_of] in Hrun.
    split_run Hrun; injection Hrun as <- <-.
    all: trace_simpl; cbn [In] in Hconn; split_ors; simplify_eq; try contradiction.
    all: split; [settle_release | settle_answer].
  - cbv [Timelines.POST try_catch bind ret throw pool_getConnection getBranchConnection
         connect execute binds_undefined end_ release
         Timelines.request_json run_statement table_of Timelines.generateId
         randomBytes_hex] in Hrun.
    split_run Hrun; injection Hrun as <- <-; try use_create_branch create_branch_frame;
      simplify_eq; post_trace.
    all: try (apply In_db_after_fetches in Hconn; [|assumption]).
    all: cbn [In] in Hconn; split_ors; simplify_eq; try contradiction.
    all: split; [settle_release | settle_answer].
Qed.

Lemma drawn_id_run (w : World) :
  String.substring 0 16 (match entropy w with s :: _ => s | [] => "" end) = drawn_id w.
Proof. unfold drawn_id. destruct (entropy w); reflexivity. Qed.

(** What a successful [POST] leaves behind. *)
Lemma POST_created (w w' : World) (request : option Timelines.PostBody) (resp : Response) :
  Timelines.POST request w = (Ok resp, w') ->
  r_status resp = 200 ->
  exists b branchId branchHost,
    request = Some b /\ valid b /\
    resp = created w b branchId branchHost /\
    main w !! drawn_id w = None /\
    main w' = <[drawn_id w := row_of (now w) (created_values w b branchId branchHost)]> (main w) /\
    fails w' = fails w /\
    (branches w' = branches w \/
     exists host table, branchHost = Some host /\ host <> "" /\
       branches w !! host = Some table /\
       branches w'
       = <[host := documented_upsert (now w) (created_values w b branchId branchHost) table]>
           (branches w)).
Proof.
  intros Hrun Hstatus.
  cbv [Timelines.POST try_catch bind ret throw pool_getConnection getBranchConnection
       connect execute binds_undefined end_ release
       Timelines.request_json run_statement table_of Timelines.generateId
       randomBytes_hex v_branch_id v_branch_host defined negb orb] in Hrun.
  split_run Hrun; injection Hrun as <- <-; try discriminate;
    try use_create_branch create_branch_frame; simplify_eq.
  all: cbn in Hstatus; try discriminate Hstatus.
  all: match goal with H : truthy_str (Timelines.sessionId ?b) = true |- _ => exists b end.
  all: first [ match goal with x : (field * field)%type |- _ =>
                 exists (bound (fst x)), (bound (snd x)); destruct x; cbn [fst snd] in *; subst end
             | exists None, None ].
  all: split; [reflexivity|]; split; [repeat split; assumption|].
  all: unfold created, created_values, drawn_id in *; proj_simpl.
  all: match goal with H : entropy _ = _ |- _ => rewrite H in * end.
  all: cbn [hd String.substring v_id bound of_nullable property app truthy_field truthy_str
            jopt default from_option] in *; unfold Datatypes.id in *.
  all: rewrite ?Hs1, ?Hs2, ?Hs3, ?Hs4 in *.
  all: split; [reflexivity|]; split; [assumption|]; split; [reflexivity|];
       split; [reflexivity|].
  all: first
    [ left; reflexivity
    | right; eexists _, _; split; [reflexivity|];
      split; [intros ->; discriminate|];
      split; [eassumption|]; unfold documented_upsert; cbn [v_id];
      match goal with H : ?t !! _ = _ |- context [?t !! _] => rewrite H end; reflexivity
    ].
Qed.

Lemma tidbCloudFetch_answer_is_a_reply (method path : string) (body : option json)
    (w w' : World) (r : FetchResponse) :
  tidbCloudFetch method path body w = (Ok r, w') ->
  In (Reply r) (replies w) /\ forall x, In x (replies w') -> In x (replies w).
Proof.
  intros Hrun.
  cbv [tidbCloudFetch bind getenv fetch randomBytes_hex throw ret] in Hrun.
  split_run Hrun; simplify_eq; proj_simpl.
  all: repeat match goal with H : replies _ = _ |- _ => rewrite H in * end; proj_simpl.
  all: repeat match goal with H : _ :: _ = _ :: _ |- _ => injection H as ? ?; subst end.
  all: split; [cbn [In]; tauto | intros x Hx; cbn [In]; tauto].
Qed.

Lemma create_branch_refused (timelineId : string) (w w' : World) (x : field * field) :
  (forall r, In (Reply r) (replies w) -> ok r = false) ->
  Timelines.create_branch timelineId w = (Ok x, w') ->
  x = (Null, Null).
Proof.
  intros Hrefused Hrun.
  cbv [Timelines.create_branch bind getenv try_catch throw ret response_json] in Hrun.
  split_run Hrun; simplify_eq; try reflexivity.
  all: exfalso.
  all: match goal with
       | H : tidbCloudFetch "POST" _ _ _ = (Ok ?r, _), Hok : ok ?r = true |- _ =>
           apply tidbCloudFetch_answer_is_a_reply in H as [H _];
           apply Hrefused in H; congruence
       end.
Qed.

(** X15. What the control plane can do to a creation.  With a valid body,
    a primary store that takes the insert and an id not yet in use:
    whenever the branch-creation block leaves [branchId] and [branchHost]
    defined, [POST] answers 200 and the primary store holds the new row
    with the payload sent, whatever the control plane answered and
    whatever fails on the branch; when no answer of the control plane is
    ok (no answer at all, refusals), both stay [null].  When the block
    leaves one of them [undefined] (an ok answer without [branchId] and
    [name], or ok details without an endpoint host), the driver refuses
    the insert: [POST] answers 500 and the primary store is as it was. *)
Theorem POST_fails_only_on_an_undefined_branch (w : World) (b : Timelines.PostBody) :
  valid b ->
  fails w Main Connect = false ->
  (forall v, v_id v = drawn_id w -> fails w Main (Insert v) = false) ->
  main w !! drawn_id w = None ->
  exists branchId branchHost,
    branch_block w b = Ok (branchId, branchHost) /\
    ((forall r, In (Reply r) (replies w) -> ok r = false) ->
     branchId = Null /\ branchHost = Null) /\
    if defined branchId && defined branchHost
    then
      fst (Timelines.POST (Some b) w) = Ok (created w b (bound branchId) (bound branchHost)) /\
      main (snd (Timelines.POST (Some b) w)) !! drawn_id w
      = Some (row_of (now w) (created_values w b (bound branchId) (bound branchHost))) /\
      forall key, key <> drawn_id w ->
        main (snd (Timelines.POST (Some b) w)) !! key = main w !! key
    else
      fst (Timelines.POST (Some b) w) = Ok (failure 500 "Failed to create timeline") /\
      main (snd (Timelines.POST (Some b) w)) = main w.
Proof.
  intros (Hsess & Hname & Htree) Hconn Hins Hfresh.
  destruct (Timelines.POST (Some b) w) as [resp w'] eqn:Hrun. cbn [fst snd].
  unfold branch_block, created, created_values, drawn_id in *.
  cbv [Timelines.POST try_catch bind ret throw pool_getConnection getBranchConnection
       connect execute binds_undefined end_ release
       Timelines.request_json run_statement table_of Timelines.generateId
       randomBytes_hex v_branch_id v_branch_host defined negb orb] in Hrun |- *.
  rewrite Hsess, Hname, Htree in Hrun.
  destruct (entropy w) as [|hex rest] eqn:Hentropy; cbn [hd fst snd] in *.
  all: destruct (Timelines.createBranch b) eqn:Hcreate.
  all: try match goal with
       | |- context [Timelines.create_branch ?i ?w0] =>
           destruct (Timelines.create_branch i w0) as [r wb] eqn:Hblock;
           pose proof (create_branch_frame _ _ _ _ Hblock) as ([[branchId branchHost] ->] & Hs & _);
           pose proof (fun H => create_branch_refused _ _ _ _ H Hblock) as Hrefused;
           destruct Hs as [Hs1 Hs2 Hs3 Hs4 Hs5]; proj_simpl;
           exists branchId, branchHost
       | _ => exists Null, Null
       end.
  all: cbn [fst snd] in *.
  all: (split; [reflexivity|]);
       (split; [first [ intros _; split; reflexivity
                      | intros Hno; apply Hrefused in Hno; injection Hno as -> ->;
                        split; reflexivity ]|]).
  all: clear Hrefused || idtac.
  all: try (destruct branchId, branchHost); cbn [andb] in *.
  all: split_run Hrun; simplify_eq; proj_simpl.
  all: rewrite ?Hs1, ?Hs2, ?Hs4 in *.
  all: try congruence.
  all: try match goal with H : fails _ Main (Insert _) = true |- _ =>
         rewrite Hins in H by reflexivity; discriminate
       end.
  all: cbn [bound of_nullable property app truthy_field truthy_str jopt
            default from_option v_id] in *; unfold Datatypes.id in *.
  all: try (exfalso; match goal with
            | H1 : ?m !! ?k = Some _, H2 : ?m !! ?k = None |- _ =>
                rewrite H1 in H2; discriminate
            end).
  all: first [ split; [reflexivity|]; split; [apply lookup_insert_eq|];
               intros key Hne; apply lookup_insert_ne; congruence
             | split; reflexivity
             ].
Qed.

(** X16. Create, then read: after a creation that answered 200, with the new
    id not yet present in any branch, a read of the returned id whose
    primary calls go through answers with the payload sent, whichever
    store it comes from. *)
Theorem POST_then_GET_reads_back (w w' : World) (request : option Timelines.PostBody)
    (resp : Response) :
  Timelines.POST request w = (Ok resp, w') ->
  r_status resp = 200 ->
  (forall host table, branches w !! host = Some table -> table !! drawn_id w = None) ->
  primary_read_ok w' (drawn_id w) ->
  exists b branchId branchHost source,
    request = Some b /\
    resp = created w b branchId branchHost /\
    forall p, decodes (JSON_stringify (default JNull (Timelines.treeData b))) p ->
      fst (TimelineById.GET (drawn_id w) w')
      = Ok (fetched (row_of (now w) (created_values w b branchId branchHost)) p source).
Proof.
  intros Hrun Hstatus Hfresh Hread.
  apply POST_created in Hrun
    as (b & branchId & branchHost & -> & _ & -> & _ & Hmain & _ & Hbranch); [|exact Hstatus].
  assert (main w' !! drawn_id w
          = Some (row_of (now w) (created_values w b branchId branchHost))) as Hrow
    by (rewrite Hmain; apply lookup_insert_eq).
  destruct (GET_answer w' _ _ Hread Hrow) as (read & source & Hfrom & Hget).
  exists b, branchId, branchHost, source. split; [reflexivity|]. split; [reflexivity|].
  intros p Hp. rewrite Hget.
  assert (tree_data read = JSON_stringify (default JNull (Timelines.treeData b))) as Htext.
  { destruct Hfrom as [[_ ->] | (_ & host & table & [Hhost Hne] & Htable & Hread')];
      [reflexivity|].
    destruct Hbranch as [Hsame | (h & t & -> & _ & Ht & Hb)].
    - rewrite Hsame in Htable. rewrite (Hfresh _ _ Htable) in Hread'. discriminate.
    - cbn in Hhost. injection Hhost as ->.
      rewrite Hb, lookup_insert_eq in Htable. injection Htable as <-.
      unfold documented_upsert in Hread'. cbn [v_id created_values] in Hread'.
      rewrite (Hfresh _ _ Ht), lookup_insert_eq in Hread'.
      injection Hread' as <-. reflexivity. }
  assert (payload_of read = Some p) as -> by (apply payload_of_decodes; rewrite Htext; exact Hp).
  reflexivity.
Qed.

(** X17. A creation never overwrites: in every run of [POST] each row the
    primary store held is still there unchanged, and when the id drawn is
    already in use the insert is refused, the answer is 500 or 400, the
    primary store is as it was and no branch is contacted. *)
Theorem POST_never_overwrites (w w' : World) (request : option Timelines.PostBody)
    (resp : result Response) :
  Timelines.POST request w = (resp, w') ->
  (forall key row, main w !! key = Some row -> main w' !! key = Some row) /\
  (is_Some (main w !! drawn_id w) ->
   answers [400; 500] resp /\ main w' = main w /\ branch_calls (events_since w w') = []).
Proof.
  intros Hrun.
  cbv [Timelines.POST try_catch bind ret throw pool_getConnection getBranchConnection
       connect execute binds_undefined end_ release
       Timelines.request_json run_statement table_of Timelines.generateId
       randomBytes_hex] in Hrun.
  unfold drawn_id.
  split_run Hrun; injection Hrun as <- <-; try use_create_branch create_branch_frame;
    simplify_eq; post_trace.
  all: rewrite ?Hs2 in *.
  all: match goal with
       | H : entropy _ = _ |- _ => rewrite H in *
       | _ => idtac
       end.
  all: cbn [hd String.substring v_id] in *.
  all: split;
    [ intros key row Hkey;
      first [exact Hkey | rewrite lookup_insert_ne; [exact Hkey | congruence]]
    | intros [row Hrow];
      first [ congruence
            | split; [eexists; split; [reflexivity|]; cbn; tauto|];
              split; [reflexivity|];
              rewrite ?branch_calls_after_fetches by assumption; reflexivity ] ].
Qed.

Lemma create_branch_unconfigured (timelineId : string) (w : World) :
  truthy_str (TIDB_CLOUD_CLUSTER_ID w) = false ->
  Timelines.create_branch timelineId w = (Ok (Null, Null), w).
Proof.
  intros H. cbv [Timelines.create_branch bind getenv ret]. rewrite H. reflexivity.
Qed.

(** X18. Without a branch request, or without a configured cluster, a creation
    stays local: no control-plane request is sent, no branch store is
    contacted, and on success the record is stored and reported without a
    branch. *)
Theorem POST_without_branching_stays_local (w w' : World) (b : Timelines.PostBody)
    (resp : result Response) :
  Timelines.POST (Some b) w = (resp, w') ->
  Timelines.createBranch b = false \/ truthy_str (TIDB_CLOUD_CLUSTER_ID w) = false ->
  Forall (fun e => is_fetch e = false) (events_since w w') /\
  branch_calls (events_since w w') = [] /\
  (forall answer, resp = Ok answer -> r_status answer = 200 ->
     answer = created w b None None /\
     main w' !! drawn_id w = Some (row_of (now w) (created_values w b None None))).
Proof.
  intros Hrun Hlocal.
  cbv [Timelines.POST try_catch bind ret throw pool_getConnection getBranchConnection
       connect execute binds_undefined end_ release
       Timelines.request_json run_statement table_of Timelines.generateId
       randomBytes_hex] in Hrun.
  unfold drawn_id, created, created_values, drawn_id.
  split_run Hrun; injection Hrun as <- <-.
  all: try match goal with
       | H : Timelines.create_branch _ _ = _ |- _ =>
           destruct Hlocal as [Hlocal | Hlocal]; [congruence|];
           rewrite create_branch_unconfigured in H by exact Hlocal;
           simplify_eq
       end.
  all: simplify_eq; trace_simpl.
  all: match goal with
       | H : entropy _ = _ |- _ => rewrite H in *
       | _ => idtac
       end.
  all: cbn [hd String.substring v_id fst snd] in *.
  all: try discriminate.
  all: split; [repeat constructor|]; split; [reflexivity|].
  all: intros answer [= <-] Hstatus; try discriminate Hstatus.
  all: split; [reflexivity|]; apply lookup_insert_eq.
Qed.

(** *** The control-plane call *)

(** X19. An answer other than 401 is final: with both keys configured,
    [tidbCloudFetch] sends the request once, without credentials, and
    returns the answer as it is; no random bytes are drawn and the later
    answers of the control plane are left unread. *)
Theorem tidbCloudFetch_returns_an_unchallenged_answer (w : World) (method path : string)
    (body : option json) (answer : FetchResponse) (rest : list FetchReply) :
  keys_configured w = true ->
  replies w = Reply answer :: rest ->
  status answer <> 401 ->
  fst (tidbCloudFetch method path body w) = Ok answer /\
  events_since w (snd (tidbCloudFetch method path body w))
  = [EvFetch (control_request method path body None)] /\
  replies (snd (tidbCloudFetch method path body w)) = rest /\
  entropy (snd (tidbCloudFetch method path body w)) = entropy w.
Proof.
  intros Hkeys Hreplies Hstatus.
  apply andb_true_iff in Hkeys as [Hpk Hsk].
  destruct (tidbCloudFetch method path body w) as [resp w'] eqn:Hrun. cbn [fst snd].
  cbv [tidbCloudFetch bind getenv fetch randomBytes_hex throw ret] in Hrun.
  rewrite Hpk, Hsk in Hrun. cbn [negb orb] in Hrun. rewrite Hreplies in Hrun. proj_simpl.
  apply Z.eqb_neq in Hstatus. rewrite Hstatus in Hrun. cbn [negb] in Hrun.
  injection Hrun as <- <-. trace_simpl. repeat split; reflexivity.
Qed.

(** X20. [tidbCloudFetch] sends at most two requests, to the same URL with the
    same method and body: none when a key is missing (the call then fails
    with the world untouched), one without credentials, and a second one,
    with credentials, only after a 401 answer to the first.  It never
    touches a store. *)
Theorem tidbCloudFetch_sends_at_most_two_requests (w w' : World) (method path : string)
    (body : option json) (resp : result FetchResponse) :
  tidbCloudFetch method path body w = (resp, w') ->
  same_stores w w' /\
  ((keys_configured w = false /\ resp = Throw "TiDB Cloud API keys not configured" /\ w' = w)
   \/ (keys_configured w = true /\
       events_since w w' = [EvFetch (control_request method path body None)])
   \/ (keys_configured w = true /\
       exists challenge rest credentials,
         replies w = Reply challenge :: rest /\ status challenge = 401 /\
         events_since w w'
         = [EvFetch (control_request method path body None);
            EvFetch (control_request method path body (Some credentials))])).
Proof.
  intros Hrun. unfold keys_configured.
  cbv [tidbCloudFetch bind getenv fetch randomBytes_hex throw ret] in Hrun.
  split_run Hrun; injection Hrun as <- <-.
  all: split; [constructor; reflexivity|].
  all: repeat match goal with
         | H : negb _ || negb _ = false |- _ => apply orb_false_iff in H as [? ?]
         | H : negb _ || negb _ = true |- _ => apply orb_true_iff in H as [H | H]
         | H : negb _ = false |- _ => apply (proj1 (negb_false_iff _)) in H
         | H : negb _ = true |- _ => apply (proj1 (negb_true_iff _)) in H
         end.
  all: trace_simpl.
  all: try (left; split; [|split; reflexivity];
            match goal with H : truthy_str _ = false |- _ => rewrite H end;
            rewrite ?andb_false_r; reflexivity).
  all: match goal with Hp : truthy_str _ = true, Hs : truthy_str _ = true |- _ =>
         rewrite Hp, Hs end.
  all: unfold control_request, serialized.
  all: repeat match goal with H : truthy _ = _ |- _ => rewrite H end.
  all: first
    [ right; left; split; reflexivity
    | right; right; split; [reflexivity|];
      match goal with H : (status _ =? 401) = true |- _ => apply Z.eqb_eq in H end;
      eexists _, _, _; split; [reflexivity|]; split; [eassumption|]; reflexivity ].
Qed.

(** *** The branches route *)

Import Branches.

Lemma NextResponse_json_run (status : Z) (body : json) (w : World) :
  NextResponse_json status body w
  = if presentable status then (Ok (respond status body), w)
    else (Throw (if (status <? 200) || (599 <? status) then "RangeError" else "TypeError"), w).
Proof.
  unfold NextResponse_json, presentable, throw, ret.
  destruct (status <? 200) eqn:H1; [replace (200 <=? status) with false by lia; reflexivity|].
  replace (200 <=? status) with true by lia.
  destruct (599 <? status) eqn:H2; [replace (status <=? 599) with false by lia; reflexivity|].
  replace (status <=? 599) with true by lia. cbn [orb andb].
  destruct ((status =? 204) || (status =? 205) || (status =? 304)); reflexivity.
Qed.

(** X22. The branch routes only talk to the control plane: in every run they
    answer (no error escapes), no store is touched, and the only calls
    made are control-plane requests; without a configured cluster they
    answer 500 before any request. *)
Theorem branch_routes_only_call_the_control_plane (w w' : World)
    (resp : result Response) :
  (exists request, Branches.POST request w = (resp, w')) \/
  Branches.GET w = (resp, w') \/
  (exists request, Branches.DELETE request w = (resp, w')) ->
  (exists answer, resp = Ok answer) /\
  same_stores w w' /\ only_fetches w w' /\
  (truthy_str (TIDB_CLOUD_CLUSTER_ID w) = false ->
   w' = w /\ exists answer, resp = Ok answer /\ r_status answer = 500).
Proof.
  intros [(request & Hrun) | [Hrun | (request & Hrun)]].
  - cbv [Branches.POST try_catch bind ret throw getenv Timelines.request_json
         response_value] in Hrun.
    split_run Hrun; injection Hrun as <- <-.
    all: repeat match goal with
           | H : NextResponse_json _ _ _ = _ |- _ =>
               rewrite NextResponse_json_run in H; destruct (presentable _) in H;
               simplify_eq
           | H : tidbCloudFetch _ _ _ _ = _ |- _ =>
               apply tidbCloudFetch_frame in H as [? ?]
           end.
    all: split; [eexists; reflexivity|].
    all: split; [eauto using same_stores_refl|].
    all: split; [eauto using only_fetches_refl|].
    all: intros Hcluster;
         repeat match goal with
                | H : negb _ = false |- _ => apply (proj1 (negb_false_iff _)) in H
                end;
         try congruence.
    all: split; [reflexivity|]; eexists; split; reflexivity.
  - cbv [Branches.GET try_catch bind ret throw getenv Timelines.request_json
         response_value get_property] in Hrun.
    split_run Hrun; injection Hrun as <- <-.
    all: repeat match goal with
           | H : NextResponse_json _ _ _ = _ |- _ =>
               rewrite NextResponse_json_run in H; destruct (presentable _) in H;
               simplify_eq
           | H : tidbCloudFetch _ _ _ _ = _ |- _ =>
               apply tidbCloudFetch_frame in H as [? ?]
           end.
    all: split; [eexists; reflexivity|].
    all: split; [eauto using same_stores_refl|].
    all: split; [eauto using only_fetches_refl|].
    all: intros Hcluster;
         repeat match goal with
                | H : negb _ = false |- _ => apply (proj1 (negb_false_iff _)) in H
                end;
         try congruence.
    all: split; [reflexivity|]; eexists; split; reflexivity.
  - cbv [Branches.DELETE try_catch bind ret throw getenv Timelines.request_json
         response_value] in Hrun.
    split_run Hrun; injection Hrun as <- <-.
    all: repeat match goal with
           | H : NextResponse_json _ _ _ = _ |- _ =>
               rewrite NextResponse_json_run in H; destruct (presentable _) in H;
               simplify_eq
           | H : tidbCloudFetch _ _ _ _ = _ |- _ =>
               apply tidbCloudFetch_frame in H as [? ?]
           end.
    all: split; [eexists; reflexivity|].
    all: split; [eauto using same_stores_refl|].
    all: split; [eauto using only_fetches_refl|].
    all: intros Hcluster;
         repeat match goal with
                | H : negb _ = false |- _ => apply (proj1 (negb_false_iff _)) in H
                end;
         try congruence.
    all: split; [reflexivity|]; eexists; split; reflexivity.
Qed.

Ltac run_branch_route Hcluster Hne :=
  cbv [Branches.POST Branches.GET Branches.DELETE try_catch bind ret throw getenv
       Timelines.request_json response_value get_property];
  rewrite Hcluster; rewrite ?(truthy_str_ne _ Hne);
  cbn [negb default from_option]; unfold Datatypes.id in *.

(** X23. A refusal of the control plane is passed on: when its final answer is
    not ok, each route answers with that same status and an error naming
    it, or with 500 when the status is one no response can carry with a
    body (304, or outside 200..599). *)
Theorem branch_routes_pass_a_refusal_on (w w1 : World) (clusterId : string)
    (r : FetchResponse) :
  TIDB_CLOUD_CLUSTER_ID w = Some clusterId -> clusterId <> "" ->
  ok r = false ->
  (forall b, truthy_str (branchName b) = true ->
     tidbCloudFetch "POST" (collection clusterId) (Some (creation b)) w = (Ok r, w1) ->
     Branches.POST (Some b) w
     = (Ok (passed_on "Failed to create branch: " "Failed to create branch" (status r)), w1))
  /\
  (tidbCloudFetch "GET" (collection clusterId) None w = (Ok r, w1) ->
   Branches.GET w
   = (Ok (passed_on "Failed to list branches: " "Failed to list branches" (status r)), w1))
  /\
  (forall b id, branchId b = Some id -> id <> "" ->
     tidbCloudFetch "DELETE" (member clusterId id) None w = (Ok r, w1) ->
     Branches.DELETE (Some b) w
     = (Ok (passed_on "Failed to delete branch: " "Failed to delete branch" (status r)), w1)).
Proof.
  intros Hcluster Hne Hok. unfold collection, member, creation, passed_on.
  split; [|split].
  - intros b Hname Hrun. run_branch_route Hcluster Hne.
    rewrite Hname. cbn [negb]. rewrite Hrun, Hok. cbn [negb].
    rewrite NextResponse_json_run. destruct (presentable (status r)); reflexivity.
  - intros Hrun. run_branch_route Hcluster Hne.
    rewrite Hrun, Hok. cbn [negb].
    rewrite NextResponse_json_run. destruct (presentable (status r)); reflexivity.
  - intros b id Hid Hidne Hrun. run_branch_route Hcluster Hne.
    rewrite Hid, (truthy_str_ne _ Hidne). cbn [negb default from_option].
    unfold Datatypes.id in *. rewrite Hrun, Hok. cbn [negb].
    rewrite NextResponse_json_run. destruct (presentable (status r)); reflexivity.
Qed.

(** X24. What the routes make of an ok answer: [POST] hands on the body as
    [branch], and answers 500 when the body is not JSON although the
    branch was created; [GET] hands on the [branches] property of the
    listing, the empty array when it is missing or falsy, and answers 500
    on a [null] listing; [DELETE] does not read the body at all. *)
Theorem branch_routes_on_success (w w1 : World) (clusterId : string) (r : FetchResponse) :
  TIDB_CLOUD_CLUSTER_ID w = Some clusterId -> clusterId <> "" ->
  ok r = true ->
  (forall b, truthy_str (branchName b) = true ->
     tidbCloudFetch "POST" (collection clusterId) (Some (creation b)) w = (Ok r, w1) ->
     Branches.POST (Some b) w
     = (match JSON_parse (text r) with
        | Some data => Ok (respond 200 (JObj [("success", JBool true); ("branch", data)]))
        | None => Ok (failure 500 "Failed to create branch")
        end, w1))
  /\
  (tidbCloudFetch "GET" (collection clusterId) None w = (Ok r, w1) ->
   Branches.GET w
   = (match JSON_parse (text r) with
      | Some JNull | None => Ok (failure 500 "Failed to list branches")
      | Some data =>
          Ok (respond 200 (JObj [("success", JBool true);
                                 ("branches", or_empty_array (listed data))]))
      end, w1))
  /\
  (forall b id, branchId b = Some id -> id <> "" ->
     tidbCloudFetch "DELETE" (member clusterId id) None w = (Ok r, w1) ->
     Branches.DELETE (Some b) w
     = (Ok (respond 200 (JObj [("success", JBool true);
                               ("message", JStr "Branch deleted successfully")])), w1)).
Proof.
  intros Hcluster Hne Hok. unfold collection, member, creation, listed.
  split; [|split].
  - intros b Hname Hrun. run_branch_route Hcluster Hne.
    rewrite Hname. cbn [negb]. rewrite Hrun, Hok. cbn [negb].
    destruct (JSON_parse (text r)); reflexivity.
  - intros Hrun. run_branch_route Hcluster Hne.
    rewrite Hrun, Hok. cbn [negb].
    destruct (JSON_parse (text r)) as [[]|]; reflexivity.
  - intros b id Hid Hidne Hrun. run_branch_route Hcluster Hne.
    rewrite Hid, (truthy_str_ne _ Hidne). cbn [negb default from_option].
    unfold Datatypes.id in *. rewrite Hrun, Hok. reflexivity.
Qed.

End Runs.

Section TextProofs.
Import TidbCloud RateLimit Generate Behaviour.

Lemma append_cons (x : Ascii.ascii) (a b : string) : String x a ++ b = String x (a ++ b).
Proof. reflexivity. Qed.

Lemma append_nil (b : string) : "" ++ b = b.
Proof. reflexivity. Qed.

Lemma string_app_assoc (a b c : string) : (a ++ b) ++ c = a ++ (b ++ c).
Proof.
  induction a as [|x a IH]; rewrite ?append_cons, ?append_nil; [reflexivity|].
  f_equal. exact IH.
Qed.

Lemma string_app_nil_r (a : string) : a ++ "" = a.
Proof.
  induction a as [|x a IH]; rewrite ?append_cons, ?append_nil; [reflexivity|].
  f_equal. exact IH.
Qed.

Lemma strip_prefix_Some (p s rest : string) :
  strip_prefix p s = Some rest <-> s = p ++ rest.
Proof.
  revert s. induction p as [|a p IH]; intros s;
    rewrite ?append_cons, ?append_nil; cbn [strip_prefix].
  - split; congruence.
  - destruct s as [|b s]; [split; discriminate|].
    destruct (Ascii.eqb_spec a b) as [->|Hne].
    + rewrite IH. split; congruence.
    + split; [discriminate | congruence].
Qed.

Lemma span_unquoted_spec (s : string) :
  s = fst (span_unquoted s) ++ snd (span_unquoted s) /\
  free_of (Ascii.ascii_of_nat 34) (fst (span_unquoted s)) = true /\
  (snd (span_unquoted s) = "" \/
   exists rest, snd (span_unquoted s) = String (Ascii.ascii_of_nat 34) rest).
Proof.
  induction s as [|c s IH]; cbn [span_unquoted].
  - cbn [fst snd free_of]. rewrite append_nil. auto.
  - destruct (Ascii.eqb_spec c (Ascii.ascii_of_nat 34)) as [->|Hne].
    + cbn [fst snd free_of]. rewrite append_nil. eauto.
    + destruct (span_unquoted s) as [v rest]. cbn [fst snd] in *.
      destruct IH as (Hs & Hfree & Hrest). split; [rewrite append_cons; congruence|].
      split; [|exact Hrest]. cbn [free_of]. rewrite Hfree.
      apply Ascii.eqb_neq in Hne. rewrite Hne. reflexivity.
Qed.

Lemma span_unquoted_app (v rest : string) :
  free_of (Ascii.ascii_of_nat 34) v = true ->
  span_unquoted (v ++ String (Ascii.ascii_of_nat 34) rest)
  = (v, String (Ascii.ascii_of_nat 34) rest).
Proof.
  induction v as [|c v IH]; intros Hfree.
  - rewrite ?append_cons, ?append_nil; cbn [span_unquoted]. rewrite Ascii.eqb_refl. reflexivity.
  - cbn [free_of] in Hfree. apply andb_true_iff in Hfree as [Hc Hv].
    rewrite ?append_cons, ?append_nil; cbn [span_unquoted]. apply negb_true_iff in Hc. rewrite Hc, (IH Hv). reflexivity.
Qed.

Lemma match_here_Some (key s v : string) :
  match_here key s = Some v <->
  v <> "" /\ free_of (Ascii.ascii_of_nat 34) v = true /\
  exists after, s = key ++ "=" ++ quoted v ++ after.
Proof.
  unfold match_here, quoted. split.
  - destruct (strip_prefix _ s) as [rest|] eqn:Hp; [|discriminate].
    apply strip_prefix_Some in Hp.
    destruct (span_unquoted_spec rest) as (Hrest & Hfree & Hq).
    destruct (span_unquoted rest) as [v' tail]. cbn [fst snd] in *.
    destruct v' as [|c v']; [discriminate|].
    destruct tail as [|q tail]; [discriminate|].
    intros [= <-]. split; [discriminate|]. split; [exact Hfree|].
    destruct Hq as [Hq | (tail' & Hq)]; [discriminate|]. injection Hq as -> ->.
    exists tail'. rewrite Hp, Hrest, !string_app_assoc. reflexivity.
  - intros (Hne & Hfree & after & ->).
    assert (strip_prefix (key ++ "=" ++ dquote)
              (key ++ "=" ++ (dquote ++ v ++ dquote) ++ after)
            = Some (v ++ String (Ascii.ascii_of_nat 34) after)) as ->.
    { apply strip_prefix_Some. rewrite !string_app_assoc. reflexivity. }
    rewrite span_unquoted_app by exact Hfree.
    destruct v; [contradiction | reflexivity].
Qed.

(** X21. What the pattern extracts: a token is found exactly when the header
    carries one for the key, and the value handed back is a non-empty
    quote-free value that stands in the header between [key=Q] and [Q]. *)
Theorem match_group_extracts_a_quoted_token (key header : string) :
  (forall value, match_group key header = Some value -> carries key value header) /\
  (forall value, carries key value header -> has_token key header = true).
Proof.
  split.
  - induction header as [|c header IH]; intros value; cbn [match_group].
    + destruct (match_here key "") as [v|] eqn:Hhere; [|discriminate].
      intros [= ->]. apply match_here_Some in Hhere as (Hne & Hfree & after & Heq).
      split; [exact Hne|]. split; [exact Hfree|]. exists "", after. exact Heq.
    + destruct (match_here key (String c header)) as [v|] eqn:Hhere.
      * intros [= ->]. apply match_here_Some in Hhere as (Hne & Hfree & after & Heq).
        split; [exact Hne|]. split; [exact Hfree|]. exists "", after. exact Heq.
      * intros Hrest. destruct (IH value Hrest) as (Hne & Hfree & before & after & Heq).
        split; [exact Hne|]. split; [exact Hfree|].
        exists (String c before), after. rewrite append_cons, Heq. reflexivity.
  - intros value (Hne & Hfree & before & after & ->). unfold has_token.
    induction before as [|c before IH].
    + rewrite append_nil.
      assert (match_here key (key ++ "=" ++ quoted value ++ after) = Some value) as Hhere
        by (apply match_here_Some; eauto).
      destruct (key ++ "=" ++ quoted value ++ after); cbn [match_group]; rewrite Hhere;
        reflexivity.
    + rewrite append_cons. cbn [match_group]. destruct (match_here key _); [reflexivity | exact IH].
Qed.

Lemma reverse_onto_app (s acc : string) : reverse_onto s acc = reverse s ++ acc.
Proof.
  revert acc. induction s as [|c s IH]; intros acc; unfold reverse; cbn [reverse_onto].
  - reflexivity.
  - rewrite (IH (String c acc)), (IH (String c "")), string_app_assoc. reflexivity.
Qed.

Lemma reverse_cons (c : Ascii.ascii) (s : string) : reverse (String c s) = reverse s ++ String c "".
Proof. unfold reverse at 1. cbn [reverse_onto]. apply reverse_onto_app. Qed.

Lemma reverse_app (a b : string) : reverse (a ++ b) = reverse b ++ reverse a.
Proof.
  induction a as [|c a IH]; rewrite ?append_cons, ?append_nil.
  - change (reverse "") with "". rewrite string_app_nil_r. reflexivity.
  - rewrite !reverse_cons, IH, string_app_assoc. reflexivity.
Qed.

Lemma reverse_involutive (s : string) : reverse (reverse s) = s.
Proof.
  induction s as [|c s IH]; [reflexivity|].
  rewrite reverse_cons, reverse_app, IH. reflexivity.
Qed.

Lemma string_length_app (a b : string) :
  String.length (a ++ b) = (String.length a + String.length b)%nat.
Proof.
  induction a as [|c a IH]; rewrite ?append_cons, ?append_nil; cbn [String.length];
    [reflexivity|]. rewrite IH. reflexivity.
Qed.

(** Tests on bytes as arithmetic. *)
Ltac bytes :=
  unfold space1, space2, space3, continuation, plain in *;
  repeat match goal with
         | H : _ && _ = true |- _ => apply andb_true_iff in H as [? ?]
         | H : _ || _ = true |- _ => apply orb_true_iff in H as [?|?]
         | H : negb _ = true |- _ => apply (proj1 (negb_true_iff _)) in H
         | H : negb _ = false |- _ => apply (proj1 (negb_false_iff _)) in H
         | H : (_ =? _)%nat = true |- _ => apply Nat.eqb_eq in H
         | H : (_ <=? _)%nat = true |- _ => apply Nat.leb_le in H
         | H : (_ <? _)%nat = true |- _ => apply Nat.ltb_lt in H
         | H : Ascii.eqb _ _ = true |- _ => apply Ascii.eqb_eq in H; subst
         end.

Ltac bytes_false :=
  apply not_true_is_false; intros ?; bytes; try lia.

Lemma space2_bytes (a b : Ascii.ascii) :
  space2 a b = true ->
  space1 a = false /\ continuation a = false /\ continuation b = true.
Proof.
  intros H. bytes. repeat split; [bytes_false | bytes_false |].
  unfold continuation. apply andb_true_iff. split; apply Nat.leb_le; lia.
Qed.

Lemma space3_bytes (a b c : Ascii.ascii) :
  space3 a b c = true ->
  space1 a = false /\ continuation a = false /\ continuation b = true /\
  continuation c = true.
Proof.
  intros H.
  assert (code a >= 225 /\ 128 <= code b <= 191 /\ 128 <= code c <= 191)%nat as (Ha & Hb & Hc)
    by (bytes; lia).
  repeat split; try bytes_false.
  all: unfold continuation; apply andb_true_iff; split; apply Nat.leb_le; lia.
Qed.

Lemma space1_bytes (a : Ascii.ascii) :
  space1 a = true -> continuation a = false.
Proof. intros H. bytes_false. Qed.

Lemma plain_bytes (c : Ascii.ascii) :
  plain c = true -> space1 c = false /\ continuation c = false /\
  (forall b, space2 c b = false) /\ (forall b d, space3 c b d = false).
Proof.
  intros H. unfold plain in H. apply andb_true_iff in H as [Hlow Hno].
  apply negb_true_iff in Hno. apply Nat.ltb_lt in Hlow.
  split; [exact Hno|]. split; [bytes_false|]. split; intros; bytes_false.
Qed.

(** Induction along the white space of a text. *)
Lemma all_space_ind (P : string -> Prop) :
  P "" ->
  (forall a rest, space1 a = true -> all_space rest = true -> P rest -> P (String a rest)) ->
  (forall a b rest, space1 a = false -> space2 a b = true -> all_space rest = true ->
     P rest -> P (String a (String b rest))) ->
  (forall a b c rest, space1 a = false -> space2 a b = false -> space3 a b c = true ->
     all_space rest = true -> P rest -> P (String a (String b (String c rest)))) ->
  forall s, all_space s = true -> P s.
Proof.
  intros Hnil H1 H2 H3 s.
  assert (forall n s, (String.length s <= n)%nat -> all_space s = true -> P s) as Hall.
  { clear s. induction n as [|n IH]; intros s Hlen Hs.
    - destruct s; [exact Hnil | cbn in Hlen; lia].
    - destruct s as [|a rest]; [exact Hnil|]. cbn [all_space String.length] in *.
      destruct (space1 a) eqn:Ha; [apply H1; auto; apply IH; auto; lia|].
      destruct rest as [|b rest2]; [discriminate|]. cbn [String.length] in *.
      destruct (space2 a b) eqn:Hb; [apply H2; auto; apply IH; auto; lia|].
      destruct rest2 as [|c rest3]; [discriminate|]. cbn [String.length] in *.
      apply andb_true_iff in Hs as [Hc Hs]. apply H3; auto. apply IH; auto; lia. }
  apply (Hall (String.length s)). lia.
Qed.

(** Induction on the length of a text. *)
Lemma string_length_ind (P : string -> Prop) :
  (forall s, (forall t, (String.length t < String.length s)%nat -> P t) -> P s) ->
  forall s, P s.
Proof.
  intros Hstep s.
  assert (forall n t, (String.length t < n)%nat -> P t) as Hall.
  { induction n as [|n IH]; intros t Hlen; [lia|].
    apply Hstep. intros u Hu. apply IH. lia. }
  apply (Hall (S (String.length s))). lia.
Qed.

Lemma all_space_starts_clean (s : string) : all_space s = true -> starts_clean s = true.
Proof.
  destruct s as [|a rest]; [reflexivity|]. cbn [all_space starts_clean]. intros H.
  apply negb_true_iff.
  destruct (space1 a) eqn:Ha; [apply space1_bytes, Ha|].
  destruct rest as [|b rest2]; [discriminate|].
  destruct (space2 a b) eqn:Hb; [apply space2_bytes in Hb; tauto|].
  destruct rest2 as [|c rest3]; [discriminate|].
  apply andb_true_iff in H as [Hc _]. apply space3_bytes in Hc. tauto.
Qed.

Lemma all_space_app_l (ws s : string) :
  all_space ws = true -> all_space (ws ++ s) = all_space s.
Proof.
  revert ws. apply (all_space_ind (fun ws => all_space (ws ++ s) = all_space s)).
  - reflexivity.
  - intros a rest Ha _ IH. rewrite append_cons. cbn [all_space]. rewrite Ha. exact IH.
  - intros a b rest Ha Hb _ IH. rewrite !append_cons. cbn [all_space].
    rewrite Ha, Hb. exact IH.
  - intros a b c rest Ha Hb Hc _ IH. rewrite !append_cons. cbn [all_space].
    rewrite Ha, Hb, Hc. exact IH.
Qed.

Lemma trim_start_space (ws s : string) :
  all_space ws = true -> trim_start (ws ++ s) = trim_start s.
Proof.
  revert ws. apply (all_space_ind (fun ws => trim_start (ws ++ s) = trim_start s)).
  - reflexivity.
  - intros a rest Ha _ IH. rewrite append_cons. cbn [trim_start]. rewrite Ha. exact IH.
  - intros a b rest Ha Hb _ IH. rewrite !append_cons. cbn [trim_start].
    rewrite Ha, Hb. exact IH.
  - intros a b c rest Ha Hb Hc _ IH. rewrite !append_cons. cbn [trim_start].
    rewrite Ha, Hb, Hc. exact IH.
Qed.

Lemma trim_start_all_space (s : string) : all_space s = true -> trim_start s = "".
Proof.
  intros Hs. rewrite <- (string_app_nil_r s), trim_start_space by exact Hs. reflexivity.
Qed.

(** A text that is not white space only stays so when a text follows that
    does not begin inside an encoding, and loses the same white space at
    its start. *)
Lemma not_all_space_app (s t : string) :
  all_space s = false -> starts_clean t = true ->
  all_space (s ++ t) = false /\ trim_start (s ++ t) = trim_start s ++ t.
Proof.
  intros Hs Ht. revert Hs. induction s as [s IH] using string_length_ind. intros Hs.
  destruct s as [|a rest]; [discriminate|].
  rewrite append_cons. cbn [all_space trim_start] in *.
  destruct (space1 a) eqn:Ha; [apply IH; [cbn; lia | exact Hs]|].
  destruct rest as [|b rest2].
  { rewrite append_nil. destruct t as [|b t2]; [auto|].
    cbn [starts_clean] in Ht. apply negb_true_iff in Ht.
    destruct (space2 a b) eqn:Hb; [apply space2_bytes in Hb; destruct Hb as (_ & _ & Hb); congruence|].
    destruct t2 as [|c t3]; [auto|].
    destruct (space3 a b c) eqn:Hc;
      [apply space3_bytes in Hc; destruct Hc as (_ & _ & Hc & _); congruence|].
    auto. }
  rewrite append_cons.
  destruct (space2 a b) eqn:Hb; [apply IH; [cbn; lia | exact Hs]|].
  destruct rest2 as [|c rest3].
  { rewrite append_nil. destruct t as [|c t3]; [auto|].
    cbn [starts_clean] in Ht. apply negb_true_iff in Ht.
    destruct (space3 a b c) eqn:Hc;
      [apply space3_bytes in Hc; destruct Hc as (_ & _ & _ & Hc); congruence|].
    auto. }
  rewrite append_cons.
  destruct (space3 a b c) eqn:Hc; cbn [andb] in *; [apply IH; [cbn; lia | exact Hs]|].
  auto.
Qed.

Lemma all_space_app (s ws : string) :
  all_space ws = true -> all_space (s ++ ws) = all_space s.
Proof.
  intros Hws. destruct (all_space s) eqn:Hs.
  - rewrite all_space_app_l by exact Hs. exact Hws.
  - apply not_all_space_app; [exact Hs | apply all_space_starts_clean, Hws].
Qed.

Lemma trim_end_all_space (s : string) : all_space s = true -> trim_end s = "".
Proof. intros Hs. destruct s; [reflexivity|]. cbn [trim_end]. rewrite Hs. reflexivity. Qed.

Lemma trim_end_space (s ws : string) :
  all_space ws = true -> trim_end (s ++ ws) = trim_end s.
Proof.
  intros Hws. induction s as [|a rest IH]; rewrite ?append_cons, ?append_nil.
  - apply trim_end_all_space, Hws.
  - cbn [trim_end]. rewrite <- append_cons, all_space_app by exact Hws.
    rewrite IH. reflexivity.
Qed.

(** White space around a text does not survive [trim]. *)
Lemma trim_padding (ws1 s ws2 : string) :
  all_space ws1 = true -> all_space ws2 = true -> trim (ws1 ++ s ++ ws2) = trim s.
Proof.
  intros H1 H2. unfold trim. rewrite (trim_start_space ws1) by exact H1.
  destruct (all_space s) eqn:Hs.
  - rewrite (trim_start_all_space (s ++ ws2))
      by (rewrite all_space_app by exact H2; exact Hs).
    rewrite (trim_start_all_space s) by exact Hs. reflexivity.
  - destruct (not_all_space_app s ws2 Hs (all_space_starts_clean _ H2)) as [_ ->].
    apply trim_end_space, H2.
Qed.

Lemma trim_end_split (s : string) :
  exists ws, s = trim_end s ++ ws /\ all_space ws = true.
Proof.
  induction s as [|a rest IH]; [exists ""; auto|].
  cbn [trim_end]. destruct (all_space (String a rest)) eqn:Hs.
  - exists (String a rest). auto.
  - destruct IH as (ws & Hrest & Hws). exists ws. rewrite append_cons, <- Hrest. auto.
Qed.

Lemma trim_end_not_space (s : string) :
  trim_end s <> "" -> all_space (trim_end s) = false.
Proof.
  intros Hne. destruct (trim_end_split s) as (ws & Hs & Hws).
  destruct (all_space (trim_end s)) eqn:Hall; [|reflexivity]. exfalso.
  assert (all_space s = true) as Hwhole
    by (rewrite Hs, all_space_app by exact Hws; exact Hall).
  apply Hne, trim_end_all_space, Hwhole.
Qed.

Lemma trim_end_idempotent (s : string) : trim_end (trim_end s) = trim_end s.
Proof.
  induction s as [|a rest IH]; [reflexivity|].
  pose proof (trim_end_not_space (String a rest)) as Hnot.
  cbn [trim_end] in *. destruct (all_space (String a rest)); [reflexivity|].
  cbn [trim_end]. rewrite (Hnot ltac:(discriminate)), IH. reflexivity.
Qed.

Lemma trim_start_suffix (s : string) :
  exists ws, s = ws ++ trim_start s /\ all_space ws = true.
Proof.
  induction s as [s IH] using string_length_ind.
  destruct s as [|a rest]; [exists ""; auto|]. cbn [trim_start].
  destruct (space1 a) eqn:Ha.
  { destruct (IH rest ltac:(cbn; lia)) as (ws & Hrest & Hws).
    exists (String a ws). rewrite append_cons, <- Hrest. cbn [all_space]. rewrite Ha. auto. }
  destruct rest as [|b rest2]; [exists ""; auto|].
  destruct (space2 a b) eqn:Hb.
  { destruct (IH rest2 ltac:(cbn; lia)) as (ws & Hrest & Hws).
    exists (String a (String b ws)). rewrite !append_cons, <- Hrest. cbn [all_space].
    rewrite Ha, Hb. auto. }
  destruct rest2 as [|c rest3]; [exists ""; auto|].
  destruct (space3 a b c) eqn:Hc; [|exists ""; auto].
  destruct (IH rest3 ltac:(cbn; lia)) as (ws & Hrest & Hws).
  exists (String a (String b (String c ws))). rewrite !append_cons, <- Hrest. cbn [all_space].
  rewrite Ha, Hb, Hc. auto.
Qed.

Lemma trim_start_idempotent (s : string) : trim_start (trim_start s) = trim_start s.
Proof.
  induction s as [s IH] using string_length_ind.
  destruct s as [|a rest]; [reflexivity|]. cbn [trim_start].
  destruct (space1 a) eqn:Ha; [apply IH; cbn; lia|].
  destruct rest as [|b rest2]; [cbn [trim_start]; rewrite Ha; reflexivity|].
  destruct (space2 a b) eqn:Hb; [apply IH; cbn; lia|].
  destruct rest2 as [|c rest3]; [cbn [trim_start]; rewrite Ha, Hb; reflexivity|].
  destruct (space3 a b c) eqn:Hc; [apply IH; cbn; lia|].
  cbn [trim_start]. rewrite Ha, Hb, Hc. reflexivity.
Qed.

Lemma string_app_inv_tail (a b c : string) : a ++ c = b ++ c -> a = b.
Proof.
  revert b. induction a as [|x a IH]; intros b H.
  - destruct b as [|y b]; [reflexivity|]. exfalso.
    apply (f_equal String.length) in H. rewrite append_nil, string_length_app in H.
    cbn [String.length] in H. lia.
  - destruct b as [|y b].
    + exfalso. apply (f_equal String.length) in H.
      rewrite append_nil, string_length_app in H. cbn [String.length] in H. lia.
    + rewrite !append_cons in H. injection H as -> H. f_equal. apply IH, H.
Qed.

Lemma trim_idempotent (s : string) : trim (trim s) = trim s.
Proof.
  unfold trim.
  assert (trim_start (trim_end (trim_start s)) = trim_end (trim_start s)) as ->.
  { pose proof (trim_start_idempotent s) as Hidem.
    set (t := trim_start s) in *.
    destruct (trim_end_split t) as (ws & Ht & Hws).
    destruct (String.string_dec (trim_end t) "") as [->|Hne]; [reflexivity|].
    pose proof (trim_end_not_space t Hne) as Hnot.
    destruct (not_all_space_app (trim_end t) ws Hnot (all_space_starts_clean _ Hws))
      as [_ Happ].
    rewrite <- Ht, Hidem in Happ. rewrite Ht in Happ at 1.
    symmetry. eapply string_app_inv_tail, Happ. }
  apply trim_end_idempotent.
Qed.

(** A text between two characters of their own that are not white space
    is its own [trim]. *)
Lemma trim_tight (c d : Ascii.ascii) (m : string) :
  plain c = true -> plain d = true ->
  trim (String c m ++ String d "") = String c m ++ String d "".
Proof.
  intros Hc Hd. unfold trim.
  destruct (plain_bytes c Hc) as (Hc1 & _ & Hc2 & Hc3).
  destruct (plain_bytes d Hd) as (Hd1 & Hdc & _ & _).
  assert (trim_start (String c m ++ String d "") = String c m ++ String d "") as ->.
  { rewrite append_cons. cbn [trim_start]. rewrite Hc1.
    destruct (m ++ String d "") as [|b rest2]; [reflexivity|]. rewrite Hc2.
    destruct rest2 as [|e rest3]; [reflexivity|]. rewrite Hc3. reflexivity. }
  assert (forall x, all_space (x ++ String d "") = false) as Hnever.
  { intros x. destruct (all_space x) eqn:Hx.
    - rewrite all_space_app_l by exact Hx. cbn [all_space]. rewrite Hd1. reflexivity.
    - apply not_all_space_app; [exact Hx|]. cbn [starts_clean]. rewrite Hdc. reflexivity. }
  generalize (String c m). intros x. induction x as [|a x IH].
  - rewrite append_nil. cbn [trim_end all_space]. rewrite Hd1. reflexivity.
  - rewrite append_cons. cbn [trim_end]. rewrite <- append_cons, Hnever.
    rewrite append_cons, IH. reflexivity.
Qed.

Lemma all_space_free_of_comma (ws : string) :
  all_space ws = true -> free_of (Ascii.ascii_of_nat 44) ws = true.
Proof.
  assert (forall x, (code x <= 32 \/ 128 <= code x)%nat ->
            negb (Ascii.eqb x (Ascii.ascii_of_nat 44)) = true) as Hfar.
  { intros x Hx. apply negb_true_iff, not_true_is_false. intros He.
    apply Ascii.eqb_eq in He. subst x. unfold code in Hx.
    change (Ascii.nat_of_ascii (Ascii.ascii_of_nat 44)) with 44%nat in Hx. lia. }
  revert ws. apply (all_space_ind (fun ws => free_of (Ascii.ascii_of_nat 44) ws = true)).
  - reflexivity.
  - intros a rest Ha _ IH. cbn [free_of]. rewrite IH, Hfar; [reflexivity|]. bytes; lia.
  - intros a b rest _ Hb _ IH. cbn [free_of]. rewrite IH, !Hfar; [reflexivity|..]; bytes; lia.
  - intros a b c rest _ _ Hc _ IH. cbn [free_of].
    assert (code a >= 225 /\ 128 <= code b <= 191 /\ 128 <= code c <= 191)%nat
      as (Ha' & Hb' & Hc') by (bytes; lia).
    rewrite IH, !Hfar; [reflexivity|..]; lia.
Qed.

Lemma free_of_app (c : Ascii.ascii) (a b : string) :
  free_of c (a ++ b) = free_of c a && free_of c b.
Proof.
  induction a as [|x a IH]; rewrite ?append_cons, ?append_nil; cbn [free_of];
    [reflexivity|]. rewrite IH, andb_assoc. reflexivity.
Qed.

Lemma before_comma_app (a rest : string) :
  free_of (Ascii.ascii_of_nat 44) a = true ->
  before_comma (a ++ String (Ascii.ascii_of_nat 44) rest) = a.
Proof.
  induction a as [|c a IH]; rewrite ?append_cons, ?append_nil; cbn [before_comma free_of].
  - rewrite Ascii.eqb_refl. reflexivity.
  - intros H. apply andb_true_iff in H as [Hc Ha]. apply negb_true_iff in Hc.
    rewrite Hc, (IH Ha). reflexivity.
Qed.

Lemma before_comma_free (a : string) :
  free_of (Ascii.ascii_of_nat 44) a = true -> before_comma a = a.
Proof.
  induction a as [|c a IH]; cbn [before_comma free_of]; [reflexivity|].
  intros H. apply andb_true_iff in H as [Hc Ha]. apply negb_true_iff in Hc.
  rewrite Hc, (IH Ha). reflexivity.
Qed.

Lemma truthy_str_app_r (a b : string) : b <> "" -> JS.truthy_str (Some (a ++ b)) = true.
Proof.
  intros Hb. cbn [JS.truthy_str]. apply negb_true_iff, String.eqb_neq.
  destruct a; rewrite ?append_cons, ?append_nil; [exact Hb | discriminate].
Qed.

(** X28. Only the first forwarded address counts: when the forwarding header
    lists an address followed by a comma, [getClientIP] answers that
    address without the white space around it, whatever follows the comma
    and whatever the [x-real-ip] header says; a header holding a single
    address answers that address. *)
Theorem getClientIP_takes_the_first_forwarded_address (ws1 a ws2 : string) :
  all_space ws1 = true -> all_space ws2 = true ->
  free_of (Ascii.ascii_of_nat 44) a = true ->
  trim a = a ->
  (forall rest real,
     getClientIP {| x_forwarded_for := Some (ws1 ++ a ++ ws2 ++ "," ++ rest);
                    x_real_ip := real |} = a) /\
  (a <> "" -> forall real,
     getClientIP {| x_forwarded_for := Some (ws1 ++ a ++ ws2); x_real_ip := real |} = a).
Proof.
  intros H1 H2 Ha Htrim.
  assert (free_of (Ascii.ascii_of_nat 44) (ws1 ++ a ++ ws2) = true) as Hfree.
  { rewrite !free_of_app, Ha, !all_space_free_of_comma by assumption. reflexivity. }
  split.
  - intros rest real. unfold getClientIP. cbn [x_forwarded_for x_real_ip].
    replace (ws1 ++ a ++ ws2 ++ "," ++ rest) with ((ws1 ++ a ++ ws2) ++ "," ++ rest)
      by (rewrite !string_app_assoc; reflexivity).
    rewrite truthy_str_app_r by discriminate. cbn [default from_option].
    unfold Datatypes.id. change ("," ++ rest) with (String (Ascii.ascii_of_nat 44) rest).
    rewrite before_comma_app by exact Hfree.
    rewrite trim_padding by assumption. exact Htrim.
  - intros Hne real. unfold getClientIP. cbn [x_forwarded_for x_real_ip].
    rewrite truthy_str_app_r by (destruct a; [contradiction | discriminate]).
    cbn [default from_option]. unfold Datatypes.id.
    rewrite before_comma_free by exact Hfree.
    rewrite trim_padding by assumption. exact Htrim.
Qed.

Lemma substring_whole (s : string) : String.substring 0 (String.length s) s = s.
Proof. induction s as [|c s IH]; cbn; [reflexivity | rewrite IH; reflexivity]. Qed.

Lemma substring_prefix (a b : string) : String.substring 0 (String.length a) (a ++ b) = a.
Proof.
  induction a as [|c a IH]; rewrite ?append_cons, ?append_nil.
  - destruct b; reflexivity.
  - cbn [String.length String.substring]. rewrite IH. reflexivity.
Qed.

Lemma substring_suffix (a b : string) :
  String.substring (String.length a) (String.length b) (a ++ b) = b.
Proof.
  induction a as [|c a IH]; rewrite ?append_cons, ?append_nil.
  - apply substring_whole.
  - cbn [String.length String.substring]. exact IH.
Qed.

Lemma drop_start_app (a b : string) : drop_start (String.length a) (a ++ b) = b.
Proof.
  unfold drop_start. rewrite string_length_app.
  replace (String.length a + String.length b - String.length a)%nat with (String.length b)
    by lia.
  apply substring_suffix.
Qed.

Lemma drop_end_app (a b : string) : drop_end (String.length b) (a ++ b) = a.
Proof.
  unfold drop_end. rewrite string_length_app.
  replace (String.length a + String.length b - String.length b)%nat with (String.length a)
    by lia.
  apply substring_prefix.
Qed.

Lemma starts_with_app (p s : string) : starts_with p (p ++ s) = true.
Proof.
  unfold starts_with. rewrite (proj2 (strip_prefix_Some p (p ++ s) s) eq_refl). reflexivity.
Qed.

Lemma ends_with_app (p s : string) : ends_with p (s ++ p) = true.
Proof. unfold ends_with. rewrite reverse_app. apply starts_with_app. Qed.

Lemma starts_with_longer (p q s : string) :
  starts_with p s = false -> starts_with (p ++ q) s = false.
Proof.
  unfold starts_with. intros H.
  destruct (TidbCloud.strip_prefix (p ++ q) s) as [r|] eqn:Hr; [|reflexivity].
  apply strip_prefix_Some in Hr. rewrite string_app_assoc in Hr.
  apply strip_prefix_Some in Hr. rewrite Hr in H. discriminate.
Qed.

Lemma starts_with_common (p q s : string) :
  starts_with (p ++ q) (p ++ s) = starts_with q s.
Proof.
  unfold starts_with. induction p as [|a p IH]; rewrite ?append_cons, ?append_nil;
    [reflexivity|]. cbn [TidbCloud.strip_prefix]. rewrite Ascii.eqb_refl. exact IH.
Qed.

(** X29. What [strip_fences] hands to the parser: the content of a fenced
    block, with or without the [json] tag, and a bare answer, each without
    the white space around it. *)
Theorem strip_fences_recovers_the_content (ws0 ws1 c ws2 ws3 : string) :
  all_space ws0 = true -> all_space ws1 = true ->
  all_space ws2 = true -> all_space ws3 = true ->
  strip_fences (ws0 ++ (fence ++ "json") ++ ws1 ++ c ++ ws2 ++ fence ++ ws3) = trim c /\
  (starts_with "json" (ws1 ++ c ++ ws2 ++ fence) = false ->
   strip_fences (ws0 ++ fence ++ ws1 ++ c ++ ws2 ++ fence ++ ws3) = trim c) /\
  (starts_with fence (trim c) = false -> ends_with fence (trim c) = false ->
   strip_fences c = trim c).
Proof.
  intros H0 H1 H2 H3.
  assert (forall tag,
            trim (ws0 ++ (fence ++ tag) ++ ws1 ++ c ++ ws2 ++ fence ++ ws3)
            = (fence ++ tag) ++ (ws1 ++ c ++ ws2) ++ fence) as Htrim.
  { intros tag.
    replace (ws0 ++ (fence ++ tag) ++ ws1 ++ c ++ ws2 ++ fence ++ ws3)
      with (ws0 ++ ((fence ++ tag) ++ (ws1 ++ c ++ ws2) ++ fence) ++ ws3)
      by (rewrite !string_app_assoc; reflexivity).
    rewrite trim_padding by assumption.
    replace ((fence ++ tag) ++ (ws1 ++ c ++ ws2) ++ fence)
      with (String (Ascii.ascii_of_nat 96) ("``" ++ tag ++ (ws1 ++ c ++ ws2) ++ "``")
            ++ String (Ascii.ascii_of_nat 96) "")
      by (unfold fence; rewrite !append_cons, !append_nil, !string_app_assoc;
          rewrite !append_cons, !append_nil; reflexivity).
    apply trim_tight; reflexivity. }
  split; [|split].
  - unfold strip_fences. rewrite (Htrim "json").
    rewrite starts_with_app. change 7%nat with (String.length (fence ++ "json")).
    rewrite drop_start_app, ends_with_app.
    change 3%nat with (String.length fence). rewrite drop_end_app.
    apply trim_padding; assumption.
  - intros Hplain. unfold strip_fences.
    pose proof (Htrim "") as Hbare. rewrite string_app_nil_r in Hbare. rewrite Hbare.
    assert (starts_with (fence ++ "json") (fence ++ (ws1 ++ c ++ ws2) ++ fence) = false) as ->.
    { rewrite starts_with_common, string_app_assoc, string_app_assoc. exact Hplain. }
    rewrite starts_with_app. change 3%nat with (String.length fence).
    rewrite drop_start_app, ends_with_app, drop_end_app.
    apply trim_padding; assumption.
  - intros Hstart Hend. unfold strip_fences.
    rewrite (starts_with_longer fence "json") by exact Hstart.
    rewrite Hstart, Hend. apply trim_idempotent.
Qed.

End TextProofs.

Section TreesProofs.
Import JS Trees.
Context {B : Builtins}.

Lemma charAt_chars (i : Z) :
  0 <= i < 62 ->
  exists c, charAt chars i = String c "" /\ alphanumeric (String c "") = true.
Proof.
  intros [Hlo Hhi].
  assert (forallb (fun n => match charAt chars (Z.of_nat n) with
                            | String c "" => alphanumeric (String c "")
                            | _ => false
                            end) (seq 0 62) = true) as Hall by (vm_compute; reflexivity).
  rewrite forallb_forall in Hall. specialize (Hall (Z.to_nat i)).
  rewrite Z2Nat.id in Hall by exact Hlo.
  assert (In (Z.to_nat i) (seq 0 62)) as Hin by (apply in_seq; lia).
  specialize (Hall Hin).
  destruct (charAt chars i) as [|c [|]]; try discriminate. eauto.
Qed.

Lemma round_up_bound (m s : Z) (up : bool) :
  0 <= m -> 0 < s ->
  (up = true -> 2 ^ (s - 1) <= m mod 2 ^ s) ->
  0 <= (if up then m / 2 ^ s + 1 else m / 2 ^ s) /\
  (if up then m / 2 ^ s + 1 else m / 2 ^ s) * 2 ^ s <= m + 2 ^ (s - 1).
Proof.
  intros Hm Hs Hup.
  assert (0 < 2 ^ s) as Hpow by (apply Z.pow_pos_nonneg; lia).
  assert (0 < 2 ^ (s - 1)) as Hhalf by (apply Z.pow_pos_nonneg; lia).
  assert (2 ^ s = 2 * 2 ^ (s - 1)) as Hdouble
    by (rewrite <- Z.pow_succ_r by lia; f_equal; lia).
  pose proof (Z.div_mod m (2 ^ s) ltac:(lia)) as Hdiv.
  pose proof (Z.mod_pos_bound m (2 ^ s) Hpow) as Hmod.
  assert (0 <= m / 2 ^ s) as Hq by (apply Z.div_pos; lia).
  destruct up.
  - specialize (Hup eq_refl). split; [lia|]. nia.
  - split; [lia|]. nia.
Qed.

Lemma floor_mul_index (x : Binary64.number) :
  Binary64.representable x -> Binary64.below_one x ->
  0 <= Binary64.floor (Binary64.mul x (Binary64.of_nat (String.length chars))) < 62.
Proof.
  destruct x as [m e].
  unfold Binary64.representable, Binary64.below_one, Binary64.mul, Binary64.round,
    Binary64.floor, Binary64.of_nat.
  cbn [Binary64.mantissa Binary64.exponent]. intros [[Hm0 Hm] [He _]] Hone.
  change (Z.of_nat (String.length chars)) with 62. rewrite Z.add_0_r.
  destruct (Z.eq_dec m 0) as [->|Hne].
  { change (0 * 62) with 0. change (Z.log2 0 - 52) with (-52).
    destruct (Z.max (-52) (-1074 - e) <=? 0) eqn:Hs; [|apply Z.leb_gt in Hs; lia].
    cbn [Binary64.mantissa Binary64.exponent]. destruct (0 <=? e); [rewrite Z.mul_0_l | rewrite Zdiv_0_l]; lia. }
  destruct Hone as [?|[Hneg Hbelow]]; [contradiction|].
  set (V := 2 ^ (- e)) in *.
  assert (0 < V) as HV by (apply Z.pow_pos_nonneg; lia).
  set (M := m * 62).
  assert (0 < M <= 62 * V - 62) as HM by (unfold M; lia).
  pose proof (Z.log2_spec M ltac:(lia)) as [Hlow Hhigh].
  assert (Z.log2 M <= 58) as Hlog.
  { apply Z.lt_succ_r, (Z.pow_lt_mono_r_iff 2); [lia|lia|].
    eapply Z.le_lt_trans; [exact Hlow|]. unfold M.
    change (2 ^ Z.succ 58) with (64 * 2 ^ 53). lia. }
  pose proof (Z.log2_nonneg M) as Hlog0.
  destruct (Z.max (Z.log2 M - 52) (-1074 - e) <=? 0) eqn:Hs.
  - cbn [Binary64.mantissa Binary64.exponent]. destruct (0 <=? e) eqn:Hsign; [apply Z.leb_le in Hsign; lia|].
    fold V. split; [apply Z.div_pos; lia|]. apply Z.div_lt_upper_bound; lia.
  - apply Z.leb_gt in Hs.
    assert (Z.max (Z.log2 M - 52) (-1074 - e) = Z.log2 M - 52) as -> by lia.
    set (s := Z.log2 M - 52) in *.
    assert (0 < s <= 6) as Hrange by lia.
    set (up := (2 ^ (s - 1) <? M mod 2 ^ s) || ((M mod 2 ^ s =? 2 ^ (s - 1)) && Z.odd (M / 2 ^ s))).
    assert (up = true -> 2 ^ (s - 1) <= M mod 2 ^ s) as Hup.
    { unfold up. intros H. apply orb_true_iff in H as [H|H].
      - apply Z.ltb_lt in H. lia.
      - apply andb_true_iff in H as [H _]. apply Z.eqb_eq in H. lia. }
    destruct (round_up_bound M s up ltac:(lia) ltac:(lia) Hup) as [Hq0 Hq].
    set (m' := if up then M / 2 ^ s + 1 else M / 2 ^ s) in *.
    cbn [Binary64.mantissa Binary64.exponent].
    assert (2 ^ (s - 1) <= 32) as Hhalf.
    { change 32 with (2 ^ 5). apply Z.pow_le_mono_r; lia. }
    assert (0 < 2 ^ s) as Hpow by (apply Z.pow_pos_nonneg; lia).
    (* 2^(52+s) <= M < 62 V, so V > 2^(46+s) and e + s < 0 *)
    assert (e + s < 0) as Hes.
    { destruct (Z.le_gt_cases 0 (e + s)) as [Hge|]; [|lia]. exfalso.
      assert (V <= 2 ^ s) as HVs by (unfold V; apply Z.pow_le_mono_r; lia).
      assert (2 ^ Z.log2 M = 2 ^ 52 * 2 ^ s) as Hsplit.
      { rewrite <- Z.pow_add_r by lia. f_equal. unfold s. lia. }
      nia. }
    destruct (0 <=? e + s) eqn:Hsign; [apply Z.leb_le in Hsign; lia|].
    assert (V = 2 ^ s * 2 ^ (- (e + s))) as HVsplit.
    { unfold V. rewrite <- Z.pow_add_r by lia. f_equal. lia. }
    assert (0 < 2 ^ (- (e + s))) as Hpow' by (apply Z.pow_pos_nonneg; lia).
    split; [apply Z.div_pos; lia|].
    apply Z.div_lt_upper_bound; [lia|]. nia.
Qed.

Lemma alphanumeric_app (a b : string) :
  alphanumeric a = true -> alphanumeric b = true -> alphanumeric (a ++ b) = true.
Proof.
  intros Ha Hb. induction a as [|c a IH]; [exact Hb|].
  change (String c a ++ b) with (String c (a ++ b)). cbn [alphanumeric] in *.
  destruct (String.index 0 (String c "") chars); [auto | discriminate].
Qed.

Lemma generateId_loop_run (n : nat) :
  forall (result : string) (db : Db),
  exists suffix db',
    generateId_loop n result db = (World.Ok (result ++ suffix), db') /\
    same_table db db' /\
    (unit_interval db ->
     String.length suffix = n /\ alphanumeric suffix = true).
Proof.
  induction n as [|n IH]; intros result db.
  - exists "", db. cbn [generateId_loop]. unfold ret. rewrite string_app_nil_r.
    split; [reflexivity|]. split; [constructor; reflexivity|]. auto.
  - cbn [generateId_loop]. unfold bind at 1. unfold Math_random at 1.
    set (db1 := {| trees := trees db; refuses := refuses db; random := random db;
                   drawn := S (drawn db); clock := clock db; calls := calls db |}).
    set (c := charAt chars _).
    destruct (IH (result ++ c) db1) as (suffix & db' & Hrun & Hsame & Hshape).
    exists (c ++ suffix), db'. rewrite Hrun, string_app_assoc.
    split; [reflexivity|]. split; [destruct Hsame; constructor; assumption|].
    intros Hunit. destruct (Hshape Hunit) as [Hlen Halpha].
    destruct (Hunit (drawn db)) as [Hnumber Hbelow].
    destruct (charAt_chars _ (floor_mul_index _ Hnumber Hbelow)) as (x & Hx & Hxa).
    subst c. rewrite Hx. split.
    + rewrite string_length_app, Hlen. reflexivity.
    + apply alphanumeric_app; assumption.
Qed.

Lemma generateId_run (db : Db) :
  exists db', generateId db = (World.Ok (next_id db), db') /\ same_table db db'.
Proof.
  unfold next_id, generateId.
  destruct (generateId_loop_run 8 "" db) as (suffix & db' & Hrun & Hsame & _).
  rewrite Hrun. eauto.
Qed.

(** X27. The ids of shared trees fit their column: with [Math.random()]
    yielding binary64 numbers in [0, 1), the product with the number of
    characters, rounded as binary64 rounds it, stays below that number, so
    [generateId] returns eight characters, each a letter or a digit; it
    touches nothing but the random source. *)
Theorem generateId_fits_the_column (db : Db) :
  unit_interval db ->
  exists db', generateId db = (World.Ok (next_id db), db') /\
    String.length (next_id db) = 8%nat /\
    alphanumeric (next_id db) = true /\
    same_table db db'.
Proof.
  intros Hunit. unfold next_id, generateId.
  destruct (generateId_loop_run 8 "" db) as (suffix & db' & Hrun & Hsame & Hshape).
  rewrite Hrun. destruct (Hshape Hunit) as [Hlen Halpha].
  exists db'. split; [reflexivity|]. change ("" ++ suffix) with suffix. auto.
Qed.

Ltac db_simpl :=
  cbn [trees refuses random drawn clock calls logged fst snd] in *.

Ltac split_db_run H :=
  repeat (db_simpl; cbn [option_list option_rect] in H;
    match type of H with
    | context [option_list ?x] => destruct x eqn:?
    | context [match ?x with _ => _ end] =>
        lazymatch x with
        | context [match _ with _ => _ end] => fail
        | _ => destruct x eqn:?
        end
    | context [if ?x then _ else _] =>
        lazymatch x with
        | context [if _ then _ else _] => fail
        | context [match _ with _ => _ end] => fail
        | _ => destruct x eqn:?
        end
    end).

Ltac use_generateId run :=
  match goal with
  | H : generateId ?db = _ |- _ =>
      let db1 := fresh "db1" in
      let Hid := fresh "Hid" in
      let Hsame := fresh "Hsame" in
      destruct (run db) as (db1 & Hid & Hsame);
      rewrite Hid in H; simplify_eq;
      destruct Hsame as [Ht Hr Hn Hc Hl]
  end.

(** X26. A shared tree is never modified: in every run of [POST] each row the
    table held is still there unchanged and at most the row of the id
    drawn is added; a draw that is already in use changes nothing and is
    answered with an error; and [GET] leaves the table as it was. *)
Theorem shared_trees_are_immutable :
  (forall (request : option PostBody) (db db' : Db) (resp : World.result World.Response),
     POST request db = (resp, db') ->
     (forall key row, trees db !! key = Some row -> trees db' !! key = Some row) /\
     (forall key, key <> next_id db -> trees db' !! key = trees db !! key) /\
     (is_Some (trees db !! next_id db) ->
      trees db' = trees db /\
      exists answer, resp = World.Ok answer /\ World.r_status answer <> 200)) /\
  (forall (key : string) (db db' : Db) (resp : World.result World.Response),
     GET key db = (resp, db') -> trees db' = trees db).
Proof.
  split.
  - intros request db db' resp Hrun.
    cbv [POST try_catch bind ret throw request_json getConnection execute release] in Hrun.
    split_db_run Hrun; injection Hrun as <- <-; try use_generateId generateId_run;
      db_simpl; rewrite ?Ht, ?Hr in *.
    all: split; [intros key row Hkey; first [exact Hkey
                   | rewrite lookup_insert_ne; [exact Hkey | congruence]]|].
    all: split; [intros key Hkey; first [reflexivity
                   | apply lookup_insert_ne; congruence]|].
    all: intros [row Hrow];
         first [ congruence
               | split; [reflexivity|]; eexists; split; [reflexivity|discriminate] ].
  - intros key db db' resp Hrun.
    cbv [GET try_catch bind ret throw getConnection execute release parse_if_string] in Hrun.
    split_db_run Hrun; injection Hrun as <- <-; db_simpl; reflexivity.
Qed.

Lemma parse_if_string_reads (text : string) (p : json) (db : Db) :
  Behaviour.decodes text p -> parse_if_string (column_value text) db = (World.Ok p, db).
Proof.
  unfold Behaviour.decodes, parse_if_string. destruct (column_value text); intros H;
    try (rewrite <- H; reflexivity).
  rewrite H. reflexivity.
Qed.

(** X25. Share, then open: when no database call fails and the id drawn is not
    in use, [POST] answers 200 with that id, and a [GET] of the id then
    answers 200 with the decision and the tree that were sent and the
    creation time of the row. *)
Theorem shared_tree_round_trip (db : Db) (b : PostBody) (p : json) :
  truthy_str (p_decision b) = true ->
  truthy_opt (p_tree_data b) = true ->
  (forall c, refuses db c = false) ->
  trees db !! next_id db = None ->
  Behaviour.decodes (JSON_stringify (default JNull (p_tree_data b))) p ->
  fst (POST (Some b) db)
  = World.Ok (World.respond 200 (JObj [("success", JBool true); ("id", JStr (next_id db))])) /\
  fst (GET (next_id db) (snd (POST (Some b) db))) = World.Ok (shared (stored db b) p).
Proof.
  intros Hdecision Htree Hcalls Hfresh Hreads.
  destruct (generateId_run db) as (db1 & Hid & [Ht Hr Hn Hc Hl]).
  assert (POST (Some b) db
          = (World.Ok (World.respond 200
                         (JObj [("success", JBool true); ("id", JStr (next_id db))])),
             logged Release true (<[next_id db := stored db b]> (trees db))
               (logged (InsertTree (next_id db) (default "" (p_decision b))
                          (JSON_stringify (default JNull (p_tree_data b)))) true
                  (<[next_id db := stored db b]> (trees db))
                  (logged GetConnection true (trees db) db1)))) as Hpost.
  { cbv [POST try_catch bind ret throw request_json getConnection execute release].
    rewrite Hdecision, Htree. cbn [negb orb]. rewrite Hid.
    repeat (db_simpl; rewrite ?Hr, ?Hcalls, ?Ht, ?Hfresh, ?Hc). reflexivity. }
  rewrite Hpost. cbn [fst snd]. split; [reflexivity|].
  cbv [GET try_catch bind ret throw getConnection execute release].
  repeat (db_simpl; rewrite ?Hr, ?Hcalls, ?lookup_insert_eq;
          cbn [option_list option_rect]).
  unfold stored. cbn [tree_data].
  rewrite (parse_if_string_reads _ p) by exact Hreads. reflexivity.
Qed.

End TreesProofs.

Section RateLimitProofs.
Import RateLimit.

(** C9. Whatever the identifier, the configuration, the clock, the random
    draw and the map left by earlier calls, [rateLimit] returns allowed,
    remaining 999, resetIn 0 and leaves the map as it was; the generate
    route therefore never answers 429, and leaves the map as it was too. *)
Theorem rate_limiting_is_switched_off :
  (forall (identifier : string) (config : option RateLimitConfig) (now : Z) (random : Q)
          (rateLimitStore : gmap string RateLimitEntry),
     rateLimit identifier config now random rateLimitStore
     = ({| allowed := true; remaining := 999; resetIn := 0 |}, rateLimitStore))
  /\
  (forall (B : JS.Builtins) (request : Generate.Request) (env : Generate.Env),
     World.r_status (fst (Generate.POST request env)) <> 429%Z /\
     snd (Generate.POST request env) = Generate.rateLimitStore env).
Proof.
  split; [reflexivity|].
  intros B request env. unfold Generate.POST.
  change (rateLimit _ _ _ _ (Generate.rateLimitStore env))
    with ({| allowed := true; remaining := 999; resetIn := 0 |}, Generate.rateLimitStore env).
  cbn [allowed negb].
  destruct (Generate.body request) as [b|]; [|split; [discriminate|reflexivity]].
  destruct (negb _); [split; [discriminate|reflexivity]|].
  destruct (Generate.completion _ _) as [message|]; [|split; [discriminate|reflexivity]].
  destruct (List.find _ _) as [[text|]|]; try (split; [discriminate|reflexivity]).
  destruct (JS.JSON_parse _); split; try discriminate; reflexivity.
Qed.

End RateLimitProofs.

(* --------------------------------------------------------------------- *)
(** ** The statements at the example inputs *)
(* --------------------------------------------------------------------- *)

Section AtExamples.
Import JS World Contract TidbCloud Examples.

Ltac by_compute := vm_compute; reflexivity.

(** C1 at an update of a record whose branch is reachable: tag [both]. *)
Lemma PUT_reports_write_destination_witness :
  In (EvDb Main (Update "t1" (print_json P2)) true)
     (events_since world_branched
        (snd (TimelineById.PUT (B := example_builtins) "t1" put_P2 world_branched)))
  /\ exists row tag,
       main world_branched !! "t1" = Some row /\
       fst (TimelineById.PUT (B := example_builtins) "t1" put_P2 world_branched)
       = Ok (written tag) /\
       tag = "both".
Proof.
  split; [vm_compute; tauto|].
  destruct (PUT_reports_write_destination (B := example_builtins) world_branched
              (snd (TimelineById.PUT (B := example_builtins) "t1" put_P2 world_branched))
              "t1" put_P2
              (fst (TimelineById.PUT (B := example_builtins) "t1" put_P2 world_branched))
              (print_json P2))
    as (row & tag & Hrow & Hresp & _ & _).
  - apply surjective_pairing.
  - vm_compute. tauto.
  - exists row, tag. split; [exact Hrow|]. split; [exact Hresp|].
    vm_compute in Hresp. injection Hresp as Htag. symmetry. exact Htag.
Defined.

(** C2 at a reachable branch, at an unreachable one, and at an unknown id. *)
Lemma GET_read_protocol_witness :
  fst (TimelineById.GET (B := example_builtins) "t1" world_branched)
    = Ok (fetched row1 P2 "branch")
  /\ fst (TimelineById.GET (B := example_builtins) "t1" world_branch_down)
    = Ok (fetched row1 P1 "main")
  /\ fst (TimelineById.GET (B := example_builtins) "unknown" world_branched)
    = Ok (failure 404 "Timeline not found").
Proof.
  assert (main world_branched !! "t1" = Some row1) as E1 by by_compute.
  assert (main world_branch_down !! "t1" = Some row1) as E2 by by_compute.
  assert (main world_branched !! "unknown" = None) as E3 by by_compute.
  assert (endpoint_stored row1 host1) as Hstored by (split; [reflexivity | discriminate]).
  split; [|split].
  - pose proof (GET_read_protocol (B := example_builtins) world_branched "t1"
                  (conj eq_refl eq_refl)) as H.
    rewrite E1 in H. destruct (H host1 Hstored) as [Hbranch _].
    apply (Hbranch {[ "t1" := row1_on_branch ]} row1_on_branch P2); by_compute.
  - pose proof (GET_read_protocol (B := example_builtins) world_branch_down "t1"
                  (conj eq_refl eq_refl)) as H.
    rewrite E2 in H. destruct (H host1 Hstored) as [_ Hmain].
    apply (Hmain P1); by_compute.
  - pose proof (GET_read_protocol (B := example_builtins) world_branched "unknown"
                  (conj eq_refl eq_refl)) as H.
    rewrite E3 in H. exact H.
Defined.

(** C10 at a reachable branch that has no row for the record. *)
Lemma GET_empty_branch_falls_back_witness :
  fst (TimelineById.GET (B := example_builtins) "t1" world_branch_empty)
    = Ok (fetched row1 P1 "main")
  /\ branch_calls (events_since world_branch_empty
                     (snd (TimelineById.GET (B := example_builtins) "t1" world_branch_empty)))
     = [EvDb (Branch host1) Connect true; EvDb (Branch host1) (Select "t1") true;
        EvDb (Branch host1) End_ true].
Proof.
  apply (GET_empty_branch_falls_back (B := example_builtins) world_branch_empty "t1" row1
           host1 ∅ P1).
  - split; by_compute.
  - by_compute.
  - split; [reflexivity | discriminate].
  - by_compute.
  - by_compute.
  - by_compute.
  - by_compute.
Defined.

(** C3 as stated fails: a 401 challenge whose header has neither a realm
    nor a nonce token does not fail the request; the retry is sent with
    both taken as empty and its answer is returned. *)
Lemma missing_realm_and_nonce_are_not_fatal :
  has_token "realm" ("Digest qop=" ++ quoted "auth") = false /\
  has_token "nonce" ("Digest qop=" ++ quoted "auth") = false /\
  status challenge_without_tokens = 401%Z /\
  www_authenticate challenge_without_tokens = Some ("Digest qop=" ++ quoted "auth") /\
  fst (tidbCloudFetch (B := example_builtins) "GET" branches_path None
         (world_challenged challenge_without_tokens))
  = Ok branch_list /\
  exists first second,
    trace (snd (tidbCloudFetch (B := example_builtins) "GET" branches_path None
                  (world_challenged challenge_without_tokens)))
    = [EvFetch first; EvFetch second] /\
    authorization first = None /\
    authorization second
    = Some (credential_header "public-key" "" "" branches_path "auth" "00000001"
              "0123456789abcdef0123456789abcdef"
              (documented_response (B := example_builtins) "public-key" "private-key" "" ""
                 "GET" branches_path "00000001" "0123456789abcdef0123456789abcdef" "auth")).
Proof.
  split; [by_compute|]. split; [by_compute|]. split; [reflexivity|].
  split; [reflexivity|]. split; [by_compute|].
  eexists (Build_FetchRequest _ _ _ _), (Build_FetchRequest _ _ _ _).
  split; [by_compute|]. split; by_compute.
Qed.

(** C3 (amended) at that challenge. *)
Lemma challenge_tokens_default_to_empty_witness :
  fst (tidbCloudFetch (B := example_builtins) "GET" branches_path None
         (world_challenged challenge_without_tokens))
  = Ok branch_list.
Proof.
  destruct (challenge_tokens_default_to_empty (B := example_builtins)
              (world_challenged challenge_without_tokens) "GET" branches_path None
              "public-key" "private-key" challenge_without_tokens [Reply branch_list])
    as [_ Hpresent].
  - reflexivity.
  - discriminate.
  - reflexivity.
  - discriminate.
  - reflexivity.
  - reflexivity.
  - destruct (Hpresent ("Digest qop=" ++ quoted "auth")) as [Hresult _].
    + reflexivity.
    + discriminate.
    + exact Hresult.
Defined.

(** C6 at a challenge that names a realm and a nonce but no quality. *)
Lemma digest_credential_is_documented_witness :
  exists first,
    events_since (world_challenged challenge_with_tokens)
      (snd (tidbCloudFetch (B := example_builtins) "GET" branches_path None
              (world_challenged challenge_with_tokens)))
    = [EvFetch first;
       EvFetch (second_request (B := example_builtins) "GET" branches_path (World.body first)
                  "public-key" "private-key" "tidb.cloud" "n-7f3a" "auth"
                  "0123456789abcdef0123456789abcdef")].
Proof.
  apply (digest_credential_is_documented (B := example_builtins)
           (world_challenged challenge_with_tokens) "GET" branches_path None
           "public-key" "private-key" challenge_with_tokens [Reply branch_list]
           ("Digest realm=" ++ quoted "tidb.cloud" ++ ", nonce=" ++ quoted "n-7f3a"
            ++ ", algorithm=MD5") "tidb.cloud" "n-7f3a").
  - reflexivity.
  - discriminate.
  - reflexivity.
  - discriminate.
  - reflexivity.
  - reflexivity.
  - reflexivity.
  - by_compute.
  - by_compute.
Defined.

(** C4 as stated fails on the update path: the branch has no row for the
    record, the branch update goes through and the tag is [both], yet the
    branch still has no row afterwards, which no upsert of a row with
    that key would leave. *)
Lemma PUT_on_branch_is_not_an_upsert :
  fst (TimelineById.PUT (B := example_builtins) "t1" put_P2 world_branch_empty)
  = Ok (written "both") /\
  In (EvDb (Branch host1) (Update "t1" (print_json P2)) true)
     (events_since world_branch_empty
        (snd (TimelineById.PUT (B := example_builtins) "t1" put_P2 world_branch_empty))) /\
  branches world_branch_empty !! host1 = Some ∅ /\
  branches (snd (TimelineById.PUT (B := example_builtins) "t1" put_P2 world_branch_empty))
    !! host1 = Some ∅ /\
  forall v, v_id v = "t1" ->
    branches (snd (TimelineById.PUT (B := example_builtins) "t1" put_P2 world_branch_empty))
      !! host1
    <> Some (documented_upsert (now world_branch_empty) v ∅).
Proof.
  split; [by_compute|]. split; [vm_compute; tauto|]. split; [by_compute|].
  assert (branches (snd (TimelineById.PUT (B := example_builtins) "t1" put_P2
                           world_branch_empty)) !! host1 = Some ∅) as Hafter by by_compute.
  split; [exact Hafter|].
  intros v Hv. rewrite Hafter. intros Heq.
  assert (Some (∅ : gmap string Row) ≫= (fun t => t !! "t1")
          = Some (documented_upsert (now world_branch_empty) v ∅) ≫= (fun t => t !! "t1"))
    as Hlook by (rewrite <- Heq; reflexivity).
  cbn [mbind option_bind] in Hlook. unfold documented_upsert in Hlook.
  rewrite Hv, lookup_empty, lookup_insert_eq in Hlook. discriminate.
Qed.

(** C4 (amended) at a creation on a branch without the row and at an
    update on a branch that has it. *)
Lemma branch_write_witness :
  branch_write host1 (InsertOnDuplicateKeyUpdate forked)
    (branch_calls
       (events_since world_creating
          (snd (Timelines.POST (B := example_builtins) post_fork world_creating))))
  /\
  (exists table',
     branches (snd (Timelines.POST (B := example_builtins) post_fork world_creating)) !! host1
     = Some table' /\
     table' !! "0123456789abcdef" = Some (row_of (now world_creating) forked))
  /\
  branch_write host1 (Update "t1" (print_json P2))
    (branch_calls
       (events_since world_branched
          (snd (TimelineById.PUT (B := example_builtins) "t1" put_P2 world_branched))))
  /\
  (exists table',
     branches (snd (TimelineById.PUT (B := example_builtins) "t1" put_P2 world_branched))
       !! host1 = Some table' /\
     exists updated, table' !! "t1" = Some updated /\
       tree_data updated = print_json P2 /\ same_but_payload row1_on_branch updated).
Proof.
  destruct (branch_write_is_upsert_on_create_update_on_put (B := example_builtins))
    as (Hcreates & Hpost & Hupdates & Hput).
  split; [|split; [|split]].
  - apply (Hcreates world_creating
             (snd (Timelines.POST (B := example_builtins) post_fork world_creating))
             post_fork
             (fst (Timelines.POST (B := example_builtins) post_fork world_creating))
             forked).
    + apply surjective_pairing.
    + vm_compute. tauto.
    + reflexivity.
    + discriminate.
  - destruct (Hpost world_creating
                (snd (Timelines.POST (B := example_builtins) post_fork world_creating))
                post_fork
                (fst (Timelines.POST (B := example_builtins) post_fork world_creating))
                host1 forked)
      as (_ & _ & table & table' & Hbefore & Hafter & _ & _ & Hfresh & _).
    + apply surjective_pairing.
    + vm_compute. tauto.
    + exists table'. split; [exact Hafter|]. apply Hfresh.
      assert (branches world_creating !! host1 = Some ∅) as E by by_compute.
      rewrite E in Hbefore. injection Hbefore as <-. by_compute.
  - apply (Hupdates world_branched
             (snd (TimelineById.PUT (B := example_builtins) "t1" put_P2 world_branched))
             "t1" put_P2
             (fst (TimelineById.PUT (B := example_builtins) "t1" put_P2 world_branched))
             (print_json P2) row1 host1).
    + apply surjective_pairing.
    + vm_compute. tauto.
    + by_compute.
    + split; [reflexivity | discriminate].
  - destruct (Hput world_branched
                (snd (TimelineById.PUT (B := example_builtins) "t1" put_P2 world_branched))
                "t1" put_P2
                (fst (TimelineById.PUT (B := example_builtins) "t1" put_P2 world_branched))
                host1 "t1" (print_json P2))
      as (_ & _ & table & table' & Hbefore & Hafter & _ & _ & Hexisting).
    + apply surjective_pairing.
    + vm_compute. tauto.
    + exists table'. split; [exact Hafter|]. apply Hexisting.
      assert (branches world_branched !! host1 = Some {[ "t1" := row1_on_branch ]}) as E
        by by_compute.
      rewrite E in Hbefore. injection Hbefore as <-. by_compute.
Defined.


Lemma repr_heap_unique : LifeTreeHeap.repr heap_unique 1%positive tree_unique.
Proof.
  apply (LifeTreeHeap.repr_node heap_unique 1%positive
           (LifeTreeHeap.Obj "root" "Take the job" "" LifeTree.Now LifeTree.neutral None
              (Some 2%positive))
           2%positive [3%positive; 6%positive]); [by_compute | reflexivity | by_compute |].
  constructor; [|constructor; [|constructor]].
  - apply (LifeTreeHeap.repr_node heap_unique 3%positive
             (LifeTreeHeap.Obj "path-a" "Accept" "" LifeTree.Yr5 LifeTree.positive (Some 60%Z)
                (Some 4%positive))
             4%positive [5%positive]); [by_compute | reflexivity | by_compute |].
    constructor; [|constructor].
    apply (LifeTreeHeap.repr_leaf heap_unique 5%positive
             (LifeTreeHeap.Obj "path-a-good" "Promoted" "" LifeTree.Yr5 LifeTree.neutral
                None None)); [by_compute | reflexivity].
  - apply (LifeTreeHeap.repr_leaf heap_unique 6%positive
             (LifeTreeHeap.Obj "path-b" "Decline" "" LifeTree.Yr5 LifeTree.neutral None None));
      [by_compute | reflexivity].
Qed.

Lemma repr_array_alternative : LifeTreeHeap.repr_array heap_unique 7%positive alternative.
Proof.
  exists [8%positive]. split; [by_compute|]. constructor; [|constructor].
  apply (LifeTreeHeap.repr_leaf heap_unique 8%positive
           (LifeTreeHeap.Obj "alt-1" "Start a company" "" LifeTree.Yr5 LifeTree.neutral
              None None)); [by_compute | reflexivity].
Qed.

(** C7 at a tree without the identifier, on values and on the heap. *)
Lemma replaceSubtreeAtNode_absent_is_noop_witness :
  ~ LifeTree.occurs "branch-a" tree_unique /\
  LifeTree.replaceSubtreeAtNode tree_unique "branch-a" alternative = tree_unique /\
  exists root' h',
    LifeTreeHeap.replaceSubtreeAtNode 3 heap_unique 1%positive "branch-a" 7%positive
    = Some (root', h') /\
    (forall l c, heap_unique !! l = Some c -> h' !! l = Some c) /\
    LifeTreeHeap.repr h' 1%positive tree_unique /\
    LifeTreeHeap.repr h' root' tree_unique.
Proof.
  assert (~ LifeTree.occurs "branch-a" tree_unique) as Habsent
    by (vm_compute; intuition discriminate).
  split; [exact Habsent|].
  destruct (replaceSubtreeAtNode_absent_is_noop tree_unique "branch-a" alternative Habsent)
    as [Hvalue Hheap].
  split; [exact Hvalue|].
  apply (Hheap 3%nat heap_unique 1%positive 7%positive).
  - vm_compute. lia.
  - exact repr_heap_unique.
  - exact repr_array_alternative.
Defined.

(** C8 as stated fails when a sibling carries the same identifier: the
    sibling subtree of the node the search finds is changed too. *)
Lemma replacement_reaches_a_sibling_with_the_same_id :
  LifeTree.findNodeById tree_duplicate "branch-a" = Some first_a /\
  LifeTree.subtree_at tree_duplicate ([] ++ [0%nat]) = Some first_a /\
  LifeTree.subtree_at tree_duplicate ([] ++ [1%nat]) = Some second_a /\
  LifeTree.subtree_at (LifeTree.replaceSubtreeAtNode tree_duplicate "branch-a" alternative)
    ([] ++ [1%nat])
  = Some (LifeTree.with_children second_a alternative) /\
  LifeTree.subtree_at (LifeTree.replaceSubtreeAtNode tree_duplicate "branch-a" alternative)
    ([] ++ [1%nat])
  <> Some second_a.
Proof.
  split; [by_compute|]. split; [by_compute|]. split; [by_compute|]. split; [by_compute|].
  vm_compute. discriminate.
Qed.

(** C8 (amended) at a tree with unique identifiers, and at one where a
    sibling carries the identifier too. *)
Lemma replace_then_find_witness :
  LifeTree.findNodeById tree_unique "path-a" = Some path_a /\
  LifeTree.findNodeById (LifeTree.replaceSubtreeAtNode tree_unique "path-a" alternative) "path-a"
    = Some (LifeTree.with_children path_a alternative) /\
  LifeTree.subtree_at (LifeTree.replaceSubtreeAtNode tree_unique "path-a" alternative)
    ([] ++ [1%nat])
  = Some (leaf "path-b" "Decline") /\
  LifeTree.subtree_at (LifeTree.replaceSubtreeAtNode tree_duplicate "branch-a" alternative)
    [1%nat]
  = Some (LifeTree.with_children second_a alternative).
Proof.
  assert (LifeTree.findNodeById tree_unique "path-a" = Some path_a) as Hfind by by_compute.
  split; [exact Hfind|].
  destruct (replace_then_find tree_unique "path-a" alternative path_a Hfind)
    as (_ & Hfound & _ & _ & _ & Hsiblings).
  split; [exact Hfound|].
  split.
  - apply (Hsiblings ltac:(apply (bool_decide_unpack _); vm_compute; exact I) [] 0%nat 1%nat
             (leaf "path-b" "Decline")).
    + by_compute.
    + discriminate.
    + by_compute.
  - assert (LifeTree.findNodeById tree_duplicate "branch-a" = Some first_a) as Hfirst
      by by_compute.
    destruct (replace_then_find tree_duplicate "branch-a" alternative first_a Hfirst)
      as (_ & _ & _ & Hevery & _).
    apply Hevery.
    + by_compute.
    + split; [discriminate | exact I].
    + reflexivity.
Defined.

(* --------------------------------------------------------------------- *)
(** ** The further properties at example inputs *)
(* --------------------------------------------------------------------- *)

Import Behaviour Scenarios.

(** X1 at a tree that holds the identifier. *)
Lemma findNodeById_finds_iff_present_witness :
  exists found, LifeTree.findNodeById tree_unique "path-a" = Some found.
Proof.
  destruct (findNodeById_finds_iff_present tree_unique "path-a") as [[Hfinds _] _].
  apply Hfinds. vm_compute. tauto.
Defined.

(** X3 at a replacement that changes the tree. *)
Lemma replaceSubtreeAtNode_leaves_its_input_intact_witness :
  exists root' h',
    LifeTreeHeap.replaceSubtreeAtNode 3 heap_unique 1%positive "path-a" 7%positive
    = Some (root', h') /\
    (forall l c, heap_unique !! l = Some c -> h' !! l = Some c) /\
    LifeTreeHeap.repr h' 1%positive tree_unique /\
    LifeTreeHeap.repr h' root'
      (LifeTree.replaceSubtreeAtNode tree_unique "path-a" alternative).
Proof.
  apply (replaceSubtreeAtNode_leaves_its_input_intact tree_unique "path-a" alternative
           3%nat heap_unique 1%positive 7%positive).
  - vm_compute. lia.
  - exact repr_heap_unique.
  - exact repr_array_alternative.
Defined.

(** X5 at the alternative explored below [path-a]. *)
Lemma alternative_subtree_is_highlighted_witness :
  List.map Flow.shown
    (List.filter Flow.highlighted
       (fst (Flow.treeToFlowWithBranchInfo
               (LifeTree.replaceSubtreeAtNode tree_unique "path-a" alternative) None None
               (Some "path-a") false)))
  = alternative.
Proof.
  apply (alternative_subtree_is_highlighted tree_unique "path-a" alternative None).
  - apply (bool_decide_unpack _). vm_compute. exact I.
  - vm_compute. tauto.
Defined.

(** X6 at a tree of four nodes. *)
Lemma treeToGraph_draws_the_tree_witness :
  List.map Flow.val (fst (Flow.treeToGraph tree_unique None)) = [20; 10; 10; 10].
Proof.
  destruct (treeToGraph_draws_the_tree tree_unique) as (_ & _ & _ & Hsizes).
  apply Hsizes. vm_compute. repeat constructor; discriminate.
Defined.

(** X8 at an update of a record whose branch is reachable. *)
Lemma PUT_then_GET_reads_back_witness :
  exists row source,
    fst (TimelineById.GET (B := example_builtins) "t1"
           (snd (TimelineById.PUT (B := example_builtins) "t1" put_P2 world_branched)))
    = Ok (fetched row P2 source).
Proof.
  destruct (PUT_then_GET_reads_back (B := example_builtins) world_branched
              (snd (TimelineById.PUT (B := example_builtins) "t1" put_P2 world_branched))
              "t1" put_P2 "both")
    as (v & row & source & Hrequest & _ & Hget).
  - by_compute.
  - discriminate.
  - split; by_compute.
  - injection Hrequest as <-. eexists _, source. apply Hget. by_compute.
Defined.

(** X9 at an update whose branch [UPDATE] is refused, where the read that
    follows still answers with the older payload of the branch, and at one
    whose branch connection fails to close, where the read answers with
    the new payload although the write reported [main-only]. *)
Lemma main_only_write_and_the_later_read_witness :
  fst (TimelineById.PUT (B := example_builtins) "t1" put_P2 world_branch_read_only)
  = Ok (written "main-only") /\
  fst (TimelineById.GET (B := example_builtins) "t1"
         (snd (TimelineById.PUT (B := example_builtins) "t1" put_P2 world_branch_read_only)))
  = Ok (fetched (set_tree_data (print_json P2) row1) P1 "branch") /\
  fst (TimelineById.PUT (B := example_builtins) "t1" put_P2 world_branch_end_fails)
  = Ok (written "main-only") /\
  fst (TimelineById.GET (B := example_builtins) "t1"
         (recovered
            (snd (TimelineById.PUT (B := example_builtins) "t1" put_P2
                    world_branch_end_fails))))
  = Ok (fetched (set_tree_data (print_json P2) row1) P2 "branch").
Proof.
  split; [by_compute|]. split; [|split; [by_compute|]].
  - destruct (main_only_write_and_the_later_read (B := example_builtins)
                world_branch_read_only
                (snd (TimelineById.PUT (B := example_builtins) "t1" put_P2
                        world_branch_read_only))
                (snd (TimelineById.PUT (B := example_builtins) "t1" put_P2
                        world_branch_read_only))
                "t1" put_P2 row1 host1)
      as (v & Hrequest & _ & Hstale & _).
    + by_compute.
    + by_compute.
    + split; [reflexivity | discriminate].
    + exact eq_refl.
    + exact eq_refl.
    + split; by_compute.
    + by_compute.
    + injection Hrequest as <-.
      destruct Hstale as [_ Hget].
      * vm_compute. intros H. repeat destruct H as [H|H]; try discriminate H; exact H.
      * apply (Hget {[ "t1" := row1 ]} row1 P1); by_compute.
  - destruct (main_only_write_and_the_later_read (B := example_builtins)
                world_branch_end_fails
                (snd (TimelineById.PUT (B := example_builtins) "t1" put_P2
                        world_branch_end_fails))
                (recovered
                   (snd (TimelineById.PUT (B := example_builtins) "t1" put_P2
                           world_branch_end_fails)))
                "t1" put_P2 row1 host1)
      as (v & Hrequest & _ & _ & Hfresh).
    + by_compute.
    + by_compute.
    + split; [reflexivity | discriminate].
    + exact eq_refl.
    + exact eq_refl.
    + split; by_compute.
    + by_compute.
    + injection Hrequest as <-.
      destruct Hfresh as [_ Hget].
      * vm_compute. tauto.
      * apply (Hget {[ "t1" := row1 ]} row1 P2); by_compute.
Defined.

(** X10 at an update that reaches both stores. *)
Lemma PUT_changes_one_payload_only_witness :
  stores_related (payload_update "t1") world_branched
    (snd (TimelineById.PUT (B := example_builtins) "t1" put_P2 world_branched)).
Proof.
  apply (PUT_changes_one_payload_only (B := example_builtins) world_branched
           (snd (TimelineById.PUT (B := example_builtins) "t1" put_P2 world_branched))
           "t1" put_P2
           (fst (TimelineById.PUT (B := example_builtins) "t1" put_P2 world_branched))).
  apply surjective_pairing.
Defined.

(** X11 at an id the primary store does not hold. *)
Lemma PUT_unknown_id_writes_nothing_witness :
  fst (TimelineById.PUT (B := example_builtins) "unknown" put_P2 world_branched)
  = Ok (failure 404 "Timeline not found") /\
  main (snd (TimelineById.PUT (B := example_builtins) "unknown" put_P2 world_branched))
  = main world_branched.
Proof.
  destruct (PUT_unknown_id_writes_nothing (B := example_builtins) world_branched "unknown" P2)
    as (Hanswer & Hsame & _).
  - split; by_compute.
  - reflexivity.
  - by_compute.
  - split; [exact Hanswer|]. destruct Hsame as [_ Hmain _ _ _]. exact Hmain.
Defined.

(** X12 at a read that goes to the branch. *)
Lemma GET_is_read_only_witness :
  same_stores world_branched
    (snd (TimelineById.GET (B := example_builtins) "t1" world_branched)) /\
  no_write (events_since world_branched
              (snd (TimelineById.GET (B := example_builtins) "t1" world_branched))).
Proof.
  destruct (GET_is_read_only (B := example_builtins) world_branched
              (snd (TimelineById.GET (B := example_builtins) "t1" world_branched)) "t1"
              (fst (TimelineById.GET (B := example_builtins) "t1" world_branched)))
    as (_ & Hsame & Hquiet).
  - apply surjective_pairing.
  - split; assumption.
Defined.

(** X14 at an update whose primary write is refused: the connection taken
    is not released and the answer is 500. *)
Lemma pooled_connection_is_released_unless_a_statement_fails_witness :
  In (EvDb Main Connect true)
     (events_since world_primary_refuses
        (snd (TimelineById.PUT (B := example_builtins) "t1" put_P2 world_primary_refuses))) /\
  ~ released (events_since world_primary_refuses
                (snd (TimelineById.PUT (B := example_builtins) "t1" put_P2
                        world_primary_refuses))) /\
  exists answer,
    fst (TimelineById.PUT (B := example_builtins) "t1" put_P2 world_primary_refuses)
    = Ok answer /\ r_status answer = 500.
Proof.
  assert (In (EvDb Main Connect true)
            (events_since world_primary_refuses
               (snd (TimelineById.PUT (B := example_builtins) "t1" put_P2
                       world_primary_refuses)))) as Hconnected by (vm_compute; tauto).
  assert (primary_failed
            (events_since world_primary_refuses
               (snd (TimelineById.PUT (B := example_builtins) "t1" put_P2
                       world_primary_refuses)))) as Hfailed
    by (exists (Update "t1" (print_json P2)); vm_compute; tauto).
  split; [exact Hconnected|].
  destruct (pooled_connection_is_released_unless_a_statement_fails (B := example_builtins)
              world_primary_refuses
              (snd (TimelineById.PUT (B := example_builtins) "t1" put_P2 world_primary_refuses))
              (fst (TimelineById.PUT (B := example_builtins) "t1" put_P2 world_primary_refuses)))
    as [[Hreleased _] Hanswer].
  - right. left. exists "t1", put_P2. apply surjective_pairing.
  - exact Hconnected.
  - split; [|exact (Hanswer Hfailed)].
    intros Hrel. exact (Hreleased Hrel Hfailed).
Defined.

(** X15 at a creation that asks for a branch while the control plane does
    not answer, and at one where the control plane, after the challenge,
    answers ok without a branch id. *)
Lemma POST_fails_only_on_an_undefined_branch_witness :
  (fst (Timelines.POST (B := example_builtins) (Some fork_body) world_offline)
   = Ok (created world_offline fork_body None None) /\
   main (snd (Timelines.POST (B := example_builtins) (Some fork_body) world_offline))
     !! "0123456789abcdef"
   = Some (row_of (now world_offline)
             (created_values (B := example_builtins) world_offline fork_body None None))) /\
  (branch_block (B := example_builtins) (world_challenged challenge_with_tokens) fork_body
   = Ok (Undefined, Null) /\
   fst (Timelines.POST (B := example_builtins) (Some fork_body)
          (world_challenged challenge_with_tokens))
   = Ok (failure 500 "Failed to create timeline") /\
   main (snd (Timelines.POST (B := example_builtins) (Some fork_body)
                (world_challenged challenge_with_tokens)))
   = main (world_challenged challenge_with_tokens)).
Proof.
  split.
  - destruct (POST_fails_only_on_an_undefined_branch (B := example_builtins)
                world_offline fork_body)
      as (branchId & branchHost & _ & Hnull & Hcreated).
    + repeat split; reflexivity.
    + reflexivity.
    + intros v _. reflexivity.
    + by_compute.
    + destruct Hnull as [-> ->]; [intros r []|].
      cbn [defined andb bound] in Hcreated.
      destruct Hcreated as (Hanswer & Hrow & _). split; [exact Hanswer | exact Hrow].
  - destruct (POST_fails_only_on_an_undefined_branch (B := example_builtins)
                (world_challenged challenge_with_tokens) fork_body)
      as (branchId & branchHost & Hblock & _ & Hrefused).
    + repeat split; reflexivity.
    + reflexivity.
    + intros v _. reflexivity.
    + by_compute.
    + assert (branch_block (B := example_builtins) (world_challenged challenge_with_tokens)
                fork_body = Ok (Undefined, Null)) as Hcomputed by by_compute.
      split; [exact Hcomputed|].
      rewrite Hcomputed in Hblock. injection Hblock as <- <-.
      exact Hrefused.
Defined.

(** X16 at a creation whose branch is created and reachable at once. *)
Lemma POST_then_GET_reads_back_witness :
  exists row source,
    fst (TimelineById.GET (B := example_builtins) (drawn_id world_creating)
           (snd (Timelines.POST (B := example_builtins) post_fork world_creating)))
    = Ok (fetched row P2 source).
Proof.
  destruct (POST_then_GET_reads_back (B := example_builtins) world_creating
              (snd (Timelines.POST (B := example_builtins) post_fork world_creating))
              post_fork (created world_creating fork_body (Some "bran-2") (Some host1)))
    as (b & branchId & branchHost & source & Hrequest & _ & Hget).
  - by_compute.
  - reflexivity.
  - intros host table Htable. unfold world_creating, world in Htable.
    cbn [branches] in Htable.
    apply lookup_singleton_Some in Htable as [_ <-]. apply lookup_empty.
  - split; by_compute.
  - injection Hrequest as <-. eexists _, source. apply Hget. by_compute.
Defined.

(** X17 at a creation that draws an id the table already holds. *)
Lemma POST_never_overwrites_witness :
  answers [400; 500] (fst (Timelines.POST (B := example_builtins) (Some fork_body)
                             world_id_taken)) /\
  main (snd (Timelines.POST (B := example_builtins) (Some fork_body) world_id_taken))
  = main world_id_taken.
Proof.
  destruct (POST_never_overwrites (B := example_builtins) world_id_taken
              (snd (Timelines.POST (B := example_builtins) (Some fork_body) world_id_taken))
              (Some fork_body)
              (fst (Timelines.POST (B := example_builtins) (Some fork_body) world_id_taken)))
    as [_ Htaken].
  - apply surjective_pairing.
  - destruct Htaken as (Hanswer & Hmain & _).
    + exists row1. by_compute.
    + split; assumption.
Defined.

(** X18 at a creation that asks for no branch. *)
Lemma POST_without_branching_stays_local_witness :
  Forall (fun e => is_fetch e = false)
    (events_since world_creating
       (snd (Timelines.POST (B := example_builtins) (Some local_body) world_creating))) /\
  main (snd (Timelines.POST (B := example_builtins) (Some local_body) world_creating))
    !! drawn_id world_creating
  = Some (row_of (now world_creating)
            (created_values (B := example_builtins) world_creating local_body None None)).
Proof.
  destruct (POST_without_branching_stays_local (B := example_builtins) world_creating
              (snd (Timelines.POST (B := example_builtins) (Some local_body) world_creating))
              local_body
              (fst (Timelines.POST (B := example_builtins) (Some local_body) world_creating)))
    as (Hquiet & _ & Hcreated).
  - apply surjective_pairing.
  - left. reflexivity.
  - split; [exact Hquiet|].
    apply (Hcreated (created world_creating local_body None None)); by_compute.
Defined.

(** X19 at a control plane that answers the first request. *)
Lemma tidbCloudFetch_returns_an_unchallenged_answer_witness :
  fst (tidbCloudFetch (B := example_builtins) "GET" branches_path None world_listing)
  = Ok listing_reply /\
  events_since world_listing
    (snd (tidbCloudFetch (B := example_builtins) "GET" branches_path None world_listing))
  = [EvFetch (control_request (B := example_builtins) "GET" branches_path None None)].
Proof.
  destruct (tidbCloudFetch_returns_an_unchallenged_answer (B := example_builtins)
              world_listing "GET" branches_path None listing_reply [])
    as (Hanswer & Hsent & _).
  - reflexivity.
  - reflexivity.
  - vm_compute. discriminate.
  - split; assumption.
Defined.

(** X20 at a control plane that challenges the first request. *)
Lemma tidbCloudFetch_sends_at_most_two_requests_witness :
  exists credentials,
    events_since (world_challenged challenge_with_tokens)
      (snd (tidbCloudFetch (B := example_builtins) "GET" branches_path None
              (world_challenged challenge_with_tokens)))
    = [EvFetch (control_request (B := example_builtins) "GET" branches_path None None);
       EvFetch (control_request (B := example_builtins) "GET" branches_path None
                  (Some credentials))].
Proof.
  destruct (tidbCloudFetch_sends_at_most_two_requests (B := example_builtins)
              (world_challenged challenge_with_tokens)
              (snd (tidbCloudFetch (B := example_builtins) "GET" branches_path None
                      (world_challenged challenge_with_tokens)))
              "GET" branches_path None
              (fst (tidbCloudFetch (B := example_builtins) "GET" branches_path None
                      (world_challenged challenge_with_tokens))))
    as [_ [(Hkeys & _) | [(_ & Hone) | (_ & _ & _ & credentials & _ & _ & Htwo)]]].
  - apply surjective_pairing.
  - vm_compute in Hkeys. discriminate Hkeys.
  - vm_compute in Hone. discriminate Hone.
  - exists credentials. exact Htwo.
Defined.

(** X21 at the realm of a challenge header. *)
Lemma match_group_extracts_a_quoted_token_witness :
  carries "realm" "tidb.cloud" challenge_header /\
  TidbCloud.has_token "realm" challenge_header = true.
Proof.
  destruct (match_group_extracts_a_quoted_token "realm" challenge_header)
    as [Hextracts Hfound].
  assert (carries "realm" "tidb.cloud" challenge_header) as Hcarries
    by (apply Hextracts; by_compute).
  split; [exact Hcarries | exact (Hfound _ Hcarries)].
Defined.

(** X22 at a listing that is challenged first. *)
Lemma branch_routes_only_call_the_control_plane_witness :
  (exists answer,
     fst (Branches.GET (B := example_builtins) (world_challenged challenge_with_tokens))
     = Ok answer) /\
  same_stores (world_challenged challenge_with_tokens)
    (snd (Branches.GET (B := example_builtins) (world_challenged challenge_with_tokens))) /\
  only_fetches (world_challenged challenge_with_tokens)
    (snd (Branches.GET (B := example_builtins) (world_challenged challenge_with_tokens))).
Proof.
  destruct (branch_routes_only_call_the_control_plane (B := example_builtins)
              (world_challenged challenge_with_tokens)
              (snd (Branches.GET (B := example_builtins)
                      (world_challenged challenge_with_tokens)))
              (fst (Branches.GET (B := example_builtins)
                      (world_challenged challenge_with_tokens))))
    as (Hanswer & Hsame & Honly & _).
  - right. left. apply surjective_pairing.
  - repeat split; assumption.
Defined.

(** X23 at a listing the control plane answers with 403. *)
Lemma branch_routes_pass_a_refusal_on_witness :
  fst (Branches.GET (B := example_builtins) world_forbidden)
  = Ok (respond 403 (Branches.refused "Failed to list branches: " 403)).
Proof.
  destruct (branch_routes_pass_a_refusal_on (B := example_builtins) world_forbidden
              (snd (tidbCloudFetch (B := example_builtins) "GET"
                      (Branches.collection "10001") None world_forbidden))
              "10001" forbidden)
    as (_ & Hlist & _).
  - reflexivity.
  - discriminate.
  - reflexivity.
  - rewrite Hlist; [reflexivity | by_compute].
Defined.

(** X24 at a listing the control plane answers, and at a deletion. *)
Lemma branch_routes_on_success_witness :
  fst (Branches.GET (B := listing_builtins) world_listing)
  = Ok (respond 200
          (JObj [("success", JBool true);
                 ("branches",
                  JArr [JObj [("branchId", JStr "bran-1");
                              ("displayName", JStr "alt-move-abroad")]])])).
Proof.
  destruct (branch_routes_on_success (B := listing_builtins) world_listing
              (snd (tidbCloudFetch (B := listing_builtins) "GET"
                      (Branches.collection "10001") None world_listing))
              "10001" listing_reply)
    as (_ & Hlist & _).
  - reflexivity.
  - discriminate.
  - reflexivity.
  - rewrite Hlist; [by_compute | by_compute].
Defined.

(** X25 at a tree shared into an empty table. *)
Lemma shared_tree_round_trip_witness :
  fst (Trees.POST (B := example_builtins) (Some share_body) no_trees)
  = Ok (respond 200 (JObj [("success", JBool true); ("id", JStr (Trees.next_id no_trees))])) /\
  fst (Trees.GET (B := example_builtins) (Trees.next_id no_trees)
         (snd (Trees.POST (B := example_builtins) (Some share_body) no_trees)))
  = Ok (Trees.shared (Trees.stored (B := example_builtins) no_trees share_body) P2).
Proof.
  apply (shared_tree_round_trip (B := example_builtins) no_trees share_body P2).
  - reflexivity.
  - reflexivity.
  - intros c. reflexivity.
  - by_compute.
  - by_compute.
Defined.

(** X26 at a tree shared under an id the table already holds. *)
Lemma shared_trees_are_immutable_witness :
  Trees.trees (snd (Trees.POST (B := example_builtins) (Some share_body) one_tree))
  = Trees.trees one_tree /\
  exists answer,
    fst (Trees.POST (B := example_builtins) (Some share_body) one_tree) = Ok answer /\
    r_status answer <> 200.
Proof.
  destruct (shared_trees_are_immutable (B := example_builtins)) as [Hpost _].
  destruct (Hpost (Some share_body) one_tree
              (snd (Trees.POST (B := example_builtins) (Some share_body) one_tree))
              (fst (Trees.POST (B := example_builtins) (Some share_body) one_tree)))
    as (_ & _ & Htaken).
  - apply surjective_pairing.
  - apply Htaken. exists shared_row. by_compute.
Defined.

(** X27 at a source of random numbers whose first value makes the product
    round up to a whole number. *)
Lemma generateId_fits_the_column_witness :
  Binary64.floor (Binary64.mul (draws 0) (Binary64.of_nat 62)) = 32 /\
  exists db',
    Trees.generateId no_trees = (Ok (Trees.next_id no_trees), db') /\
    String.length (Trees.next_id no_trees) = 8%nat /\
    Trees.alphanumeric (Trees.next_id no_trees) = true /\
    Trees.same_table no_trees db'.
Proof.
  split; [by_compute|].
  apply (generateId_fits_the_column no_trees).
  intros n. unfold Binary64.representable, Binary64.below_one.
  destruct n as [|n];
    cbn [Trees.random no_trees draws Binary64.mantissa Binary64.exponent].
  - split; [split; [split; [lia | reflexivity] | lia] | right; split; [lia | reflexivity]].
  - pose proof (Nat.mod_upper_bound (S n * 7 + 3) 61 ltac:(lia)) as Hbound.
    change (2 ^ 53) with 9007199254740992. change (2 ^ (- -6)) with 64.
    split; [split; lia | right; lia].
Defined.

(** X28 at a forwarding header of two addresses, the first one after a
    no-break space. *)
Lemma getClientIP_takes_the_first_forwarded_address_witness :
  RateLimit.getClientIP forwarded = "203.0.113.7".
Proof.
  destruct (getClientIP_takes_the_first_forwarded_address nbsp "203.0.113.7" " ")
    as [Hfirst _]; [reflexivity | reflexivity | reflexivity | reflexivity |].
  exact (Hfirst " 10.0.0.1" (Some "10.9.9.9")).
Defined.

(** X29 at a fenced answer that begins with a byte order mark. *)
Lemma strip_fences_recovers_the_content_witness :
  Generate.strip_fences fenced_answer = print_json P1.
Proof.
  destruct (strip_fences_recovers_the_content bom newline (print_json P1) newline newline)
    as [Hstripped _]; [reflexivity | reflexivity | reflexivity | reflexivity |].
  etransitivity; [exact Hstripped | by_compute].
Defined.

End AtExamples.

